(* ===== verification/_CoqProject ===== *)
-Q . S2P
Prelude.v
Wire.v
GaleMap.v
GaleTime.v
Debug.v
ClientId.v
LinkState.v
Input.v
Output.v
Session.v
Protocol.v
Attach.v
Server.v
Api.v
