(* ===== verification/Prelude.v ===== *)
(** * A verification development of the Gale link protocol engine

    The program.  Gale is a publish/subscribe messaging system.  Its link
    layer, [src/libgale/core_link.c], carries the traffic of one
    connection over one ordered byte stream.  A [struct gale_link] holds:
    - an input state machine ([ist_*] / [ifn_*]), driven by the input
      buffer of [io.c], which decodes frames [opcode:u32, length:u32,
      body] into per-kind pending slots ([in_puff], [in_will],
      [in_gimme], [in_publish], [in_watch], ...); the [ready] predicates
      stop decoding while a slot of an exactly-once kind is still full;
    - an output state machine ([ost_*] / [ofn_*]) that serialises the
      pending outbound facts in the fixed priority order of [ofn_idle]:
      watch/forget map, fetch requests, published value, fetch answers,
      assert/retract notices, complete notices, subscription, will,
      queued messages;
    - the outbound queue ([link_put], [dequeue]) and its counters
      [queue_num] and [queue_mem];
    - the application's API: [ltx_*] mutators gated on the peer's
      version, [lrx_*] drains, [link_set_fd], [link_shutdown],
      [link_subscribe], [link_will], [link_on_*], and the liboop
      callbacks [on_process], [on_read], [on_write].
    [src/libgale/misc_time.c] is the 128-bit clock that stamps queued
    messages.  The two machines meet only through the byte stream: one
    link's output machine writes what the peer's input machine reads;
    the application meets the input machine through the slots and the
    drains, the output machine through the mutators and the queue.

    The library, one file per part, in dependency order:
    - [Prelude] (this file): the [gale_scope] notations, the [outcome]
      monad ([Done] or [Abort site]) that models a C [assert], the
      [ASSERT b AT site; k] notation, the [gale] hint and [gale_rw]
      rewrite databases, the tactics [rsimpl], [bool_to_prop],
      [gale_cases], [zbool_lia], [invc], and shared list and integer
      lemmas.
    - [Wire]: libgale's packing primitives ([gale_pack_u32],
      [gale_unpack_u32], texts, raw copies), not in the repository and
      modelled from the specification: big-endian 32-bit integers and
      16-bit characters over [list byte], with exact sizes and round
      trips; [G_] turns a C string literal into a [gale_text].
    - [GaleMap]: libgale's ordered map, modelled from the specification
      as an association list sorted by byte order: [gale_map_add]
      ([None] removes), [gale_map_find], [gale_map_walk]; sortedness is
      preserved and a walk from the start yields the least key.  The
      typeclass [OrderedMap] states what the output machine and the
      [ltx_*] mutators rely on (find after add, the first key is the
      least); [gale_map_ordered] is the instance, and the clients'
      lemmas ([om_last_writer_wins], [om_remove_first]) are proved
      against the class.
    - [GaleTime]: [misc_time.c] with each field at its width ([u32],
      [s32] conversions written out); the static [last] of
      [gale_time_now] is passed and returned explicitly; in
      [gale_time_format] the Swatch beat is computed as in the source
      (its [int] product never overflows and the beat is below 1000,
      [swatch_beat_bounds]), while [strftime] of [localtime] and
      libgale's text functions are section variables.
    - [Debug]: [misc_debug.c]; the static [indent] and [stderr] are a
      [debug_state], the indentation [for] loop is [pad_loop] with fuel
      (enough by [pad_loop_spec]), a program's calls are a [dcall] list.
    - [ClientId]: [client_standard.c]'s [gale_add_id], written against
      the typeclass [FragmentGroup] (libgale's [gale_group_add] and
      [gale_group_lookup], not in the repository) with the list
      instance [list_group]; its time stamp comes from [gale_time_now].
    - [LinkState]: opcodes, packets, [struct gale_link] as records (input
      half [link_in], output half [link_out], handlers, reactor
      registrations, the two [io.c] buffers), generated field setters,
      the slots [in_text]/[in_cid] point to, [new_link], [activate] /
      [deactivate], and the outbound queue with its invariant
      [queue_ok] and its FIFO specification [fifo_run].
    - [Input]: every [ist_*], [ifn_*] and ready predicate; one step of
      the input buffer ([input_step]: if ready and [inp_len] bytes are
      buffered, hand exactly those bytes to [next]); the loop
      [input_process] with fuel; the invariant [input_wf]; the step
      relation [in_step] / [in_star].  The warnings of
      [gale_alert(GALE_WARNING,...)] are [warning] values appended to
      the link's [in_alerts] (the source prints them to the global
      log); [warning_text] gives their text.
    - [Output]: every [ost_*] / [ofn_*]; [output_step] and the loop
      [output_process] with fuel; the invariant [output_wf].
    - [Session]: the reactor callbacks, attach/detach, shutdown, the
      [ltx_*] / [lrx_*] API and the [io.c] buffer operations they call
      ([input_buffer_more], [input_buffer_read], [output_buffer_write],
      modelled from the specification); what the descriptor does is an
      event ([read_event], [write_event]); what a callback does is the
      [callback] value naming the handler it calls.
    - [Protocol]: one link's output read by another link's input: the
      frame of a puff decodes to the packet, a queue is delivered in
      order through [on_read] and [on_process], publish values coalesce,
      watch texts are drained once each and in order, and assert
      categories do not survive the trip.
    - [Attach]: [src/server/attach.c]: [struct attach] holding the one
      shared [gale_link], its callbacks ([on_connect], [on_disconnect],
      [on_will_message], [on_will_packet], [on_empty]), [new_attach]
      and [on_empty_attach]; the collaborators outside the repository
      ([gale_connect_text], the error queue, [gale_pack_message],
      [gale_text_from_number]) are section variables.  What the
      server, the routing code and the reactor do to the link is an
      [att_event]; [att_step] / [att_run] are the attach's executions.
    - [Server]: what [new_attach] opens besides the struct and what
      [close_attach] takes back: the router connection and the
      connection manager ([attach_res]) and the registration of
      [attach_report] with the report registry, an interface
      ([ReportRegistry], libgale's [gale_report_add] /
      [gale_report_remove]: a registration is listed until removed)
      with the list instance [list_registry]; a server's sequence of
      [new_attach] / [close_attach] calls is a [server_op] list run by
      [serve].
    - [Api]: a link driven through its whole interface: [api_call]
      names one call of the API or one reactor callback, [api_step]
      performs it, [api_reach] is the set of links a program builds
      from [new_link]; [link_wf] is the invariant of the output side.

    What the theorems show (claims C1-C40, in PROJECT.json order):
    - delivery: the frames written for a queue are handed to
      [on_message] in order, once each (C1, [Protocol]); the puff frame
      round trip (C2);
    - safety of the input machine: from a well-formed state the only
      reachable failed [assert] is the one of [ist_idle] (C3); it is
      reachable, from any peer, by an overlong fetch frame (C18);
    - queue: [queue_num]/[queue_mem] stay consistent modulo 2^64 (C4),
      and the queue refines a FIFO (C5); the output machine writes it
      oldest first (C15);
    - backpressure: a decoded puff, or an undrained watch/forget/
      complete/assert/retract text, is never overwritten (C6, C7); a
      publish value coalesces (C8);
    - frames: oversize and unknown frames are skipped, only the
      oversize one with a warning (C9); a frame too short for its
      fixed fields is skipped, with a warning for a message frame and
      silently for a content-id frame (C38); the version handshake
      clamps with a warning (C10) and gates [ltx_*] (C11); the input loop
      terminates within [3 * bytes + 3] steps (C12);
    - output: no [assert] fails (C13); complete notices come after
      assert notices (C14); fetch, supply and assert entries are never
      removed, so the loop never stops (C19); half-close happens only
      once everything is written (C16);
    - session: [link_set_fd] resets framing and keeps pending output
      (C17) except the message being written, which is lost (C21);
      [ltx_*] do not reschedule writing (C22); the assert category
      arrives with its length prefix as two characters (C20);
    - clock: the carry and borrow chains are 128-bit addition and
      subtraction (C23, C24); the comparison is the signed order (C25);
      [gale_time_now] is monotonic (C26) except when [frac_low] wraps
      (C27); packing round trip (C28); [timeval] round trip within four
      microseconds (C29);
    - one-shot maps: a watch entry is written once and removed (C30);
      a retract overrides a pending assert of the same key (C31);
    - debug: a [gale_diprintf] bracket restores the indentation and
      indents what it encloses (C32);
    - attach: the link's [on_empty] handler is registered exactly when
      [att->func] is set, in every reachable attach (C33), so the
      attach layer adds no failure of its own (C34); connecting
      re-subscribes and registers the will notice (C35);
    - composition: on every link a program builds, with 20-byte content
      ids, [on_write] never fails an [assert] (C36);
    - identity: [gale_add_id] adds its three fragments and nothing else
      (C37), and successive stamps increase
      ([gale_add_id_stamps_increase]);
    - server: [close_attach] undoes [new_attach]: it stops the
      connection manager and the router connection and leaves the
      report registry as it found it (C39); across any sequence of
      other attaches' openings and closings an attach's report is
      listed exactly while it is open ([report_listed_serve]);
    - content ids: [ltx_fetch] accepts an id of any length and the next
      [on_write] aborts on one that is not 20 bytes long (C40).

    Fuel.  The loops of [io.c] are functions with a fuel argument.  The
    input loop is given [S (input_measure ib)] steps (three per buffered
    byte plus the rank of the state), which [input_process_terminates]
    proves is always enough: each step consumes bytes or lowers the
    rank.  The output loop has no such bound: [resent_forever] shows it
    may never stop, so [on_write] runs it for a number of steps chosen by
    the environment (the room in the socket buffer).

    Not modelled: what the router connection and the connection manager
    do once open ([new_connect], [gale_make_server] and their closing
    are server and libgale code outside the repository: the model
    keeps only whether each is open), [subscr.h] (declarations of
    functions whose bodies are not in the repository), the text
    [strftime] and [localtime] make of a time (libc), what [vfprintf]
    makes of a format (each debug call's output is given as bytes), the
    level-7 debug lines of [link_put] and [dequeue] (they change no
    state of the link), and the overflow of the [int] counter
    [queue_num] (it would need 2^31 queued messages).  The [int]
    [indent] of [misc_debug.c] wraps at 32 bits in the model, where C
    leaves signed overflow undefined. *)

From Stdlib Require Export ZArith List Lia String.
From stdpp Require Export base list options.

Open Scope Z_scope.

(** ** Scope and notations of the development *)

Declare Scope gale_scope.
Delimit Scope gale_scope with gale.

(** A C [assert] that fails aborts the program.  The models return an
    [outcome]: [Done] with the result, or [Abort] naming the assertion. *)
Inductive outcome (A : Type) : Type :=
| Done (a : A)
| Abort (site : string).
Arguments Done {A} a.
Arguments Abort {A} site.

#[export] Instance outcome_ret : MRet outcome := fun _ a => Done a.
#[export] Instance outcome_bind : MBind outcome := fun _ _ f m =>
  match m with
  | Done a => f a
  | Abort s => Abort s
  end.

Definition c_assert {A} (site : string) (b : bool) (k : outcome A) : outcome A :=
  if b then k else Abort site.

Notation "'ASSERT' b 'AT' s ; k" := (c_assert s b k)
  (at level 10, b at level 100, s at level 0, k at level 200,
   format "'[v' 'ASSERT'  b  'AT'  s ; '/' k ']'") : gale_scope.

Definition is_done {A} (o : outcome A) : bool :=
  match o with Done _ => true | Abort _ => false end.

(** Sum of a Z-valued weight over a list (the queue's memory count). *)
Definition zsum {A} (f : A -> Z) (l : list A) : Z :=
  fold_right (fun x acc => f x + acc) 0 l.

(** ** Hint database and tactics *)

Create HintDb gale discriminated.
Create Rewrite HintDb gale_rw.

Ltac invc H := inversion H; subst; clear H.

(** Reduce record projections of setters without turning [Z.of_nat],
    [length] or list concatenation into their internal forms. *)
Ltac rsimpl := cbn -[Z.of_nat length app Z.add Z.sub Z.mul Z.modulo Z.div Z.pow].
Tactic Notation "rsimpl" "in" hyp(H) :=
  cbn -[Z.of_nat length app Z.add Z.sub Z.mul Z.modulo Z.div Z.pow] in H.

(** Turn the boolean comparisons of the hypotheses into propositions. *)
Ltac bool_to_prop :=
  repeat match goal with
  | H : (_ =? _)%Z = true |- _ => apply Z.eqb_eq in H
  | H : (_ =? _)%Z = false |- _ => apply Z.eqb_neq in H
  | H : (_ <? _)%Z = true |- _ => apply Z.ltb_lt in H
  | H : (_ <? _)%Z = false |- _ => apply Z.ltb_ge in H
  | H : (_ <=? _)%Z = true |- _ => apply Z.leb_le in H
  | H : (_ <=? _)%Z = false |- _ => apply Z.leb_gt in H
  | H : (_ >? _)%Z = true |- _ => rewrite Z.gtb_ltb in H
  | H : (_ >? _)%Z = false |- _ => rewrite Z.gtb_ltb in H
  | H : (_ =? _)%nat = true |- _ => apply Nat.eqb_eq in H
  | H : (_ =? _)%nat = false |- _ => apply Nat.eqb_neq in H
  | H : (_ <=? _)%nat = true |- _ => apply Nat.leb_le in H
  | H : (_ <=? _)%nat = false |- _ => apply Nat.leb_gt in H
  | H : (_ && _) = true |- _ => apply andb_prop in H as [? ?]
  | H : negb _ = false |- _ => apply negb_false_iff in H
  | H : negb _ = true |- _ => apply negb_true_iff in H
  end.

(** Decide the boolean comparisons of the goal that [lia] settles from
    the hypotheses; the others are left as two cases. *)
Ltac zbool_lia :=
  repeat match goal with
  | |- context [(?a >? ?b)%Z] => rewrite (Z.gtb_ltb a b)
  | |- context [(?a >=? ?b)%Z] => rewrite (Z.geb_leb a b)
  | |- context [(?a <? ?b)%Z] => destruct (Z.ltb_spec a b); try (exfalso; lia)
  | |- context [(?a <=? ?b)%Z] => destruct (Z.leb_spec a b); try (exfalso; lia)
  end.

(** Case on every [if] and [match] of the goal, solving easy branches. *)
Ltac gale_cases :=
  repeat (case_match; simplify_eq/=; try done).

(** ** Shared lemmas *)

Lemma c_assert_true {A} s (k : outcome A) : c_assert s true k = k.
Proof. reflexivity. Qed.

Lemma c_assert_false {A} s (k : outcome A) : c_assert s false k = Abort s.
Proof. reflexivity. Qed.

Lemma bind_done {A B} (a : A) (f : A -> outcome B) : (Done a ≫= f) = f a.
Proof. reflexivity. Qed.

Lemma bind_abort {A B} s (f : A -> outcome B) : (Abort s ≫= f) = Abort s.
Proof. reflexivity. Qed.

Lemma bind_is_done {A B} (m : outcome A) (f : A -> outcome B) :
  is_done (m ≫= f) = true -> exists a, m = Done a /\ is_done (f a) = true.
Proof. destruct m; simpl; [eauto | discriminate]. Qed.

Lemma bind_Done_inv {A B} (m : outcome A) (f : A -> outcome B) b :
  (m ≫= f) = Done b -> exists a, m = Done a /\ f a = Done b.
Proof. destruct m; simpl; [eauto|done]. Qed.

Lemma zsum_app {A} (f : A -> Z) l1 l2 : zsum f (l1 ++ l2) = zsum f l1 + zsum f l2.
Proof. induction l1; simpl; lia. Qed.

Lemma zsum_nonneg {A} (f : A -> Z) l :
  (forall x, 0 <= f x) -> 0 <= zsum f l.
Proof. intros Hf. induction l; simpl; [lia|]. specialize (Hf a). lia. Qed.

(** Wrap-around arithmetic of an unsigned counter of [w] bits. *)
Lemma mod_add_sub_cancel a b m : 0 < m -> ((a + b) mod m - b) mod m = a mod m.
Proof.
  intros Hm. rewrite Zminus_mod_idemp_l. f_equal. lia.
Qed.

Lemma mod_add_idemp_l a b m : 0 < m -> (a mod m + b) mod m = (a + b) mod m.
Proof. intros Hm. apply Zplus_mod_idemp_l. Qed.

Lemma take_drop_app {A} (l k : list A) n :
  length l = n -> take n (l ++ k) = l /\ drop n (l ++ k) = k.
Proof. intros <-. split; [apply take_app_length | apply drop_app_length]. Qed.

#[export] Hint Rewrite @c_assert_true @c_assert_false @bind_done @bind_abort : gale_rw.
#[export] Hint Rewrite @zsum_app : gale_rw.
#[export] Hint Resolve zsum_nonneg : gale.
