(* ===== verification/Wire.v ===== *)
(** * Wire: the packing primitives of libgale

    [gale_pack_u32], [gale_unpack_u32], [gale_pack_text_len],
    [gale_unpack_text_len], [gale_pack_text], [gale_pack_copy],
    [gale_unpack_copy] and the size functions live in libgale's packing
    module, which is not part of this repository: they are modelled from
    the specification (section 4.1).  Integers are 32 bits in network
    (big-endian) order, characters ([wch]) are 16 bits, unpacking is a
    partial function over a byte cursor that fails when too few bytes
    remain.  Bytes are [Init.Byte.byte]; the conversions to and from [Z]
    are coqutil's little-endian ones, reversed. *)

From S2P Require Import Prelude.
From coqutil Require Import Byte Word.LittleEndianList.
From Stdlib Require Import Ascii.

Abbreviation bytes := (list byte).

#[export] Instance byte_eq_dec : EqDecision byte.
Proof.
  intros x y. destruct (N.eq_dec (Byte.to_N x) (Byte.to_N y)) as [H|H]; [left|right].
  - apply (f_equal Byte.of_N) in H. rewrite !Byte.of_to_N in H. congruence.
  - congruence.
Defined.

(** A [gale_text] is a counted sequence of 16-bit characters. *)
Abbreviation text := (list Z).

(** [gale_u32_size()] and [gale_wch_size()]. *)
Definition gale_u32_size : Z := 4.
Definition gale_wch_size : Z := 2.

(** ** Integers *)

Definition gale_pack_u32 (u : Z) : bytes := rev (le_split 4 u).

Definition gale_unpack_u32 (d : bytes) : option (Z * bytes) :=
  if decide (4 <= length d)%nat
  then Some (le_combine (rev (take 4 d)), drop 4 d)
  else None.

(** ** Text *)

Definition pack_wch (c : Z) : bytes := rev (le_split 2 c).

Definition gale_pack_text_len (t : text) : bytes := concat (map pack_wch t).

Fixpoint gale_unpack_text_len (d : bytes) (n : nat) : option (text * bytes) :=
  match n with
  | O => Some ([], d)
  | S n' =>
      if decide (2 <= length d)%nat then
        match gale_unpack_text_len (drop 2 d) n' with
        | Some (t, r) => Some (le_combine (rev (take 2 d)) :: t, r)
        | None => None
        end
      else None
  end.

Definition gale_text_len_size (t : text) : Z := Z.of_nat (length t) * gale_wch_size.

Definition gale_text_size (t : text) : Z := gale_u32_size + gale_text_len_size t.

(** A length-prefixed text: the byte length, then the characters. *)
Definition gale_pack_text (t : text) : bytes :=
  gale_pack_u32 (gale_text_len_size t) ++ gale_pack_text_len t.

(** ** Raw bytes *)

Definition gale_copy_size (n : Z) : Z := n.

Definition gale_pack_copy (b : bytes) : bytes := b.

Definition gale_unpack_copy (d : bytes) (n : nat) : option (bytes * bytes) :=
  if decide (n <= length d)%nat then Some (take n d, drop n d) else None.

(** The character values a [wch] can hold. *)
Definition valid_text (t : text) : bool :=
  forallb (fun c => (0 <=? c) && (c <? 2 ^ 16)) t.

(** ** Lemmas *)

Lemma length_pack_u32 u : length (gale_pack_u32 u) = 4%nat.
Proof. unfold gale_pack_u32. by rewrite length_rev, length_le_split. Qed.

Lemma length_pack_wch c : length (pack_wch c) = 2%nat.
Proof. unfold pack_wch. by rewrite length_rev, length_le_split. Qed.

Lemma length_pack_text_len t : length (gale_pack_text_len t) = (2 * length t)%nat.
Proof.
  induction t as [|c t IH]; [done|].
  unfold gale_pack_text_len in *; cbn [map concat]. rewrite length_app, length_pack_wch, IH. simpl. lia.
Qed.

Lemma length_pack_text t : length (gale_pack_text t) = (4 + 2 * length t)%nat.
Proof. unfold gale_pack_text. by rewrite length_app, length_pack_u32, length_pack_text_len. Qed.

(** Decoding the encoding of a value of [n] bytes gives it back modulo
    [2^(8n)]; this is the shape shared by integers and characters. *)
Lemma be_roundtrip (n : nat) z (r : bytes) :
  le_combine (rev (take n (rev (le_split n z) ++ r))) = z mod 2 ^ (Z.of_nat n * 8)
  /\ drop n (rev (le_split n z) ++ r) = r.
Proof.
  assert (Hl : length (rev (le_split n z)) = n) by (by rewrite length_rev, length_le_split).
  destruct (take_drop_app _ r n Hl) as [-> ->].
  by rewrite rev_involutive, le_combine_split.
Qed.

Lemma gale_unpack_pack_u32 u r :
  gale_unpack_u32 (gale_pack_u32 u ++ r) = Some (u mod 2 ^ 32, r).
Proof.
  unfold gale_unpack_u32. rewrite decide_True by (rewrite length_app, length_pack_u32; lia).
  destruct (be_roundtrip 4 u r) as [H1 H2]. unfold gale_pack_u32. by rewrite H1, H2.
Qed.

Lemma gale_unpack_pack_u32_alone u :
  gale_unpack_u32 (gale_pack_u32 u) = Some (u mod 2 ^ 32, []).
Proof. rewrite <- (app_nil_r (gale_pack_u32 u)). apply gale_unpack_pack_u32. Qed.

Lemma gale_unpack_u32_Some d u r :
  gale_unpack_u32 d = Some (u, r) -> d = gale_pack_u32 u ++ r /\ 0 <= u < 2 ^ 32.
Proof.
  unfold gale_unpack_u32. case_decide as Hl; [|done]. intros [= <- <-].
  split.
  - unfold gale_pack_u32. rewrite split_le_combine'; [|by rewrite length_rev, length_take; lia].
    by rewrite rev_involutive, take_drop.
  - pose proof (le_combine_bound (rev (take 4 d))) as Hb.
    rewrite length_rev, length_take in Hb. replace (Nat.min 4 (length d)) with 4%nat in Hb by lia.
    exact Hb.
Qed.

Lemma gale_unpack_u32_None d : gale_unpack_u32 d = None <-> (length d < 4)%nat.
Proof. unfold gale_unpack_u32. case_decide; split; intros; try done; lia. Qed.

Lemma gale_unpack_pack_text_len t r :
  valid_text t = true ->
  gale_unpack_text_len (gale_pack_text_len t ++ r) (length t) = Some (t, r).
Proof.
  induction t as [|c t IH]; intros Hv; [done|].
  apply andb_prop in Hv as [Hc Hv]. apply andb_prop in Hc as [Hc1 Hc2].
  apply Z.leb_le in Hc1. apply Z.ltb_lt in Hc2.
  unfold gale_pack_text_len in *; cbn [map concat length gale_unpack_text_len].
  rewrite decide_True by (rewrite length_app, length_app, length_pack_wch; lia).
  rewrite <- app_assoc. destruct (be_roundtrip 2 c (concat (map pack_wch t) ++ r)) as [H1 H2].
  fold (pack_wch c) in H1, H2. rewrite H2, IH by done. rewrite H1.
  rewrite Z.mod_small by (simpl; lia). done.
Qed.

Lemma gale_unpack_text_len_Some d n t r :
  gale_unpack_text_len d n = Some (t, r) ->
  length t = n /\ r = drop (2 * n) d /\ (2 * n <= length d)%nat.
Proof.
  revert d t. induction n as [|n IH]; intros d t; simpl.
  - intros [= <- <-]. split_and!; [done|by rewrite drop_0|lia].
  - case_decide as Hl; [|done]. destruct (gale_unpack_text_len (drop 2 d) n) as [[t' r']|] eqn:E; [|done].
    intros [= <- <-]. destruct (IH _ _ E) as (Hlen & -> & Hle).
    rewrite length_drop in Hle. split_and!; [simpl; lia| |lia].
    rewrite drop_drop. f_equal. lia.
Qed.

(** Unpacking [n] characters succeeds exactly when [2n] bytes remain. *)
Lemma gale_unpack_text_len_enough d n :
  (2 * n <= length d)%nat -> exists t, gale_unpack_text_len d n = Some (t, drop (2 * n) d).
Proof.
  revert d. induction n as [|n IH]; intros d Hl; simpl.
  - exists []. by rewrite drop_0.
  - rewrite decide_True by lia. destruct (IH (drop 2 d)) as [t Ht]; [rewrite length_drop; lia|].
    rewrite Ht, drop_drop. eexists. do 3 f_equal. lia.
Qed.

Lemma gale_unpack_copy_all d : gale_unpack_copy d (length d) = Some (d, []).
Proof.
  unfold gale_unpack_copy. rewrite decide_True by lia. by rewrite take_ge, drop_ge.
Qed.

Lemma gale_unpack_copy_app d r : gale_unpack_copy (d ++ r) (length d) = Some (d, r).
Proof.
  unfold gale_unpack_copy. rewrite decide_True by (rewrite length_app; lia).
  by rewrite take_app_length, drop_app_length.
Qed.

#[export] Hint Rewrite length_pack_u32 length_pack_wch length_pack_text_len
  gale_unpack_pack_u32 gale_unpack_pack_u32_alone gale_unpack_copy_app : gale_rw.

(** Unpacking succeeds on any four bytes or more, with a 32-bit value. *)
Lemma gale_unpack_u32_ge4 d :
  (4 <= length d)%nat -> exists u, gale_unpack_u32 d = Some (u, drop 4 d) /\ 0 <= u < 2 ^ 32.
Proof.
  intros Hl. destruct (gale_unpack_u32 d) as [[u r]|] eqn:E.
  - pose proof (gale_unpack_u32_Some _ _ _ E) as [-> Hb].
    exists u. split; [|done]. by rewrite drop_app_length' by (by rewrite length_pack_u32).
  - apply gale_unpack_u32_None in E. lia.
Qed.

Lemma gale_unpack_u32_len4 d :
  length d = 4%nat -> exists u, gale_unpack_u32 d = Some (u, []) /\ 0 <= u < 2 ^ 32.
Proof.
  intros Hl. destruct (gale_unpack_u32_ge4 d) as (u & Hu & Hb); [lia|].
  exists u. by rewrite Hu, drop_ge by lia.
Qed.

(** A 32-bit word read as two characters: its high half, then its low half. *)
Lemma gale_pack_u32_as_text u :
  gale_pack_u32 u = gale_pack_text_len [Z.shiftr u 16 mod 2 ^ 16; u mod 2 ^ 16].
Proof.
  unfold gale_pack_u32, gale_pack_text_len, pack_wch. cbn [map concat]. rewrite app_nil_r, <- rev_app_distr.
  f_equal. rewrite <- !(le_split_mod _ 2).
  assert (E : forall n w, le_split (S n) w = byte.of_Z w :: le_split n (Z.shiftr w 8)) by reflexivity.
  rewrite !E. rewrite !Z.shiftr_shiftr by lia. reflexivity.
Qed.

(** ** Texts as raw data *)

(** [gale_text_as_data] and [gale_text_from_data] reinterpret the
    character array in memory: two bytes per [wch] in host order, taken
    here as little-endian. *)
(** [G_("...")] and [gale_text_from(NULL,s,-1)]: a C string as a
    [gale_text], one 16-bit code per (Latin-1) character. *)
Fixpoint G_ (s : string) : text :=
  match s with
  | EmptyString => []
  | String a s' => Z.of_nat (nat_of_ascii a) :: G_ s'
  end.

Definition gale_text_as_data (t : text) : bytes := concat (map (le_split 2) t).

Fixpoint gale_text_from_data (d : bytes) : text :=
  match d with
  | b0 :: b1 :: d' => le_combine [b0; b1] :: gale_text_from_data d'
  | _ => []
  end.

Lemma gale_text_from_as_data t :
  valid_text t = true -> gale_text_from_data (gale_text_as_data t) = t.
Proof.
  induction t as [|c t IH]; intros Hv; [done|].
  apply andb_prop in Hv as [Hc Hv]. apply andb_prop in Hc as [Hc1 Hc2].
  apply Z.leb_le in Hc1. apply Z.ltb_lt in Hc2.
  unfold gale_text_as_data in *. cbn [map concat].
  pose proof (length_le_split 2 c) as Hl.
  destruct (le_split 2 c) as [|b0 [|b1 [|? ?]]] eqn:E; try discriminate. simpl.
  rewrite IH by done. f_equal. rewrite <- E, le_combine_split. apply Z.mod_small. simpl. lia.
Qed.

Lemma length_text_as_data t : length (gale_text_as_data t) = (2 * length t)%nat.
Proof.
  induction t as [|c t IH]; [done|]. unfold gale_text_as_data in *. cbn [map concat].
  rewrite length_app, length_le_split, IH. simpl. lia.
Qed.
