(* ===== verification/GaleMap.v ===== *)
(** * GaleMap: the ordered map [struct gale_map]

    The link keeps its pending outbound facts of protocol version 1 in
    maps ([out_watch], [out_complete], [out_assert], [out_fetch],
    [out_supply]) created by [gale_make_map], updated by [gale_map_add]
    (adding [NULL] removes the key) and read by [gale_map_walk], which
    from the start ([NULL]) yields the least key.  The map module of
    libgale is not in this repository: it is modelled from the
    specification as an association list kept sorted by the byte order
    of the keys (the order of [gale_data] comparison: bytewise, a prefix
    first).  The values are the tagged markers of the link ([St_yes],
    [St_no], or a payload), the three-variant value of the design notes
    that replaces the sentinel pointers [st_yes] and [st_no]. *)

From S2P Require Import Prelude Wire.
From Stdlib Require Import Sorted.

(** The values stored in the link's maps: [st_yes], [st_no], or a
    pointer to supplied data. *)
Inductive mark :=
| St_yes
| St_no
| St_data (d : bytes).

#[export] Instance mark_eq_dec : EqDecision mark.
Proof. solve_decision. Defined.

(** ** Key order *)

Fixpoint bytes_compare (a b : bytes) : comparison :=
  match a, b with
  | [], [] => Eq
  | [], _ :: _ => Lt
  | _ :: _, [] => Gt
  | x :: a', y :: b' =>
      match N.compare (Byte.to_N x) (Byte.to_N y) with
      | Eq => bytes_compare a' b'
      | c => c
      end
  end.

Definition key_lt {V} (p q : bytes * V) : Prop := bytes_compare p.1 q.1 = Lt.

Lemma bytes_compare_eq a b : bytes_compare a b = Eq <-> a = b.
Proof.
  revert b. induction a as [|x a IH]; intros [|y b]; simpl; try (split; congruence).
  destruct (N.compare_spec (Byte.to_N x) (Byte.to_N y)) as [Hxy|Hxy|Hxy].
  - rewrite IH. split; [intros ->|intros [= _ ->]]; [|done].
    f_equal. apply (f_equal Byte.of_N) in Hxy. rewrite !Byte.of_to_N in Hxy. congruence.
  - split; [done|]. intros [= -> _]. lia.
  - split; [done|]. intros [= -> _]. lia.
Qed.

Lemma bytes_compare_refl a : bytes_compare a a = Eq.
Proof. by apply bytes_compare_eq. Qed.

Lemma bytes_compare_antisym a b : bytes_compare b a = CompOpp (bytes_compare a b).
Proof.
  revert b. induction a as [|x a IH]; intros [|y b]; simpl; try done.
  rewrite (N.compare_antisym (Byte.to_N x)).
  destruct (N.compare (Byte.to_N x) (Byte.to_N y)); simpl; auto.
Qed.

Lemma bytes_compare_lt_trans a b c :
  bytes_compare a b = Lt -> bytes_compare b c = Lt -> bytes_compare a c = Lt.
Proof.
  revert b c. induction a as [|x a IH]; intros [|y b] [|z c]; simpl; try done.
  destruct (N.compare_spec (Byte.to_N x) (Byte.to_N y)) as [Hxy|Hxy|Hxy];
  destruct (N.compare_spec (Byte.to_N y) (Byte.to_N z)) as [Hyz|Hyz|Hyz];
  destruct (N.compare_spec (Byte.to_N x) (Byte.to_N z)) as [Hxz|Hxz|Hxz];
  intros; try done; try lia; eauto.
Qed.

(** ** The map *)

Section GaleMap.
Context {V : Type}.

Definition gale_map := list (bytes * V).

Definition gale_make_map : gale_map := [].

(** [gale_map_add(map,key,data)]: [None] is the [NULL] data, which
    removes the key. *)
Fixpoint gale_map_add (m : gale_map) (k : bytes) (v : option V) : gale_map :=
  match m with
  | [] => match v with Some x => [(k, x)] | None => [] end
  | (k', x') :: m' =>
      match bytes_compare k k' with
      | Lt => match v with Some x => (k, x) :: m | None => m end
      | Eq => match v with Some x => (k, x) :: m' | None => m' end
      | Gt => (k', x') :: gale_map_add m' k v
      end
  end.

Fixpoint gale_map_find (m : gale_map) (k : bytes) : option V :=
  match m with
  | [] => None
  | (k', x) :: m' =>
      match bytes_compare k k' with
      | Eq => Some x
      | _ => gale_map_find m' k
      end
  end.

(** [gale_map_walk(map,after,&key,&data)]: the first entry whose key is
    greater than [after], or the least entry when [after] is [NULL]. *)
Fixpoint gale_map_walk (m : gale_map) (after : option bytes) : option (bytes * V) :=
  match m with
  | [] => None
  | (k, x) :: m' =>
      match after with
      | None => Some (k, x)
      | Some a => if decide (bytes_compare a k = Lt) then Some (k, x) else gale_map_walk m' after
      end
  end.

Definition map_sorted (m : gale_map) : Prop := Sorted key_lt m.

Definition map_empty (m : gale_map) : bool :=
  match m with [] => true | _ => false end.

(** ** Laws *)

Lemma key_lt_trans : Transitive (@key_lt V).
Proof. intros [a ?] [b ?] [c ?]. unfold key_lt; simpl. apply bytes_compare_lt_trans. Qed.

Lemma map_sorted_strongly m : map_sorted m -> StronglySorted key_lt m.
Proof. apply Sorted_StronglySorted, key_lt_trans. Qed.

(** A key below the head of a sorted map is absent from it. *)
Lemma find_below m k k' x :
  map_sorted ((k', x) :: m) -> bytes_compare k k' = Lt -> gale_map_find ((k', x) :: m) k = None.
Proof.
  intros Hs Hlt. apply map_sorted_strongly in Hs.
  revert k' x Hs Hlt. induction m as [|[k2 x2] m IH]; intros k' x Hs Hlt; simpl; rewrite Hlt; [done|].
  inversion Hs as [|? ? Hs' Hall]; subst. inversion Hall as [|? ? H2 _]; subst.
  unfold key_lt in H2; simpl in H2.
  change (gale_map_find ((k2, x2) :: m) k = None).
  apply IH; [done|]. eapply bytes_compare_lt_trans; eauto.
Qed.

Lemma gale_map_find_cons m k' x j :
  gale_map_find ((k', x) :: m) j = if decide (j = k') then Some x else gale_map_find m j.
Proof.
  simpl. destruct (bytes_compare j k') eqn:E; case_decide as Hj; subst;
    rewrite ?bytes_compare_refl in E; try done; apply bytes_compare_eq in E; done.
Qed.

(** The head key of a sorted map does not occur again in its tail. *)
Lemma find_tail_head m k x : map_sorted ((k, x) :: m) -> gale_map_find m k = None.
Proof.
  intros Hs. destruct m as [|[k2 x2] m]; [done|].
  inversion Hs as [|? ? Hs' Hhd]; subst. inversion Hhd; subst. by apply find_below.
Qed.

Lemma gale_map_find_add m k j v :
  map_sorted m ->
  gale_map_find (gale_map_add m k v) j = if decide (j = k) then v else gale_map_find m j.
Proof.
  intros Hs. induction m as [|[k' x'] m IH]; cbn [gale_map_add].
  - destruct v; [rewrite gale_map_find_cons|]; by case_decide.
  - destruct (bytes_compare k k') eqn:Ekk'.
    + apply bytes_compare_eq in Ekk' as <-.
      pose proof (find_tail_head m k x' Hs).
      destruct v; rewrite ?gale_map_find_cons; repeat case_decide; subst; done.
    + destruct (decide (j = k)) as [->|Hjk].
      * destruct v; [by rewrite gale_map_find_cons, decide_True|]. by apply find_below.
      * destruct v; [|done]. by rewrite gale_map_find_cons, decide_False.
    + inversion Hs; subst. rewrite !gale_map_find_cons, IH by done.
      destruct (decide (j = k)) as [->|Hjk]; [|done].
      rewrite decide_False; [done|]. intros ->. by rewrite bytes_compare_refl in Ekk'.
Qed.

Lemma gale_map_add_hd m k v k' (x' : V) :
  map_sorted m -> HdRel key_lt (k', x') m -> bytes_compare k' k = Lt ->
  HdRel key_lt (k', x') (gale_map_add m k v).
Proof.
  intros Hs Hhd Hk. destruct m as [|[k2 x2] m]; simpl.
  - destruct v; constructor; done.
  - inversion Hhd as [|? ? H2]; subst. unfold key_lt in H2; simpl in H2.
    destruct (bytes_compare k k2), v; try (constructor; done).
    inversion Hs as [|? ? Hs' Hhd2]; subst. destruct m as [|[k3 x3] m]; constructor.
    inversion Hhd2 as [|? ? H3]; subst. unfold key_lt in *; simpl in *.
    eapply bytes_compare_lt_trans; eauto.
Qed.

Lemma gale_map_add_sorted m k v : map_sorted m -> map_sorted (gale_map_add m k v).
Proof.
  unfold map_sorted. induction m as [|[k' x'] m IH]; intros Hs; simpl.
  - destruct v; repeat constructor.
  - inversion Hs as [|? ? Hs' Hhd]; subst.
    destruct (bytes_compare k k') eqn:E.
    + apply bytes_compare_eq in E as <-.
      destruct v; [|done]. constructor; [done|].
      inversion Hhd; constructor. unfold key_lt in *; done.
    + destruct v; [|done]. constructor; [done|]. constructor. done.
    + constructor; [by apply IH|]. apply gale_map_add_hd; [done|done|].
      by rewrite bytes_compare_antisym, E.
Qed.

Lemma gale_map_walk_first_None m : gale_map_walk m None = None <-> m = [].
Proof. destruct m as [|[??]?]; simpl; split; congruence. Qed.

Lemma gale_map_walk_first_find m k x :
  gale_map_walk m None = Some (k, x) -> gale_map_find m k = Some x.
Proof. destruct m as [|[k' x'] m]; simpl; [done|]. intros [= -> ->]. by rewrite bytes_compare_refl. Qed.

(** The first entry of a walk from the start carries the least key. *)
Lemma gale_map_walk_first_least m k x j y :
  map_sorted m -> gale_map_walk m None = Some (k, x) -> gale_map_find m j = Some y ->
  j = k \/ bytes_compare k j = Lt.
Proof.
  intros Hs Hw Hf. destruct m as [|[k' x'] m]; [done|]. simpl in Hw. injection Hw as -> ->.
  destruct (bytes_compare j k) eqn:E.
  - left. by apply bytes_compare_eq.
  - by rewrite (find_below m j k x) in Hf.
  - right. by rewrite bytes_compare_antisym, E.
Qed.

Lemma gale_map_add_nonempty m k x : gale_map_add m k (Some x) <> [].
Proof. destruct m as [|[k' x'] m]; simpl; [done|]. by case_match. Qed.

(** Removing a present key shortens the map by one. *)
Lemma gale_map_add_remove_length m k x :
  map_sorted m -> gale_map_find m k = Some x ->
  length (gale_map_add m k None) = (length m - 1)%nat.
Proof.
  induction m as [|[k' x'] m IH]; intros Hs Hf; [done|].
  cbn [gale_map_add]. destruct (bytes_compare k k') eqn:E.
  - simpl. lia.
  - by rewrite find_below in Hf.
  - inversion Hs; subst. rewrite gale_map_find_cons, decide_False in Hf
      by (intros ->; by rewrite bytes_compare_refl in E).
    simpl. rewrite IH by done. destruct m; [done|simpl; lia].
Qed.

Lemma gale_map_add_absent m k :
  gale_map_find m k = None -> map_sorted m -> gale_map_add m k None = m.
Proof.
  intros Hf Hs. induction m as [|[k' x'] m IH]; simpl in *; [done|].
  destruct (bytes_compare k k') eqn:E; [done|done|].
  inversion Hs; subst. f_equal. by apply IH.
Qed.

(** Every entry of the map after [gale_map_add] is an old entry or the
    added one. *)
Lemma gale_map_add_Forall (P : bytes * V -> Prop) m k o :
  Forall P m -> (forall v, o = Some v -> P (k, v)) -> Forall P (gale_map_add m k o).
Proof.
  intros Hm Ho. induction m as [|[k' x'] m IH]; simpl.
  - destruct o; [constructor; [by apply Ho|constructor]|constructor].
  - inversion Hm; subst. destruct (bytes_compare k k'), o; try (constructor; [by apply Ho|]); auto.
Qed.

Lemma gale_map_walk_Forall (P : bytes * V -> Prop) m after k v :
  Forall P m -> gale_map_walk m after = Some (k, v) -> P (k, v).
Proof.
  intros Hm. induction Hm as [|[k' x'] m Hx Hm IH]; simpl; [done|].
  destruct after; [case_decide; [intros [= <- <-]; done|done]|intros [= <- <-]; done].
Qed.

End GaleMap.

Arguments gale_map : clear implicits.
#[export] Hint Resolve gale_map_add_sorted : gale.

(** ** The interface the link relies on *)

(** What [core_link.c] needs of a map of pending facts: adding (or, with
    [None], removing) a key changes the value found at that key only,
    and the first entry of a walk is present and carries the least key.
    [om_wf] is the representation invariant the operations keep. *)
Class OrderedMap (M : Type -> Type) := {
  om_empty {V} : M V;
  om_add {V} : M V -> bytes -> option V -> M V;
  om_find {V} : M V -> bytes -> option V;
  om_first {V} : M V -> option (bytes * V);
  om_wf {V} : M V -> Prop;
  om_empty_wf {V} : om_wf (@om_empty V);
  om_find_empty {V} k : om_find (@om_empty V) k = None;
  om_add_wf {V} (m : M V) k v : om_wf m -> om_wf (om_add m k v);
  om_find_add {V} (m : M V) k j v :
    om_wf m -> om_find (om_add m k v) j = if decide (j = k) then v else om_find m j;
  om_first_find {V} (m : M V) k x : om_first m = Some (k, x) -> om_find m k = Some x;
  om_first_least {V} (m : M V) k x j y :
    om_wf m -> om_first m = Some (k, x) -> om_find m j = Some y -> j = k \/ bytes_compare k j = Lt;
  om_first_None {V} (m : M V) : om_first m = None -> forall k, om_find m k = None
}.

(** The sorted association list implements the interface. *)
#[export] Program Instance gale_map_ordered : OrderedMap gale_map := {|
  om_empty V := gale_make_map;
  om_add V := gale_map_add;
  om_find V := gale_map_find;
  om_first V m := gale_map_walk m None;
  om_wf V := map_sorted
|}.
Next Obligation. constructor. Qed.
Next Obligation. done. Qed.
Next Obligation. intros. by apply gale_map_add_sorted. Qed.
Next Obligation. intros. by apply gale_map_find_add. Qed.
Next Obligation. intros. by apply gale_map_walk_first_find. Qed.
Next Obligation. intros. by eapply gale_map_walk_first_least. Qed.
Next Obligation. intros V m H k. apply gale_map_walk_first_None in H as ->. done. Qed.

(** ** Clients of the interface *)

Section Clients.
Context `{OrderedMap M} {V : Type}.
Implicit Types (m : M V) (k j : bytes) (v w : option V).

(** A later [gale_map_add] of the same key before the entry is read
    overwrites it: the last writer wins. *)
Lemma om_last_writer_wins m k v w : om_wf m -> om_find (om_add (om_add m k v) k w) k = w.
Proof. intros Hm. rewrite om_find_add by (by apply om_add_wf). by rewrite decide_True. Qed.

Lemma om_find_add_other m k j v : om_wf m -> j <> k -> om_find (om_add m k v) j = om_find m j.
Proof. intros Hm Hj. rewrite om_find_add by done. by rewrite decide_False. Qed.

(** Transmitting the first entry and removing it, as [ofn_idle] does
    for the watch and complete maps, leaves every other entry alone. *)
Lemma om_remove_first m k x :
  om_wf m -> om_first m = Some (k, x) ->
  om_find m k = Some x /\ om_find (om_add m k None) k = None
  /\ forall j, j <> k -> om_find (om_add m k None) j = om_find m j.
Proof.
  intros Hm Hf. split; [by eapply om_first_find|]. split.
  - rewrite om_find_add by done. by rewrite decide_True.
  - intros j Hj. by apply om_find_add_other.
Qed.
End Clients.
