(* ===== verification/GaleTime.v ===== *)
(** * GaleTime: the 128-bit clock of [src/libgale/misc_time.c]

    A [struct gale_time] is four 32-bit fields: [sec_high] (an [int]),
    [sec_low], [frac_high], [frac_low] (unsigned); read together they
    are a signed 128-bit count of 2^-64 seconds.  The fields are kept at
    their width: an [int] as a [Z] in [[-2^31, 2^31)], a [u32] in
    [[0, 2^32)], every C assignment written out with its wrap-around.
    [gale_time_now] reads a global [last]: it is passed and returned
    explicitly, with the [struct timeval] that [gettimeofday] gave.
    [gale_time_format] computes the Swatch beat of the time itself and
    leaves the text to [strftime], a section variable. *)

From S2P Require Import Prelude Wire.

Definition u32 (z : Z) : Z := z mod 2 ^ 32.
(** Conversion of an unsigned value to [int] (two's complement). *)
Definition s32 (z : Z) : Z := (z + 2 ^ 31) mod 2 ^ 32 - 2 ^ 31.

Record gale_time := mk_time {
  sec_high : Z;
  sec_low : Z;
  frac_high : Z;
  frac_low : Z
}.

Record timeval := mk_timeval { tv_sec : Z; tv_usec : Z }.

Definition gale_time_zero : gale_time := mk_time (-2147483647 - 1) 0 0 0.

Definition gale_time_forever : gale_time :=
  mk_time 2147483647 4294967295 4294967295 4294967295.

(** [gale_time_compare]: the chain of early returns of the source. *)
Definition gale_time_compare (one two : gale_time) : Z :=
  if sec_high one <? sec_high two then -1 else
  if sec_high one >? sec_high two then 1 else
  if sec_low one <? sec_low two then -1 else
  if sec_low one >? sec_low two then 1 else
  if frac_high one <? frac_high two then -1 else
  if frac_high one >? frac_high two then 1 else
  if frac_low one <? frac_low two then -1 else
  if frac_low one >? frac_low two then 1 else 0.

(** [subtract(one,two,&borrow)]: returns the result and the new borrow. *)
Definition subtract (one two borrow : Z) : Z * Z :=
  let result := u32 (one - two - borrow) in
  (result, if (result >? one) || (negb (two =? 0) && (result =? one)) then 1 else 0).

Definition gale_time_diff (one two : gale_time) : gale_time :=
  let '(fl, b1) := subtract (frac_low one) (frac_low two) 0 in
  let '(fh, b2) := subtract (frac_high one) (frac_high two) b1 in
  let '(sl, b3) := subtract (sec_low one) (sec_low two) b2 in
  let '(sh, _) := subtract (u32 (sec_high one)) (u32 (sec_high two)) b3 in
  mk_time (s32 sh) sl fh fl.

(** [add(one,two,&carry)]. *)
Definition add (one two carry : Z) : Z * Z :=
  let result := u32 (one + two + carry) in
  (result, if (result <? one) || (negb (two =? 0) && (result =? one)) then 1 else 0).

Definition gale_time_add (one two : gale_time) : gale_time :=
  let '(fl, c1) := add (frac_low one) (frac_low two) 0 in
  let '(fh, c2) := add (frac_high one) (frac_high two) c1 in
  let '(sl, c3) := add (sec_low one) (sec_low two) c2 in
  let '(sh, _) := add (u32 (sec_high one)) (u32 (sec_high two)) c3 in
  mk_time (s32 sh) sl fh fl.

(** [gale_time_from]: microseconds become a 32-bit binary fraction.
    The arithmetic is that of [suseconds_t] (signed, so [/] truncates
    toward zero); the stores into the [u32] fields wrap. *)
Definition gale_time_from (tv : timeval) : gale_time :=
  mk_time 0 (u32 (tv_sec tv)) (u32 (Z.quot (tv_usec tv * 4096) 15625 * 16384)) 0.

(** [gale_time_to]: the store of the warning branch is overwritten by
    the unconditional store that follows it. *)
Definition gale_time_to (time : gale_time) : timeval :=
  let tv := if negb (sec_high time =? 0) then mk_timeval 4294967295 0 else mk_timeval 0 0 in
  let tv := mk_timeval (sec_low time) (tv_usec tv) in
  mk_timeval (tv_sec tv) (u32 (frac_high time / 16384 * 15625) / 4096).

(** The initial value of the static [last] of [gale_time_now]. *)
Definition gale_time_last0 : gale_time := mk_time 0 0 0 0.

(** [gale_time_now]: [last] is the static of the source. *)
Definition gale_time_now (last : gale_time) (tv : timeval) : gale_time * gale_time :=
  let time := gale_time_from tv in
  if gale_time_compare last time <? 0 then (time, time)
  else
    let last' := mk_time (sec_high last) (sec_low last) (frac_high last) (u32 (frac_low last + 1)) in
    (last', last').

(** [gale_time_seconds]: only the seconds are assigned; the fraction
    fields of the local are left as they were on the stack, passed here
    as [junk_fh] and [junk_fl]. *)
Definition gale_time_seconds (sec junk_fh junk_fl : Z) : gale_time :=
  if sec <? 0 then mk_time (-1) (u32 sec) junk_fh junk_fl
  else mk_time 0 sec junk_fh junk_fl.

Definition gale_pack_time (time : gale_time) : bytes :=
  gale_pack_u32 (sec_high time) ++ gale_pack_u32 (sec_low time)
  ++ gale_pack_u32 (frac_high time) ++ gale_pack_u32 (frac_low time).

(** [gale_unpack_time]: [sec_high] is unpacked through a [u32 *]. *)
Definition gale_unpack_time (d : bytes) : option (gale_time * bytes) :=
  match gale_unpack_u32 d with
  | None => None
  | Some (sh, d1) =>
    match gale_unpack_u32 d1 with
    | None => None
    | Some (sl, d2) =>
      match gale_unpack_u32 d2 with
      | None => None
      | Some (fh, d3) =>
        match gale_unpack_u32 d3 with
        | None => None
        | Some (fl, d4) => Some (mk_time (s32 sh) sl fh fl, d4)
        end
      end
    end
  end.

(** ** Formatting *)

(** The hour, minute and second of the day that [gmtime] puts in
    [tm_hour], [tm_min] and [tm_sec]: POSIX days have 86400 seconds. *)
Definition gmtime_hms (t : Z) : Z * Z * Z :=
  let d := t mod 86400 in (d / 3600, d mod 3600 / 60, d mod 60).

(** [beat = 1000 * (3600*tm->tm_hour + 60*tm->tm_min + tm->tm_sec) / 864],
    hundredths of a Swatch beat, in [int]. *)
Definition swatch_beat (t : Z) : Z :=
  let '(h, m, s) := gmtime_hms t in Z.quot (1000 * (3600 * h + 60 * m + s)) 864.

Section Format.
(** [gale_text_replace], [gale_text_from_number] (libgale) and
    [strftime] of [localtime] (libc) are not in this repository. *)
Context (gale_text_replace : text -> text -> text -> text)
        (gale_text_from_number : Z -> Z -> Z -> text)
        (strftime_localtime : text -> Z -> text).

(** [gale_time_format], with the value of [GALE_TIME_FORMAT] given:
    ["%."] in the format stands for the Swatch beat of the time. *)
Definition gale_time_format (time_format : text) (time : gale_time) : text :=
  let format := if (length time_format =? 0)%nat then G_ "%Y-%m-%d %H:%M:%S" else time_format in
  let tv := gale_time_to time in
  let sec := tv_sec tv + 3600 in
  let format := gale_text_replace format (G_ "%.") (gale_text_from_number (Z.quot (swatch_beat sec) 100) 10 (-3)) in
  strftime_localtime format (sec - 3600).

End Format.

(** ** Reading a time as a number *)

Definition time_wf (t : gale_time) : Prop :=
  -2 ^ 31 <= sec_high t < 2 ^ 31 /\ 0 <= sec_low t < 2 ^ 32
  /\ 0 <= frac_high t < 2 ^ 32 /\ 0 <= frac_low t < 2 ^ 32.

(** The signed 128-bit value of a time. *)
Definition time_value (t : gale_time) : Z :=
  sec_high t * 2 ^ 96 + sec_low t * 2 ^ 64 + frac_high t * 2 ^ 32 + frac_low t.

(** The same 128 bits read as an unsigned number. *)
Definition time_u128 (t : gale_time) : Z :=
  u32 (sec_high t) * 2 ^ 96 + sec_low t * 2 ^ 64 + frac_high t * 2 ^ 32 + frac_low t.

(** ** Machine integers *)

Lemma u32_small z : 0 <= z < 2 ^ 32 -> u32 z = z.
Proof. intros. unfold u32. apply Z.mod_small. lia. Qed.

Lemma u32_range z : 0 <= u32 z < 2 ^ 32.
Proof. unfold u32. apply Z.mod_pos_bound. lia. Qed.

(** A sum of two words and a carry wraps at most once. *)
Lemma u32_once z : 0 <= z < 2 * 2 ^ 32 -> u32 z = if z <? 2 ^ 32 then z else z - 2 ^ 32.
Proof.
  intros Hz. unfold u32. destruct (Z.ltb_spec z (2 ^ 32)).
  - apply Z.mod_small. lia.
  - rewrite <- (Z.mod_add _ (-1)) by lia. apply Z.mod_small. lia.
Qed.

Lemma u32_once_neg z : - 2 ^ 32 <= z < 2 ^ 32 -> u32 z = if z <? 0 then z + 2 ^ 32 else z.
Proof.
  intros Hz. unfold u32. destruct (Z.ltb_spec z 0).
  - rewrite <- (Z.mod_add _ 1) by lia. apply Z.mod_small. lia.
  - apply Z.mod_small. lia.
Qed.

Lemma s32_u32 z : - 2 ^ 31 <= z < 2 ^ 31 -> s32 (u32 z) = z.
Proof.
  intros Hz. unfold s32, u32. rewrite Zplus_mod_idemp_l. rewrite Z.mod_small by lia. lia.
Qed.

Lemma u32_s32 z : 0 <= z < 2 ^ 32 -> u32 (s32 z) = z.
Proof.
  intros Hz. unfold s32, u32. rewrite Zminus_mod_idemp_l.
  replace (z + 2 ^ 31 - 2 ^ 31) with z by lia. apply Z.mod_small. lia.
Qed.

Lemma s32_range z : - 2 ^ 31 <= s32 z < 2 ^ 31.
Proof. unfold s32. pose proof (Z.mod_pos_bound (z + 2 ^ 31) (2 ^ 32)). lia. Qed.

(** [add] computes one digit of a base-[2^32] sum and its carry. *)
Lemma add_spec one two carry :
  0 <= one < 2 ^ 32 -> 0 <= two < 2 ^ 32 -> 0 <= carry <= 1 ->
  0 <= (add one two carry).1 < 2 ^ 32 /\ 0 <= (add one two carry).2 <= 1
  /\ (add one two carry).1 + (add one two carry).2 * 2 ^ 32 = one + two + carry.
Proof.
  intros H1 H2 Hc. unfold add. cbn [fst snd].
  rewrite u32_once by lia. destruct (Z.ltb_spec (one + two + carry) (2 ^ 32));
    bool_to_prop; repeat case_match; bool_to_prop; lia.
Qed.

(** [subtract] computes one digit of a base-[2^32] difference and its borrow. *)
Lemma subtract_spec one two borrow :
  0 <= one < 2 ^ 32 -> 0 <= two < 2 ^ 32 -> 0 <= borrow <= 1 ->
  0 <= (subtract one two borrow).1 < 2 ^ 32 /\ 0 <= (subtract one two borrow).2 <= 1
  /\ (subtract one two borrow).1 - (subtract one two borrow).2 * 2 ^ 32 = one - two - borrow.
Proof.
  intros H1 H2 Hc. unfold subtract. cbn [fst snd].
  rewrite u32_once_neg by lia. destruct (Z.ltb_spec (one - two - borrow) 0);
    bool_to_prop; repeat case_match; bool_to_prop; lia.
Qed.

(** ** Comparison, sums and differences *)

Ltac time_wf_lia := unfold time_wf in *; lia.

(** [gale_time_compare] is the sign of the difference of the signed
    128-bit values. *)
Lemma gale_time_compare_sgn a b :
  time_wf a -> time_wf b -> gale_time_compare a b = Z.sgn (time_value a - time_value b).
Proof.
  intros Ha Hb. unfold gale_time_compare, time_value.
  repeat case_match; bool_to_prop;
    first [ apply eq_sym, Z.sgn_neg; time_wf_lia | apply eq_sym, Z.sgn_pos; time_wf_lia
          | apply eq_sym, Z.sgn_null; time_wf_lia ].
Qed.

Lemma time_u128_value t :
  time_wf t -> time_u128 t = time_value t + (if sec_high t <? 0 then 2 ^ 128 else 0).
Proof.
  intros Ht. unfold time_u128, time_value. rewrite u32_once_neg by time_wf_lia.
  case_match; lia.
Qed.

(** The signed value from the unsigned one: the top bit is the sign. *)
Lemma time_value_u128 t :
  time_wf t -> time_value t = time_u128 t - (if time_u128 t <? 2 ^ 127 then 0 else 2 ^ 128).
Proof.
  intros Ht. rewrite time_u128_value by done. unfold time_value.
  repeat case_match; bool_to_prop; time_wf_lia.
Qed.

(** A 128-bit word read as a signed number is the signed number it
    stands for, when that number is in range. *)
Lemma signed_of_mod s :
  - 2 ^ 127 <= s < 2 ^ 127 ->
  s mod 2 ^ 128 - (if s mod 2 ^ 128 <? 2 ^ 127 then 0 else 2 ^ 128) = s.
Proof.
  intros Hs. destruct (Z.ltb_spec s 0).
  - rewrite <- (Z.mod_add _ 1), Z.mod_small by lia. case_match; bool_to_prop; lia.
  - rewrite Z.mod_small by lia. case_match; bool_to_prop; lia.
Qed.

Lemma mod_128_digits x c : 0 <= x < 2 ^ 128 -> (x + c * 2 ^ 128) mod 2 ^ 128 = x.
Proof. intros Hx. rewrite Z.mod_add by lia. by apply Z.mod_small. Qed.

Theorem gale_time_add_u128 a b :
  time_wf a -> time_wf b ->
  time_wf (gale_time_add a b) /\ time_u128 (gale_time_add a b) = (time_u128 a + time_u128 b) mod 2 ^ 128.
Proof.
  intros Ha Hb. unfold gale_time_add.
  destruct (add_spec (frac_low a) (frac_low b) 0) as (Hr1 & Hc1 & He1); [time_wf_lia..|].
  destruct (add (frac_low a) (frac_low b) 0) as [fl c1]; cbn [fst snd] in *.
  destruct (add_spec (frac_high a) (frac_high b) c1) as (Hr2 & Hc2 & He2); [time_wf_lia..|].
  destruct (add (frac_high a) (frac_high b) c1) as [fh c2]; cbn [fst snd] in *.
  destruct (add_spec (sec_low a) (sec_low b) c2) as (Hr3 & Hc3 & He3); [time_wf_lia..|].
  destruct (add (sec_low a) (sec_low b) c2) as [sl c3]; cbn [fst snd] in *.
  destruct (add_spec (u32 (sec_high a)) (u32 (sec_high b)) c3) as (Hr4 & Hc4 & He4);
    [apply u32_range | apply u32_range | lia |].
  destruct (add (u32 (sec_high a)) (u32 (sec_high b)) c3) as [sh c4]; cbn [fst snd] in *.
  split; [pose proof (s32_range sh); unfold time_wf; cbn; lia|].
  unfold time_u128 at 1; cbn [sec_high sec_low frac_high frac_low]. rewrite u32_s32 by lia.
  unfold time_u128.
  match goal with |- _ = ?x mod _ =>
    replace x with ((sh * 2 ^ 96 + sl * 2 ^ 64 + fh * 2 ^ 32 + fl) + c4 * 2 ^ 128) by lia end.
  rewrite mod_128_digits; lia.
Qed.

Theorem gale_time_diff_u128 a b :
  time_wf a -> time_wf b ->
  time_wf (gale_time_diff a b) /\ time_u128 (gale_time_diff a b) = (time_u128 a - time_u128 b) mod 2 ^ 128.
Proof.
  intros Ha Hb. unfold gale_time_diff.
  destruct (subtract_spec (frac_low a) (frac_low b) 0) as (Hr1 & Hc1 & He1); [time_wf_lia..|].
  destruct (subtract (frac_low a) (frac_low b) 0) as [fl c1]; cbn [fst snd] in *.
  destruct (subtract_spec (frac_high a) (frac_high b) c1) as (Hr2 & Hc2 & He2); [time_wf_lia..|].
  destruct (subtract (frac_high a) (frac_high b) c1) as [fh c2]; cbn [fst snd] in *.
  destruct (subtract_spec (sec_low a) (sec_low b) c2) as (Hr3 & Hc3 & He3); [time_wf_lia..|].
  destruct (subtract (sec_low a) (sec_low b) c2) as [sl c3]; cbn [fst snd] in *.
  destruct (subtract_spec (u32 (sec_high a)) (u32 (sec_high b)) c3) as (Hr4 & Hc4 & He4);
    [apply u32_range | apply u32_range | lia |].
  destruct (subtract (u32 (sec_high a)) (u32 (sec_high b)) c3) as [sh c4]; cbn [fst snd] in *.
  split; [pose proof (s32_range sh); unfold time_wf; cbn; lia|].
  unfold time_u128 at 1; cbn [sec_high sec_low frac_high frac_low]. rewrite u32_s32 by lia.
  unfold time_u128.
  match goal with |- _ = ?x mod _ =>
    replace x with ((sh * 2 ^ 96 + sl * 2 ^ 64 + fh * 2 ^ 32 + fl) + (- c4) * 2 ^ 128) by lia end.
  rewrite mod_128_digits; lia.
Qed.

Lemma time_u128_shift t :
  time_wf t -> exists k, time_u128 t = time_value t + k * 2 ^ 128.
Proof.
  intros Ht. rewrite time_u128_value by done.
  exists (if sec_high t <? 0 then 1 else 0). case_match; lia.
Qed.

(** C23: [gale_time_add] is addition of signed 128-bit numbers: the
    carry chain of [add] over the four 32-bit fields gives the sum of
    the two values whenever that sum is representable. *)
Theorem gale_time_add_correct a b :
  time_wf a -> time_wf b -> - 2 ^ 127 <= time_value a + time_value b < 2 ^ 127 ->
  time_wf (gale_time_add a b) /\ time_value (gale_time_add a b) = time_value a + time_value b.
Proof.
  intros Ha Hb Hs. destruct (gale_time_add_u128 a b Ha Hb) as [Hw Hu]. split; [done|].
  rewrite time_value_u128, Hu by done.
  destruct (time_u128_shift a Ha) as [ka ->], (time_u128_shift b Hb) as [kb ->].
  replace (time_value a + ka * 2 ^ 128 + (time_value b + kb * 2 ^ 128))
    with (time_value a + time_value b + (ka + kb) * 2 ^ 128) by lia.
  rewrite Z.mod_add by lia. by apply signed_of_mod.
Qed.

(** C24: [gale_time_diff] is subtraction of signed 128-bit numbers: the
    borrow chain of [subtract] gives the difference of the two values
    whenever it is representable. *)
Theorem gale_time_diff_correct a b :
  time_wf a -> time_wf b -> - 2 ^ 127 <= time_value a - time_value b < 2 ^ 127 ->
  time_wf (gale_time_diff a b) /\ time_value (gale_time_diff a b) = time_value a - time_value b.
Proof.
  intros Ha Hb Hs. destruct (gale_time_diff_u128 a b Ha Hb) as [Hw Hu]. split; [done|].
  rewrite time_value_u128, Hu by done.
  destruct (time_u128_shift a Ha) as [ka ->], (time_u128_shift b Hb) as [kb ->].
  replace (time_value a + ka * 2 ^ 128 - (time_value b + kb * 2 ^ 128))
    with (time_value a - time_value b + (ka - kb) * 2 ^ 128) by lia.
  rewrite Z.mod_add by lia. by apply signed_of_mod.
Qed.

(** C25: [gale_time_compare]'s chain of early returns orders two times
    as their signed 128-bit values. *)
Theorem gale_time_compare_order a b :
  time_wf a -> time_wf b ->
  gale_time_compare a b = match Z.compare (time_value a) (time_value b) with
                          | Lt => -1 | Eq => 0 | Gt => 1 end.
Proof.
  intros Ha Hb. rewrite gale_time_compare_sgn by done.
  destruct (Z.compare_spec (time_value a) (time_value b)).
  - apply Z.sgn_null. lia.
  - apply Z.sgn_neg. lia.
  - apply Z.sgn_pos. lia.
Qed.

(** ** The clock *)

Lemma gale_time_from_wf tv : time_wf (gale_time_from tv).
Proof. unfold time_wf, gale_time_from. cbn. pose proof (u32_range (tv_sec tv)).
  pose proof (u32_range (Z.quot (tv_usec tv * 4096) 15625 * 16384)). lia. Qed.

Lemma gale_time_compare_neg a b :
  time_wf a -> time_wf b -> (gale_time_compare a b <? 0) = true -> time_value a < time_value b.
Proof.
  intros Ha Hb. rewrite gale_time_compare_sgn by done. intros H. bool_to_prop.
  destruct (Z.sgn_spec (time_value a - time_value b)) as [[? ?]|[[? ?]|[? ?]]]; lia.
Qed.

Lemma gale_time_compare_nonneg a b :
  time_wf a -> time_wf b -> (gale_time_compare a b <? 0) = false -> time_value b <= time_value a.
Proof.
  intros Ha Hb. rewrite gale_time_compare_sgn by done. intros H. bool_to_prop.
  destruct (Z.sgn_spec (time_value a - time_value b)) as [[? ?]|[[? ?]|[? ?]]]; lia.
Qed.

Lemma gale_time_now_later last tv :
  time_wf last -> frac_low last < 2 ^ 32 - 1 ->
  (gale_time_now last tv).1 = (gale_time_now last tv).2 /\ time_wf (gale_time_now last tv).1
  /\ time_value last < time_value (gale_time_now last tv).1.
Proof.
  intros Hl Hf. unfold gale_time_now. pose proof (gale_time_from_wf tv) as Hw.
  destruct (gale_time_compare last (gale_time_from tv) <? 0) eqn:E.
  - split_and!; [done | done | by apply gale_time_compare_neg].
  - rewrite u32_small by time_wf_lia. split_and!; [done | unfold time_wf in *; cbn; lia | unfold time_value; cbn; lia].
Qed.

(** C26: [gale_time_now] returns the time it stores in [last], and that
    time is strictly later than the previous [last], as long as the
    increment of [frac_low] does not wrap. *)
Theorem gale_time_now_monotone last tv :
  time_wf last -> frac_low last < 2 ^ 32 - 1 ->
  let '(time, last') := gale_time_now last tv in
  time = last' /\ time_wf time /\ time_value last < time_value time.
Proof.
  intros Hl Hf. pose proof (gale_time_now_later last tv Hl Hf) as H.
  by destruct (gale_time_now last tv).
Qed.

(** C27: the monotonicity of [gale_time_now] fails when [frac_low]
    wraps: whenever the system clock has not moved past [last] and
    [frac_low] of [last] is [0xffffffff], [++last.frac_low] wraps to 0
    and carries nothing into [frac_high], so the call stores and returns
    a time [2^32 - 1] units earlier than the previous [last]. *)
Theorem gale_time_now_wraps last tv :
  time_wf last -> frac_low last = 2 ^ 32 - 1 ->
  time_value (gale_time_from tv) <= time_value last ->
  let '(time, last') := gale_time_now last tv in
  time = last' /\ time_value time = time_value last - (2 ^ 32 - 1)
  /\ time_value time < time_value last.
Proof.
  intros Hl Hf Hc. unfold gale_time_now. pose proof (gale_time_from_wf tv) as Hw.
  rewrite gale_time_compare_sgn by done.
  replace (Z.sgn (time_value last - time_value (gale_time_from tv)) <? 0) with false
    by (symmetry; apply Z.ltb_ge; apply Z.sgn_nonneg; lia).
  rewrite Hf. replace (u32 (2 ^ 32 - 1 + 1)) with 0 by reflexivity.
  unfold time_value in *; cbn. rewrite Hf. split_and!; [done | lia | lia].
Qed.

(** ** Conversions *)

(** C28: packing a time and unpacking it gives it back, [sec_high]
    through its [u32] image included, and the bytes that follow are
    left to the caller. *)
Theorem gale_unpack_pack_time t r :
  time_wf t -> gale_unpack_time (gale_pack_time t ++ r) = Some (t, r).
Proof.
  intros Ht. unfold gale_unpack_time, gale_pack_time. rewrite <- !app_assoc, !gale_unpack_pack_u32.
  fold (u32 (sec_high t)). rewrite s32_u32 by time_wf_lia. rewrite !Z.mod_small by time_wf_lia.
  by destruct t.
Qed.

Lemma div_bounds a b : 0 < b -> b * (a / b) <= a < b * (a / b) + b.
Proof. intros Hb. pose proof (Z.mul_div_le a b Hb). pose proof (Z.mul_succ_div_gt a b Hb). lia. Qed.

(** C29: a [struct timeval] converted to a [gale_time] and back keeps
    its seconds and loses less than 5 microseconds (the fraction keeps
    18 bits); none of the [u32] stores on the way wraps. *)
Theorem gale_time_to_from tv :
  0 <= tv_sec tv < 2 ^ 32 -> 0 <= tv_usec tv < 1000000 ->
  tv_sec (gale_time_to (gale_time_from tv)) = tv_sec tv
  /\ tv_usec tv - 4 <= tv_usec (gale_time_to (gale_time_from tv)) <= tv_usec tv.
Proof.
  intros Hs Hu. unfold gale_time_to, gale_time_from. cbn.
  rewrite u32_small by lia. split; [done|].
  rewrite Z.quot_div_nonneg by lia.
  set (q := tv_usec tv * 4096 / 15625).
  pose proof (div_bounds (tv_usec tv * 4096) 15625 ltac:(lia)) as Hq. fold q in Hq.
  rewrite (u32_small (q * 16384)) by lia. rewrite Z.div_mul by lia. rewrite u32_small by lia.
  pose proof (div_bounds (q * 15625) 4096 ltac:(lia)). lia.
Qed.

(** ** Instances *)

Definition example_late : gale_time := mk_time 0 1700000000 2147483648 17.
Definition example_early : gale_time := mk_time (-1) 4294967295 4294967295 4294967295.

Lemma time_wf_examples : time_wf example_late /\ time_wf example_early.
Proof. unfold time_wf; cbn; lia. Qed.

Lemma gale_time_add_correct_witness :
  time_wf example_late /\ time_wf example_early
  /\ - 2 ^ 127 <= time_value example_late + time_value example_early < 2 ^ 127
  /\ time_wf (gale_time_add example_late example_early)
  /\ time_value (gale_time_add example_late example_early) = time_value example_late + time_value example_early.
Proof.
  destruct time_wf_examples as [H1 H2].
  assert (Hs : - 2 ^ 127 <= time_value example_late + time_value example_early < 2 ^ 127)
    by (unfold time_value; cbn; lia).
  split; [exact H1|]. split; [exact H2|]. split; [exact Hs|].
  exact (gale_time_add_correct _ _ H1 H2 Hs).
Defined.

Lemma gale_time_diff_correct_witness :
  time_wf example_early /\ time_wf example_late
  /\ - 2 ^ 127 <= time_value example_early - time_value example_late < 2 ^ 127
  /\ time_wf (gale_time_diff example_early example_late)
  /\ time_value (gale_time_diff example_early example_late) = time_value example_early - time_value example_late.
Proof.
  destruct time_wf_examples as [H1 H2].
  assert (Hs : - 2 ^ 127 <= time_value example_early - time_value example_late < 2 ^ 127)
    by (unfold time_value; cbn; lia).
  split; [exact H2|]. split; [exact H1|]. split; [exact Hs|].
  exact (gale_time_diff_correct _ _ H2 H1 Hs).
Defined.

Lemma gale_time_compare_order_witness :
  time_wf example_early /\ time_wf example_late /\
  gale_time_compare example_early example_late
  = match Z.compare (time_value example_early) (time_value example_late) with
    | Lt => -1 | Eq => 0 | Gt => 1 end.
Proof.
  destruct time_wf_examples as [H1 H2]. split; [exact H2|]. split; [exact H1|].
  exact (gale_time_compare_order _ _ H2 H1).
Defined.

Lemma gale_time_now_monotone_witness :
  time_wf example_late /\ frac_low example_late < 2 ^ 32 - 1 /\
  let '(time, last') := gale_time_now example_late (mk_timeval 1600000000 5) in
  time = last' /\ time_wf time /\ time_value example_late < time_value time.
Proof.
  destruct time_wf_examples as [H1 _].
  assert (Hf : frac_low example_late < 2 ^ 32 - 1) by (cbn; lia).
  split; [exact H1|]. split; [exact Hf|].
  exact (gale_time_now_monotone _ (mk_timeval 1600000000 5) H1 Hf).
Defined.

Lemma gale_unpack_pack_time_witness :
  time_wf example_early /\
  gale_unpack_time (gale_pack_time example_early ++ [Byte.x01]) = Some (example_early, [Byte.x01]).
Proof.
  destruct time_wf_examples as [_ H2]. split; [exact H2|].
  exact (gale_unpack_pack_time _ [Byte.x01] H2).
Defined.

Lemma gale_time_to_from_witness :
  0 <= tv_sec (mk_timeval 1700000000 999999) < 2 ^ 32 /\ 0 <= tv_usec (mk_timeval 1700000000 999999) < 1000000
  /\ tv_sec (gale_time_to (gale_time_from (mk_timeval 1700000000 999999))) = 1700000000
  /\ 999999 - 4 <= tv_usec (gale_time_to (gale_time_from (mk_timeval 1700000000 999999))) <= 999999.
Proof.
  assert (H1 : 0 <= tv_sec (mk_timeval 1700000000 999999) < 2 ^ 32) by (cbn; lia).
  assert (H2 : 0 <= tv_usec (mk_timeval 1700000000 999999) < 1000000) by (cbn; lia).
  split; [exact H1|]. split; [exact H2|]. exact (gale_time_to_from _ H1 H2).
Defined.

(** ** The Swatch beat *)

(** The [int] product [1000 * (3600*h + 60*m + s)] stays below [2^31],
    and the beat printed for ["%."] is between 0 and 999, for every
    time [gmtime] can be given. *)
Lemma swatch_beat_bounds t :
  let '(h, m, s) := gmtime_hms t in
  0 <= 1000 * (3600 * h + 60 * m + s) < 2 ^ 31 /\ 0 <= Z.quot (swatch_beat t) 100 <= 999.
Proof.
  unfold swatch_beat, gmtime_hms.
  assert (Hd : 0 <= t mod 86400 < 86400) by (apply Z.mod_pos_bound; lia).
  set (d := t mod 86400) in *.
  assert (Hs : 3600 * (d / 3600) + 60 * (d mod 3600 / 60) + d mod 60 = d).
  { pose proof (Z.div_mod d 3600 ltac:(lia)). pose proof (Z.div_mod (d mod 3600) 60 ltac:(lia)).
    pose proof (Z.mod_mod_divide d 3600 60 ltac:(exists 60; lia)). lia. }
  rewrite Hs, (Z.quot_div_nonneg (1000 * d)) by lia.
  rewrite Z.quot_div_nonneg by (try apply Z.div_pos; lia).
  split; [lia|]. split; [apply Z.div_pos; [apply Z.div_pos|]; lia|].
  enough ((1000 * d) / 864 / 100 < 1000) by lia.
  apply Z.div_lt_upper_bound; [lia|]. apply Z.div_lt_upper_bound; lia.
Qed.

(** A clock that stands still at [last], whose [frac_low] is at its top. *)
Definition example_wrap_last : gale_time := mk_time 0 5 0 (2 ^ 32 - 1).
Definition example_wrap_tv : timeval := mk_timeval 5 0.

Lemma gale_time_now_wraps_witness :
  time_wf example_wrap_last /\ frac_low example_wrap_last = 2 ^ 32 - 1
  /\ time_value (gale_time_from example_wrap_tv) <= time_value example_wrap_last
  /\ let '(time, last') := gale_time_now example_wrap_last example_wrap_tv in
     time = last' /\ time_value time = time_value example_wrap_last - (2 ^ 32 - 1)
     /\ time_value time < time_value example_wrap_last.
Proof.
  assert (H1 : time_wf example_wrap_last) by (unfold time_wf; cbn; lia).
  assert (H2 : frac_low example_wrap_last = 2 ^ 32 - 1) by reflexivity.
  assert (H3 : time_value (gale_time_from example_wrap_tv) <= time_value example_wrap_last)
    by (vm_compute; discriminate).
  split; [exact H1|]. split; [exact H2|]. split; [exact H3|].
  exact (gale_time_now_wraps _ _ H1 H2 H3).
Defined.
