(* ===== verification/Debug.v ===== *)
(** * Debug: the indented debug printer of [src/libgale/misc_debug.c]

    [debug] keeps a [static int indent]: a negative [idelta] lowers it
    before the line is printed, a positive one raises it after, so that
    a pair [gale_diprintf(l,+d,...)] ... [gale_diprintf(l,-d,...)]
    brackets the lines printed between them.  The static variable and
    [stderr] are the explicit [debug_state]; [gale_global->debug_level]
    is an argument.  What [vfprintf] makes of the format and its
    arguments is the byte string [out] of each call.  The [int]
    additions are kept at 32 bits ([s32]); the [for] loop that prints
    the indentation is a fuelled loop, and [pad_loop_spec] shows the
    fuel [debug] gives it is enough. *)

From S2P Require Import Prelude Wire GaleTime.

Local Open Scope gale_scope.

(** The [static int indent] of [debug] and what has been written to
    [stderr]. *)
Record debug_state := mk_debug_state { indent : Z; stderr : bytes }.

Definition space : Init.Byte.byte := Byte.x20.

(** [for (i = 0; i < indent; ++i) fputc(' ',stderr);] from [i]. *)
Fixpoint pad_loop (fuel : nat) (i ind : Z) (err : bytes) : bytes :=
  match fuel with
  | O => err
  | S f => if i <? ind then pad_loop f (i + 1) ind (err ++ [space]) else err
  end.

(** [debug(level,idelta,fmt,ap)]; [level] is unused, as in the source. *)
Definition debug (level idelta : Z) (out : bytes) (s : debug_state) : debug_state :=
  let ind := if idelta <? 0 then s32 (indent s + idelta) else indent s in
  let err := pad_loop (Z.to_nat ind) 0 ind (stderr s) in
  let err := err ++ out in
  let ind := if idelta >? 0 then s32 (ind + idelta) else ind in
  mk_debug_state ind err.

(** [gale_dprintf]: nothing at or above the global level. *)
Definition gale_dprintf (debug_level level : Z) (out : bytes) (s : debug_state) : debug_state :=
  if level >=? debug_level then s else debug level 0 out s.

(** [gale_diprintf]: the same, with an indentation change. *)
Definition gale_diprintf (debug_level level idelta : Z) (out : bytes) (s : debug_state) : debug_state :=
  if level >=? debug_level then s else debug level idelta out s.

(** A program's sequence of calls to the printer. *)
Inductive dcall :=
| Dprintf (level : Z) (out : bytes)
| Diprintf (level idelta : Z) (out : bytes).

Definition run_dcall (debug_level : Z) (s : debug_state) (c : dcall) : debug_state :=
  match c with
  | Dprintf level out => gale_dprintf debug_level level out s
  | Diprintf level idelta out => gale_diprintf debug_level level idelta out s
  end.

Definition run_dcalls (debug_level : Z) (s : debug_state) (cs : list dcall) : debug_state :=
  fold_left (run_dcall debug_level) cs s.

(** What a visible line looks like: the indentation, then the text. *)
Definition line (ind : Z) (out : bytes) : bytes := repeat space (Z.to_nat ind) ++ out.

(** ** The loop and one call *)

Lemma pad_loop_spec fuel i ind err :
  (Z.to_nat (ind - i) <= fuel)%nat ->
  pad_loop fuel i ind err = err ++ repeat space (Z.to_nat (ind - i)).
Proof.
  revert i err. induction fuel as [|f IH]; intros i err Hf; cbn.
  - replace (Z.to_nat (ind - i)) with 0%nat by lia. by rewrite app_nil_r.
  - destruct (Z.ltb_spec i ind).
    + rewrite IH by lia. rewrite <- app_assoc.
      replace (Z.to_nat (ind - i)) with (S (Z.to_nat (ind - (i + 1)))) by lia. done.
    + replace (Z.to_nat (ind - i)) with 0%nat by lia. by rewrite app_nil_r.
Qed.

Lemma s32_small z : - 2 ^ 31 <= z < 2 ^ 31 -> s32 z = z.
Proof.
  intros Hz. unfold s32. rewrite Z.mod_small by lia. lia.
Qed.

#[export] Hint Rewrite s32_small using lia : gale_rw.

Section Visible.
Context (debug_level level : Z) (Hlev : level < debug_level).

Lemma dprintf_visible out s :
  gale_dprintf debug_level level out s = debug level 0 out s.
Proof using Hlev. unfold gale_dprintf. by rewrite Z.geb_leb, (proj2 (Z.leb_gt _ _)) by lia. Qed.

Lemma diprintf_visible idelta out s :
  gale_diprintf debug_level level idelta out s = debug level idelta out s.
Proof using Hlev. unfold gale_diprintf. by rewrite Z.geb_leb, (proj2 (Z.leb_gt _ _)) by lia. Qed.

End Visible.

(** What a call with no indentation change adds to [stderr] at
    indentation [ind]. *)
Definition dcall_out (debug_level ind : Z) (c : dcall) : bytes :=
  match c with
  | Dprintf level out => if level >=? debug_level then [] else line ind out
  | Diprintf _ _ _ => []
  end.

Definition is_dprintf (c : dcall) : bool := if c is Dprintf _ _ then true else false.

(** [debug] prints one line at the lowered indentation, then raises it. *)
Lemma debug_line level idelta out s :
  let ind := if idelta <? 0 then s32 (indent s + idelta) else indent s in
  debug level idelta out s =
  mk_debug_state (if idelta >? 0 then s32 (ind + idelta) else ind) (stderr s ++ line ind out).
Proof.
  intros ind. unfold debug, line. fold ind.
  rewrite pad_loop_spec, Z.sub_0_r, app_assoc by lia. done.
Qed.

Lemma run_dcalls_app debug_level s cs1 cs2 :
  run_dcalls debug_level s (cs1 ++ cs2) = run_dcalls debug_level (run_dcalls debug_level s cs1) cs2.
Proof. apply fold_left_app. Qed.

Lemma run_dcalls_cons debug_level s c cs :
  run_dcalls debug_level s (c :: cs) = run_dcalls debug_level (run_dcall debug_level s c) cs.
Proof. reflexivity. Qed.

(** Calls without an indentation change keep it and print at it. *)
Lemma run_dprintfs debug_level s cs :
  Forall (fun c => is_dprintf c = true) cs ->
  run_dcalls debug_level s cs =
  mk_debug_state (indent s) (stderr s ++ concat (map (dcall_out debug_level (indent s)) cs)).
Proof.
  revert s. induction cs as [|c cs IH]; intros s Hc.
  - cbn. by rewrite app_nil_r; destruct s.
  - inversion Hc as [|? ? Hd Hcs]; subst. destruct c as [level out|]; [|done].
    rewrite run_dcalls_cons. cbn [run_dcall].
    unfold gale_dprintf. destruct (level >=? debug_level) eqn:E.
    + rewrite IH by done. cbn. by rewrite E.
    + rewrite debug_line, IH by done. cbn. rewrite E. by rewrite app_assoc.
Qed.

(** ** Bracketed output *)

(** C32: a bracket [gale_diprintf(l,+d,...)] ... [gale_diprintf(l,-d,...)]
    around plain [gale_dprintf] calls leaves the indentation as it found
    it.  When level [l] is printed, the two bracket lines are at the
    indentation found and the lines between are [d] columns deeper;
    when it is not, the lines between are at the indentation found. *)
Theorem diprintf_bracket dl lvl d m1 m2 cs s :
  0 <= indent s -> 0 < d -> indent s + d < 2 ^ 31 ->
  Forall (fun c => is_dprintf c = true) cs ->
  run_dcalls dl s (Diprintf lvl d m1 :: cs ++ [Diprintf lvl (- d) m2]) =
  if lvl <? dl then
    mk_debug_state (indent s) (stderr s ++ line (indent s) m1
                                ++ concat (map (dcall_out dl (indent s + d)) cs) ++ line (indent s) m2)
  else mk_debug_state (indent s) (stderr s ++ concat (map (dcall_out dl (indent s)) cs)).
Proof.
  intros Hk Hd Hmax Hcs.
  rewrite run_dcalls_cons, run_dcalls_app, (run_dprintfs dl _ cs Hcs). cbn. unfold gale_diprintf.
  destruct (Z.ltb_spec lvl dl) as [Hl|Hl].
  - rewrite Z.geb_leb, (proj2 (Z.leb_gt _ _)) by lia. rewrite !debug_line. cbn.
    zbool_lia. rewrite (s32_small (indent s + d)), (s32_small (indent s + d + - d)) by lia.
    replace (indent s + d + - d) with (indent s) by lia.
    by rewrite !app_assoc.
  - rewrite Z.geb_leb, (proj2 (Z.leb_le _ _)) by lia. by destruct s.
Qed.

Lemma diprintf_bracket_witness :
  run_dcalls 3 (mk_debug_state 2 [])
    (Diprintf 1 2 [Byte.x61] :: [Dprintf 0 [Byte.x62]; Dprintf 5 [Byte.x63]] ++ [Diprintf 1 (Z.opp 2) [Byte.x64]])
  = mk_debug_state 2 [Byte.x20; Byte.x20; Byte.x61; Byte.x20; Byte.x20; Byte.x20; Byte.x20; Byte.x62;
                      Byte.x20; Byte.x20; Byte.x64].
Proof.
  rewrite (diprintf_bracket 3 1 2 [Byte.x61] [Byte.x64] [Dprintf 0 [Byte.x62]; Dprintf 5 [Byte.x63]]
             (mk_debug_state 2 [])); cbn; [reflexivity | lia | lia | lia | repeat constructor].
Defined.
