(* ===== verification/ClientId.v ===== *)
(** * ClientId: the identifying fragments of [src/libgale/client_standard.c]

    [gale_add_id] adds three fragments to a message's group: [id/class]
    (the program's error prefix and the version), [id/instance] (domain,
    host, login, terminal and process id) and [id/time] (a stamp from
    [gale_time_now]).  The group functions [gale_group_add] and
    [gale_group_lookup] are libgale's, not in this repository: the
    [FragmentGroup] class states what the model relies on (a lookup
    finds the latest fragment of a name), and [list_group] implements
    it.  The process environment ([gale_global->error_prefix],
    [gale_var], [getpid]) is a [client_env]; the static [last] of
    [gale_time_now] and the system time are passed explicitly. *)

From S2P Require Import Prelude Wire GaleTime.

Local Open Scope gale_scope.

(** The two kinds of [struct gale_fragment] that [gale_add_id] makes. *)
Inductive frag_value :=
| Frag_text (t : text)         (* [frag_text] *)
| Frag_time (t : gale_time).   (* [frag_time] *)

Record gale_fragment := mk_fragment { frag_name : text; frag_val : frag_value }.

(** What a group of fragments promises: the latest fragment added under
    a name is the one a lookup of that name finds, and adding under one
    name does not change the lookup of another. *)
Class FragmentGroup (G : Type) := {
  gale_group_add : G -> gale_fragment -> G;
  gale_group_lookup : G -> text -> option frag_value;
  group_lookup_add g f : gale_group_lookup (gale_group_add g f) (frag_name f) = Some (frag_val f);
  group_lookup_add_other g f n :
    n <> frag_name f -> gale_group_lookup (gale_group_add g f) n = gale_group_lookup g n
}.

(** A group as the list of its fragments, the latest first. *)
Fixpoint group_find (g : list gale_fragment) (n : text) : option frag_value :=
  match g with
  | [] => None
  | f :: g' => if decide (frag_name f = n) then Some (frag_val f) else group_find g' n
  end.

#[export] Program Instance list_group : FragmentGroup (list gale_fragment) := {
  gale_group_add g f := f :: g;
  gale_group_lookup := group_find
}.
Next Obligation. intros g f. cbn. by rewrite decide_True. Qed.
Next Obligation. intros g f n Hn. cbn. by rewrite decide_False by congruence. Qed.

(** The process environment [gale_add_id] reads. *)
Record client_env := mk_client_env {
  error_prefix : string;     (* [gale_global->error_prefix] *)
  gale_var : text -> text;   (* [gale_var(name)], empty when unset *)
  getpid : Z
}.

Section AddId.
Context (VERSION : string) (gale_text_from_number : Z -> Z -> Z -> text).
Context `{FragmentGroup G}.

Definition id_class (env : client_env) : text :=
  G_ (error_prefix env) ++ G_ "/" ++ G_ VERSION.

Definition id_instance (env : client_env) (terminal : text) : text :=
  gale_var env (G_ "GALE_DOMAIN") ++ G_ "/" ++ gale_var env (G_ "HOST") ++ G_ "/"
  ++ gale_var env (G_ "LOGNAME") ++ G_ "/" ++ terminal ++ G_ "/"
  ++ gale_text_from_number (getpid env) 10 0.

(** [gale_add_id(group,terminal)], with [last] of [gale_time_now] and
    the system time [tv]: the group and the new [last]. *)
Definition gale_add_id (env : client_env) (last : gale_time) (tv : timeval) (group : G) (terminal : text)
    : G * gale_time :=
  let group := gale_group_add group (mk_fragment (G_ "id/class") (Frag_text (id_class env))) in
  let group := gale_group_add group (mk_fragment (G_ "id/instance") (Frag_text (id_instance env terminal))) in
  let '(now, last') := gale_time_now last tv in
  (gale_group_add group (mk_fragment (G_ "id/time") (Frag_time now)), last').

End AddId.

(** ** The fragments [gale_add_id] adds *)

Lemma id_names_distinct :
  G_ "id/time" <> G_ "id/instance" /\ G_ "id/time" <> G_ "id/class" /\ G_ "id/instance" <> G_ "id/class".
Proof. split_and!; intros E; vm_compute in E; discriminate. Qed.

Section AddIdSpec.
Context (VERSION : string) (gale_text_from_number : Z -> Z -> Z -> text).
Context `{FragmentGroup G}.

(** The group [gale_add_id] returns, lookup by lookup. *)
Lemma gale_add_id_lookup env last tv group terminal n :
  gale_group_lookup (gale_add_id VERSION gale_text_from_number env last tv group terminal).1 n =
  if decide (n = G_ "id/time") then Some (Frag_time (gale_time_now last tv).1)
  else if decide (n = G_ "id/instance") then Some (Frag_text (id_instance gale_text_from_number env terminal))
  else if decide (n = G_ "id/class") then Some (Frag_text (id_class VERSION env))
  else gale_group_lookup group n.
Proof.
  destruct id_names_distinct as (D1 & D2 & D3).
  unfold gale_add_id. destruct (gale_time_now last tv) as [now last']. cbn [fst].
  repeat case_decide; subst;
    repeat (rewrite group_lookup_add_other by (cbn [frag_name]; congruence));
    first [done | exact (group_lookup_add _ (mk_fragment _ _))].
Qed.

Lemma gale_add_id_last env last tv group terminal :
  (gale_add_id VERSION gale_text_from_number env last tv group terminal).2 = (gale_time_now last tv).2.
Proof. unfold gale_add_id. by destruct (gale_time_now last tv). Qed.

(** C37: [gale_add_id] adds [id/class] (error prefix, "/", version),
    [id/instance] (domain, host, login, terminal and pid joined by "/")
    and [id/time] (the stamp [gale_time_now] returns, whose new [last]
    it keeps); the lookup of every other name is unchanged. *)
Theorem gale_add_id_fragments env last tv group terminal n :
  let r := gale_add_id VERSION gale_text_from_number env last tv group terminal in
  gale_group_lookup r.1 (G_ "id/class") = Some (Frag_text (G_ (error_prefix env) ++ G_ "/" ++ G_ VERSION))
  /\ gale_group_lookup r.1 (G_ "id/instance") = Some (Frag_text (id_instance gale_text_from_number env terminal))
  /\ gale_group_lookup r.1 (G_ "id/time") = Some (Frag_time (gale_time_now last tv).1)
  /\ r.2 = (gale_time_now last tv).2
  /\ (n <> G_ "id/class" -> n <> G_ "id/instance" -> n <> G_ "id/time" ->
      gale_group_lookup r.1 n = gale_group_lookup group n).
Proof.
  destruct id_names_distinct as (D1 & D2 & D3). cbv zeta.
  rewrite !gale_add_id_lookup, gale_add_id_last. split_and!.
  1-3: unfold id_class; repeat case_decide; congruence.
  - done.
  - intros N1 N2 N3. by rewrite !decide_False.
Qed.

(** The [id/time] stamps of two successive [gale_add_id] calls
    increase strictly, whatever the system clock does between them, as
    long as neither increment of [frac_low] in [gale_time_now] wraps. *)
Theorem gale_add_id_stamps_increase env last tv1 tv2 g1 g2 term1 term2 :
  time_wf last -> frac_low last < 2 ^ 32 - 1 ->
  let r1 := gale_add_id VERSION gale_text_from_number env last tv1 g1 term1 in
  frac_low r1.2 < 2 ^ 32 - 1 ->
  let r2 := gale_add_id VERSION gale_text_from_number env r1.2 tv2 g2 term2 in
  exists t1 t2, gale_group_lookup r1.1 (G_ "id/time") = Some (Frag_time t1)
    /\ gale_group_lookup r2.1 (G_ "id/time") = Some (Frag_time t2)
    /\ time_value t1 < time_value t2.
Proof.
  intros Hwf Hf r1 Hf1 r2. subst r1 r2. rewrite !gale_add_id_lookup, !decide_True by done.
  rewrite gale_add_id_last in Hf1 |- *.
  destruct (gale_time_now_later last tv1 Hwf Hf) as (E1 & Hwf1 & _).
  rewrite <- E1 in Hf1 |- *.
  destruct (gale_time_now_later _ tv2 Hwf1 Hf1) as (_ & _ & Hlt).
  by eexists _, _.
Qed.

End AddIdSpec.

(** ** Witnesses *)

Definition ex_env : client_env := mk_client_env "gsend" (fun _ => G_ "x") 42.
Definition ex_number (n base width : Z) : text := [48 + n mod 10].

Lemma gale_add_id_fragments_witness :
  let r := gale_add_id "0.99" ex_number ex_env gale_time_last0 (mk_timeval 5 0) ([] : list gale_fragment) (G_ "tty") in
  gale_group_lookup r.1 (G_ "id/class") = Some (Frag_text (G_ "gsend/0.99"))
  /\ gale_group_lookup r.1 (G_ "id/instance") = Some (Frag_text (G_ "x/x/x/tty/2"))
  /\ gale_group_lookup r.1 (G_ "id/time") = Some (Frag_time (gale_time_now gale_time_last0 (mk_timeval 5 0)).1)
  /\ r.2 = (gale_time_now gale_time_last0 (mk_timeval 5 0)).2
  /\ (G_ "other" <> G_ "id/class" -> G_ "other" <> G_ "id/instance" -> G_ "other" <> G_ "id/time" ->
      gale_group_lookup r.1 (G_ "other") = None).
Proof.
  exact (gale_add_id_fragments "0.99" ex_number ex_env gale_time_last0 (mk_timeval 5 0) [] (G_ "tty") (G_ "other")).
Defined.

Lemma gale_add_id_stamps_increase_witness :
  time_wf gale_time_last0 /\ frac_low gale_time_last0 < 2 ^ 32 - 1 /\
  let r1 := gale_add_id "0.99" ex_number ex_env gale_time_last0 (mk_timeval 5 0) ([] : list gale_fragment) (G_ "a") in
  frac_low r1.2 < 2 ^ 32 - 1 /\
  let r2 := gale_add_id "0.99" ex_number ex_env r1.2 (mk_timeval 3 0) ([] : list gale_fragment) (G_ "b") in
  exists t1 t2, gale_group_lookup r1.1 (G_ "id/time") = Some (Frag_time t1)
    /\ gale_group_lookup r2.1 (G_ "id/time") = Some (Frag_time t2)
    /\ time_value t1 < time_value t2.
Proof.
  assert (Hwf : time_wf gale_time_last0) by (unfold time_wf; cbn; lia).
  assert (Hf : frac_low gale_time_last0 < 2 ^ 32 - 1) by (cbn; lia).
  assert (Hf1 : frac_low (gale_add_id "0.99" ex_number ex_env gale_time_last0 (mk_timeval 5 0)
                            ([] : list gale_fragment) (G_ "a")).2 < 2 ^ 32 - 1) by (vm_compute; reflexivity).
  split; [exact Hwf|]. split; [exact Hf|]. cbv zeta. split; [exact Hf1|].
  exact (gale_add_id_stamps_increase "0.99" ex_number ex_env gale_time_last0 (mk_timeval 5 0) (mk_timeval 3 0)
           [] [] (G_ "a") (G_ "b") Hwf Hf Hf1).
Defined.
