(* ===== verification/LinkState.v ===== *)
(** * LinkState: the data of [src/libgale/core_link.c]

    The opcodes and constants of the protocol, the packet, the two
    halves of [struct gale_link] (its input and output fields), the
    states of the two machines and of the buffers of [io.c] that drive
    them, the reactor registrations, [new_link], and the outbound queue:
    [message_size], [dequeue], [link_put], [link_queue_num],
    [link_queue_mem], [link_queue_time], [link_queue_drop], with the
    invariant that keeps the queue counters consistent with the queue.

    Pointers are modelled by what they designate: [l->in_text] and
    [l->in_cid] by the slot they point to ([text_slot], [cid_slot]), a
    [struct gale_packet *] by an [option], the circular list [out_queue]
    by the list of its nodes from the oldest to the newest, the sentinel
    pointers [st_yes] / [st_no] by [GaleMap.mark]. *)

From S2P Require Import Prelude Wire GaleMap GaleTime.

(** ** Constants and opcodes *)

Definition opcode_puff : Z := 0.
Definition opcode_will : Z := 1.
Definition opcode_gimme : Z := 2.
Definition opcode_publish : Z := 3.
Definition opcode_watch : Z := 4.
Definition opcode_forget : Z := 5.
Definition opcode_complete : Z := 6.
Definition opcode_assert : Z := 7.
Definition opcode_retract : Z := 8.
Definition opcode_fetch : Z := 9.
Definition opcode_miss : Z := 10.
Definition opcode_supply : Z := 11.

Definition SIZE_LIMIT : Z := 262144.
Definition PROTOCOL_VERSION : Z := 1.
Definition CID_LENGTH : Z := 20.

(** The opcodes the [switch] statements of the source know. *)
Inductive opcode :=
| Op_puff | Op_will | Op_gimme | Op_publish | Op_watch | Op_forget
| Op_complete | Op_assert | Op_retract | Op_fetch | Op_miss | Op_supply.

#[export] Instance opcode_eq_dec : EqDecision opcode.
Proof. solve_decision. Defined.

Definition opcode_code (o : opcode) : Z :=
  match o with
  | Op_puff => opcode_puff | Op_will => opcode_will | Op_gimme => opcode_gimme
  | Op_publish => opcode_publish | Op_watch => opcode_watch
  | Op_forget => opcode_forget | Op_complete => opcode_complete
  | Op_assert => opcode_assert | Op_retract => opcode_retract
  | Op_fetch => opcode_fetch | Op_miss => opcode_miss | Op_supply => opcode_supply
  end.

(** The [case] labels of a [switch (l->in_opcode)]; [None] is [default]. *)
Definition decode_opcode (z : Z) : option opcode :=
  match z with
  | 0 => Some Op_puff | 1 => Some Op_will | 2 => Some Op_gimme
  | 3 => Some Op_publish | 4 => Some Op_watch | 5 => Some Op_forget
  | 6 => Some Op_complete | 7 => Some Op_assert | 8 => Some Op_retract
  | 9 => Some Op_fetch | 10 => Some Op_miss | 11 => Some Op_supply
  | _ => None
  end.

(** ** Data *)

(** [struct gale_packet]. *)
Record gale_packet := mk_packet { routing : text; content : bytes }.

(** [struct pair] (renamed: [pair] is the constructor of products). *)
Record cid_pair := mk_cid_pair { pair_cid : bytes; pair_cat : text }.

Definition null_pair : cid_pair := mk_cid_pair [] [].

(** [struct link]: a node of the outbound queue. *)
Record link := mk_link { link_msg : gale_packet; link_when : gale_time }.

Inductive text_slot :=
| Slot_gimme | Slot_publish | Slot_watch | Slot_forget | Slot_complete
| Slot_assert_cat | Slot_retract_cat.

Inductive cid_slot := Cid_assert | Cid_retract | Cid_fetch | Cid_miss | Cid_supply.

#[export] Instance text_slot_eq_dec : EqDecision text_slot.
Proof. solve_decision. Defined.
#[export] Instance cid_slot_eq_dec : EqDecision cid_slot.
Proof. solve_decision. Defined.

Inductive shutdown_state := No_shutdown | Do_shutdown | Done_shutdown.

(** The [next] functions and [ready] predicates of the input machine,
    and [struct input_state] ([inp_len] is [data.l]). *)
Inductive ifn :=
| Ifn_version | Ifn_opcode | Ifn_category_len | Ifn_message_category
| Ifn_message_body | Ifn_text | Ifn_cid | Ifn_supply_data | Ifn_unknown.

Inductive iready := Input_always_ready | Ifn_message_ready | Ifn_text_ready | Ifn_cid_ready.

Record input_state := mk_input_state { inp_next : ifn; inp_ready : iready; inp_len : Z }.

(** The input buffer of [io.c]: the machine's state and the bytes read
    from the descriptor and not yet consumed. *)
Record input_buffer := mk_input_buffer { ib_state : input_state; ib_data : bytes }.

Inductive ofn := Ofn_version | Ofn_idle | Ofn_message | Ofn_msg_data | Ofn_text | Ofn_cid | Ofn_data.

Inductive oready := Output_always_ready | Ofn_idle_ready.

Record output_state := mk_output_state { out_next : ofn; out_ready : oready }.

(** The output buffer of [io.c]: the machine's state and the bytes
    produced and not yet written to the descriptor. *)
Record output_buffer := mk_output_buffer { ob_state : output_state; ob_data : bytes }.

(** Which event handlers are registered (a non-[NULL] function pointer). *)
Record link_handlers := mk_handlers {
  on_error : bool; on_empty : bool; on_message : bool; on_will : bool; on_subscribe : bool
}.

(** The callbacks registered with the liboop source: [on_process] at
    [OOP_TIME_NOW], [on_read] and [on_write] on the descriptor. *)
Record reactor_regs := mk_regs { reg_process : bool; reg_read : bool; reg_write : bool }.

(** The warnings the input machine prints with
    [gale_alert(GALE_WARNING,...)]; the text of each is [warning_text]
    in [Input]. *)
Inductive warning :=
| W_version (remote : Z)   (* "remote protocol v%d > our protocol v%d" *)
| W_oversize               (* "oversize message dropped" *)
| W_unknown_format         (* "unknown message format" *)
| W_invalid                (* "invalid message ignored" *)
| W_malformed              (* "ignoring malformed message" *)
| W_truncated.             (* "ignoring truncated message" *)

#[export] Instance warning_eq_dec : EqDecision warning.
Proof. solve_decision. Defined.

(** The input half of [struct gale_link]. *)
Record link_in := mk_link_in {
  in_opcode : Z;
  in_length : Z;
  in_msg : option gale_packet;
  in_puff : option gale_packet;
  in_will : option gale_packet;
  in_gimme : text;
  in_text : text_slot;  (* the slot [l->in_text] points to *)
  in_version : Z;
  in_publish : text;
  in_watch : text;
  in_forget : text;
  in_complete : text;
  in_assert : cid_pair;
  in_retract : cid_pair;
  in_fetch_cid : bytes;
  in_miss_cid : bytes;
  in_supply_cid : bytes;
  in_cid : cid_slot;  (* the slot [l->in_cid] points to *)
  in_supply_data : bytes;
  in_alerts : list warning  (* the warnings [gale_alert] printed, oldest first *)
}.

Definition set_in_opcode (v : Z) (r : link_in) : link_in :=
  mk_link_in v (in_length r) (in_msg r) (in_puff r) (in_will r) (in_gimme r) (in_text r) (in_version r) (in_publish r) (in_watch r) (in_forget r) (in_complete r) (in_assert r) (in_retract r) (in_fetch_cid r) (in_miss_cid r) (in_supply_cid r) (in_cid r) (in_supply_data r) (in_alerts r).
Definition set_in_length (v : Z) (r : link_in) : link_in :=
  mk_link_in (in_opcode r) v (in_msg r) (in_puff r) (in_will r) (in_gimme r) (in_text r) (in_version r) (in_publish r) (in_watch r) (in_forget r) (in_complete r) (in_assert r) (in_retract r) (in_fetch_cid r) (in_miss_cid r) (in_supply_cid r) (in_cid r) (in_supply_data r) (in_alerts r).
Definition set_in_msg (v : option gale_packet) (r : link_in) : link_in :=
  mk_link_in (in_opcode r) (in_length r) v (in_puff r) (in_will r) (in_gimme r) (in_text r) (in_version r) (in_publish r) (in_watch r) (in_forget r) (in_complete r) (in_assert r) (in_retract r) (in_fetch_cid r) (in_miss_cid r) (in_supply_cid r) (in_cid r) (in_supply_data r) (in_alerts r).
Definition set_in_puff (v : option gale_packet) (r : link_in) : link_in :=
  mk_link_in (in_opcode r) (in_length r) (in_msg r) v (in_will r) (in_gimme r) (in_text r) (in_version r) (in_publish r) (in_watch r) (in_forget r) (in_complete r) (in_assert r) (in_retract r) (in_fetch_cid r) (in_miss_cid r) (in_supply_cid r) (in_cid r) (in_supply_data r) (in_alerts r).
Definition set_in_will (v : option gale_packet) (r : link_in) : link_in :=
  mk_link_in (in_opcode r) (in_length r) (in_msg r) (in_puff r) v (in_gimme r) (in_text r) (in_version r) (in_publish r) (in_watch r) (in_forget r) (in_complete r) (in_assert r) (in_retract r) (in_fetch_cid r) (in_miss_cid r) (in_supply_cid r) (in_cid r) (in_supply_data r) (in_alerts r).
Definition set_in_gimme (v : text) (r : link_in) : link_in :=
  mk_link_in (in_opcode r) (in_length r) (in_msg r) (in_puff r) (in_will r) v (in_text r) (in_version r) (in_publish r) (in_watch r) (in_forget r) (in_complete r) (in_assert r) (in_retract r) (in_fetch_cid r) (in_miss_cid r) (in_supply_cid r) (in_cid r) (in_supply_data r) (in_alerts r).
Definition set_in_text (v : text_slot) (r : link_in) : link_in :=
  mk_link_in (in_opcode r) (in_length r) (in_msg r) (in_puff r) (in_will r) (in_gimme r) v (in_version r) (in_publish r) (in_watch r) (in_forget r) (in_complete r) (in_assert r) (in_retract r) (in_fetch_cid r) (in_miss_cid r) (in_supply_cid r) (in_cid r) (in_supply_data r) (in_alerts r).
Definition set_in_version (v : Z) (r : link_in) : link_in :=
  mk_link_in (in_opcode r) (in_length r) (in_msg r) (in_puff r) (in_will r) (in_gimme r) (in_text r) v (in_publish r) (in_watch r) (in_forget r) (in_complete r) (in_assert r) (in_retract r) (in_fetch_cid r) (in_miss_cid r) (in_supply_cid r) (in_cid r) (in_supply_data r) (in_alerts r).
Definition set_in_publish (v : text) (r : link_in) : link_in :=
  mk_link_in (in_opcode r) (in_length r) (in_msg r) (in_puff r) (in_will r) (in_gimme r) (in_text r) (in_version r) v (in_watch r) (in_forget r) (in_complete r) (in_assert r) (in_retract r) (in_fetch_cid r) (in_miss_cid r) (in_supply_cid r) (in_cid r) (in_supply_data r) (in_alerts r).
Definition set_in_watch (v : text) (r : link_in) : link_in :=
  mk_link_in (in_opcode r) (in_length r) (in_msg r) (in_puff r) (in_will r) (in_gimme r) (in_text r) (in_version r) (in_publish r) v (in_forget r) (in_complete r) (in_assert r) (in_retract r) (in_fetch_cid r) (in_miss_cid r) (in_supply_cid r) (in_cid r) (in_supply_data r) (in_alerts r).
Definition set_in_forget (v : text) (r : link_in) : link_in :=
  mk_link_in (in_opcode r) (in_length r) (in_msg r) (in_puff r) (in_will r) (in_gimme r) (in_text r) (in_version r) (in_publish r) (in_watch r) v (in_complete r) (in_assert r) (in_retract r) (in_fetch_cid r) (in_miss_cid r) (in_supply_cid r) (in_cid r) (in_supply_data r) (in_alerts r).
Definition set_in_complete (v : text) (r : link_in) : link_in :=
  mk_link_in (in_opcode r) (in_length r) (in_msg r) (in_puff r) (in_will r) (in_gimme r) (in_text r) (in_version r) (in_publish r) (in_watch r) (in_forget r) v (in_assert r) (in_retract r) (in_fetch_cid r) (in_miss_cid r) (in_supply_cid r) (in_cid r) (in_supply_data r) (in_alerts r).
Definition set_in_assert (v : cid_pair) (r : link_in) : link_in :=
  mk_link_in (in_opcode r) (in_length r) (in_msg r) (in_puff r) (in_will r) (in_gimme r) (in_text r) (in_version r) (in_publish r) (in_watch r) (in_forget r) (in_complete r) v (in_retract r) (in_fetch_cid r) (in_miss_cid r) (in_supply_cid r) (in_cid r) (in_supply_data r) (in_alerts r).
Definition set_in_retract (v : cid_pair) (r : link_in) : link_in :=
  mk_link_in (in_opcode r) (in_length r) (in_msg r) (in_puff r) (in_will r) (in_gimme r) (in_text r) (in_version r) (in_publish r) (in_watch r) (in_forget r) (in_complete r) (in_assert r) v (in_fetch_cid r) (in_miss_cid r) (in_supply_cid r) (in_cid r) (in_supply_data r) (in_alerts r).
Definition set_in_fetch_cid (v : bytes) (r : link_in) : link_in :=
  mk_link_in (in_opcode r) (in_length r) (in_msg r) (in_puff r) (in_will r) (in_gimme r) (in_text r) (in_version r) (in_publish r) (in_watch r) (in_forget r) (in_complete r) (in_assert r) (in_retract r) v (in_miss_cid r) (in_supply_cid r) (in_cid r) (in_supply_data r) (in_alerts r).
Definition set_in_miss_cid (v : bytes) (r : link_in) : link_in :=
  mk_link_in (in_opcode r) (in_length r) (in_msg r) (in_puff r) (in_will r) (in_gimme r) (in_text r) (in_version r) (in_publish r) (in_watch r) (in_forget r) (in_complete r) (in_assert r) (in_retract r) (in_fetch_cid r) v (in_supply_cid r) (in_cid r) (in_supply_data r) (in_alerts r).
Definition set_in_supply_cid (v : bytes) (r : link_in) : link_in :=
  mk_link_in (in_opcode r) (in_length r) (in_msg r) (in_puff r) (in_will r) (in_gimme r) (in_text r) (in_version r) (in_publish r) (in_watch r) (in_forget r) (in_complete r) (in_assert r) (in_retract r) (in_fetch_cid r) (in_miss_cid r) v (in_cid r) (in_supply_data r) (in_alerts r).
Definition set_in_cid (v : cid_slot) (r : link_in) : link_in :=
  mk_link_in (in_opcode r) (in_length r) (in_msg r) (in_puff r) (in_will r) (in_gimme r) (in_text r) (in_version r) (in_publish r) (in_watch r) (in_forget r) (in_complete r) (in_assert r) (in_retract r) (in_fetch_cid r) (in_miss_cid r) (in_supply_cid r) v (in_supply_data r) (in_alerts r).
Definition set_in_supply_data (v : bytes) (r : link_in) : link_in :=
  mk_link_in (in_opcode r) (in_length r) (in_msg r) (in_puff r) (in_will r) (in_gimme r) (in_text r) (in_version r) (in_publish r) (in_watch r) (in_forget r) (in_complete r) (in_assert r) (in_retract r) (in_fetch_cid r) (in_miss_cid r) (in_supply_cid r) (in_cid r) v (in_alerts r).
Definition set_in_alerts (v : list warning) (r : link_in) : link_in :=
  mk_link_in (in_opcode r) (in_length r) (in_msg r) (in_puff r) (in_will r) (in_gimme r) (in_text r) (in_version r) (in_publish r) (in_watch r) (in_forget r) (in_complete r) (in_assert r) (in_retract r) (in_fetch_cid r) (in_miss_cid r) (in_supply_cid r) (in_cid r) (in_supply_data r) v.

(** The output half of [struct gale_link]. *)
Record link_out := mk_link_out {
  out_msg : option gale_packet;
  out_will : option gale_packet;
  out_text : text;
  out_gimme : text;
  out_queue : list link;  (* oldest first *)
  out_shutdown : shutdown_state;
  queue_num : Z;
  queue_mem : Z;  (* a [size_t] *)
  out_publish : text;
  out_watch : gale_map mark;
  out_complete : gale_map mark;
  out_assert : gale_map mark;
  out_fetch : gale_map mark;
  out_supply : gale_map mark;
  out_cid : bytes;
  out_data : bytes
}.

Definition set_out_msg (v : option gale_packet) (r : link_out) : link_out :=
  mk_link_out v (out_will r) (out_text r) (out_gimme r) (out_queue r) (out_shutdown r) (queue_num r) (queue_mem r) (out_publish r) (out_watch r) (out_complete r) (out_assert r) (out_fetch r) (out_supply r) (out_cid r) (out_data r).
Definition set_out_will (v : option gale_packet) (r : link_out) : link_out :=
  mk_link_out (out_msg r) v (out_text r) (out_gimme r) (out_queue r) (out_shutdown r) (queue_num r) (queue_mem r) (out_publish r) (out_watch r) (out_complete r) (out_assert r) (out_fetch r) (out_supply r) (out_cid r) (out_data r).
Definition set_out_text (v : text) (r : link_out) : link_out :=
  mk_link_out (out_msg r) (out_will r) v (out_gimme r) (out_queue r) (out_shutdown r) (queue_num r) (queue_mem r) (out_publish r) (out_watch r) (out_complete r) (out_assert r) (out_fetch r) (out_supply r) (out_cid r) (out_data r).
Definition set_out_gimme (v : text) (r : link_out) : link_out :=
  mk_link_out (out_msg r) (out_will r) (out_text r) v (out_queue r) (out_shutdown r) (queue_num r) (queue_mem r) (out_publish r) (out_watch r) (out_complete r) (out_assert r) (out_fetch r) (out_supply r) (out_cid r) (out_data r).
Definition set_out_queue (v : list link) (r : link_out) : link_out :=
  mk_link_out (out_msg r) (out_will r) (out_text r) (out_gimme r) v (out_shutdown r) (queue_num r) (queue_mem r) (out_publish r) (out_watch r) (out_complete r) (out_assert r) (out_fetch r) (out_supply r) (out_cid r) (out_data r).
Definition set_out_shutdown (v : shutdown_state) (r : link_out) : link_out :=
  mk_link_out (out_msg r) (out_will r) (out_text r) (out_gimme r) (out_queue r) v (queue_num r) (queue_mem r) (out_publish r) (out_watch r) (out_complete r) (out_assert r) (out_fetch r) (out_supply r) (out_cid r) (out_data r).
Definition set_queue_num (v : Z) (r : link_out) : link_out :=
  mk_link_out (out_msg r) (out_will r) (out_text r) (out_gimme r) (out_queue r) (out_shutdown r) v (queue_mem r) (out_publish r) (out_watch r) (out_complete r) (out_assert r) (out_fetch r) (out_supply r) (out_cid r) (out_data r).
Definition set_queue_mem (v : Z) (r : link_out) : link_out :=
  mk_link_out (out_msg r) (out_will r) (out_text r) (out_gimme r) (out_queue r) (out_shutdown r) (queue_num r) v (out_publish r) (out_watch r) (out_complete r) (out_assert r) (out_fetch r) (out_supply r) (out_cid r) (out_data r).
Definition set_out_publish (v : text) (r : link_out) : link_out :=
  mk_link_out (out_msg r) (out_will r) (out_text r) (out_gimme r) (out_queue r) (out_shutdown r) (queue_num r) (queue_mem r) v (out_watch r) (out_complete r) (out_assert r) (out_fetch r) (out_supply r) (out_cid r) (out_data r).
Definition set_out_watch (v : gale_map mark) (r : link_out) : link_out :=
  mk_link_out (out_msg r) (out_will r) (out_text r) (out_gimme r) (out_queue r) (out_shutdown r) (queue_num r) (queue_mem r) (out_publish r) v (out_complete r) (out_assert r) (out_fetch r) (out_supply r) (out_cid r) (out_data r).
Definition set_out_complete (v : gale_map mark) (r : link_out) : link_out :=
  mk_link_out (out_msg r) (out_will r) (out_text r) (out_gimme r) (out_queue r) (out_shutdown r) (queue_num r) (queue_mem r) (out_publish r) (out_watch r) v (out_assert r) (out_fetch r) (out_supply r) (out_cid r) (out_data r).
Definition set_out_assert (v : gale_map mark) (r : link_out) : link_out :=
  mk_link_out (out_msg r) (out_will r) (out_text r) (out_gimme r) (out_queue r) (out_shutdown r) (queue_num r) (queue_mem r) (out_publish r) (out_watch r) (out_complete r) v (out_fetch r) (out_supply r) (out_cid r) (out_data r).
Definition set_out_fetch (v : gale_map mark) (r : link_out) : link_out :=
  mk_link_out (out_msg r) (out_will r) (out_text r) (out_gimme r) (out_queue r) (out_shutdown r) (queue_num r) (queue_mem r) (out_publish r) (out_watch r) (out_complete r) (out_assert r) v (out_supply r) (out_cid r) (out_data r).
Definition set_out_supply (v : gale_map mark) (r : link_out) : link_out :=
  mk_link_out (out_msg r) (out_will r) (out_text r) (out_gimme r) (out_queue r) (out_shutdown r) (queue_num r) (queue_mem r) (out_publish r) (out_watch r) (out_complete r) (out_assert r) (out_fetch r) v (out_cid r) (out_data r).
Definition set_out_cid (v : bytes) (r : link_out) : link_out :=
  mk_link_out (out_msg r) (out_will r) (out_text r) (out_gimme r) (out_queue r) (out_shutdown r) (queue_num r) (queue_mem r) (out_publish r) (out_watch r) (out_complete r) (out_assert r) (out_fetch r) (out_supply r) v (out_data r).
Definition set_out_data (v : bytes) (r : link_out) : link_out :=
  mk_link_out (out_msg r) (out_will r) (out_text r) (out_gimme r) (out_queue r) (out_shutdown r) (queue_num r) (queue_mem r) (out_publish r) (out_watch r) (out_complete r) (out_assert r) (out_fetch r) (out_supply r) (out_cid r) v.

(** [struct gale_link]: the descriptor, the handlers, the reactor registrations, the two buffers of [io.c] and the two halves. *)
Record gale_link := mk_gale_link {
  fd : Z;
  handlers : link_handlers;
  reactor : reactor_regs;
  input : option input_buffer;
  lin : link_in;
  output : option output_buffer;
  lout : link_out
}.

Definition set_fd (v : Z) (r : gale_link) : gale_link :=
  mk_gale_link v (handlers r) (reactor r) (input r) (lin r) (output r) (lout r).
Definition set_handlers (v : link_handlers) (r : gale_link) : gale_link :=
  mk_gale_link (fd r) v (reactor r) (input r) (lin r) (output r) (lout r).
Definition set_reactor (v : reactor_regs) (r : gale_link) : gale_link :=
  mk_gale_link (fd r) (handlers r) v (input r) (lin r) (output r) (lout r).
Definition set_input (v : option input_buffer) (r : gale_link) : gale_link :=
  mk_gale_link (fd r) (handlers r) (reactor r) v (lin r) (output r) (lout r).
Definition set_lin (v : link_in) (r : gale_link) : gale_link :=
  mk_gale_link (fd r) (handlers r) (reactor r) (input r) v (output r) (lout r).
Definition set_output (v : option output_buffer) (r : gale_link) : gale_link :=
  mk_gale_link (fd r) (handlers r) (reactor r) (input r) (lin r) v (lout r).
Definition set_lout (v : link_out) (r : gale_link) : gale_link :=
  mk_gale_link (fd r) (handlers r) (reactor r) (input r) (lin r) (output r) v.

(** ** The slots [l->in_text] and [l->in_cid] point to *)

Definition get_text_slot (s : text_slot) (l : link_in) : text :=
  match s with
  | Slot_gimme => in_gimme l
  | Slot_publish => in_publish l
  | Slot_watch => in_watch l
  | Slot_forget => in_forget l
  | Slot_complete => in_complete l
  | Slot_assert_cat => pair_cat (in_assert l)
  | Slot_retract_cat => pair_cat (in_retract l)
  end.

Definition set_text_slot (s : text_slot) (v : text) (l : link_in) : link_in :=
  match s with
  | Slot_gimme => set_in_gimme v l
  | Slot_publish => set_in_publish v l
  | Slot_watch => set_in_watch v l
  | Slot_forget => set_in_forget v l
  | Slot_complete => set_in_complete v l
  | Slot_assert_cat => set_in_assert (mk_cid_pair (pair_cid (in_assert l)) v) l
  | Slot_retract_cat => set_in_retract (mk_cid_pair (pair_cid (in_retract l)) v) l
  end.

Definition get_cid_slot (s : cid_slot) (l : link_in) : bytes :=
  match s with
  | Cid_assert => pair_cid (in_assert l)
  | Cid_retract => pair_cid (in_retract l)
  | Cid_fetch => in_fetch_cid l
  | Cid_miss => in_miss_cid l
  | Cid_supply => in_supply_cid l
  end.

Definition set_cid_slot (s : cid_slot) (v : bytes) (l : link_in) : link_in :=
  match s with
  | Cid_assert => set_in_assert (mk_cid_pair v (pair_cat (in_assert l))) l
  | Cid_retract => set_in_retract (mk_cid_pair v (pair_cat (in_retract l))) l
  | Cid_fetch => set_in_fetch_cid v l
  | Cid_miss => set_in_miss_cid v l
  | Cid_supply => set_in_supply_cid v l
  end.

(** ** [new_link] *)

(** The allocator of libgale returns zeroed memory: the fields that
    [new_link] leaves unset ([in_opcode], [in_length], the pointers
    [in_text] and [in_cid], [out_cid], [out_data]) start at zero; the
    two pointers are always set before they are read. *)
Definition new_link_in : link_in :=
  mk_link_in 0 0 None None None [] Slot_gimme (-1) [] [] [] [] null_pair null_pair
    [] [] [] Cid_assert [] [].

Definition new_link_out : link_out :=
  mk_link_out None None [] [] [] No_shutdown 0 0 []
    gale_make_map gale_make_map gale_make_map gale_make_map gale_make_map [] [].

Definition new_link : gale_link :=
  mk_gale_link (-1) (mk_handlers false false false false false) (mk_regs false false false)
    None new_link_in None new_link_out.

(** ** Reactor registrations *)

Definition deactivate (l : gale_link) : gale_link :=
  let r := reactor l in
  if fd l =? -1 then set_reactor (mk_regs false (reg_read r) (reg_write r)) l
  else set_reactor (mk_regs false false false) l.

Definition activate (l : gale_link) : gale_link :=
  let l := deactivate l in
  let r := reactor l in
  if fd l =? -1 then set_reactor (mk_regs true (reg_read r) (reg_write r)) l
  else set_reactor (mk_regs true true true) l.


(** Writing through [l->in_text] or [l->in_cid] leaves the other fields alone. *)
Lemma set_text_slot_in_opcode s t l : in_opcode (set_text_slot s t l) = in_opcode l.
Proof. by destruct s. Qed.
Lemma set_cid_slot_in_opcode s d l : in_opcode (set_cid_slot s d l) = in_opcode l.
Proof. by destruct s. Qed.
Lemma set_text_slot_in_length s t l : in_length (set_text_slot s t l) = in_length l.
Proof. by destruct s. Qed.
Lemma set_cid_slot_in_length s d l : in_length (set_cid_slot s d l) = in_length l.
Proof. by destruct s. Qed.
Lemma set_text_slot_in_msg s t l : in_msg (set_text_slot s t l) = in_msg l.
Proof. by destruct s. Qed.
Lemma set_cid_slot_in_msg s d l : in_msg (set_cid_slot s d l) = in_msg l.
Proof. by destruct s. Qed.
Lemma set_text_slot_in_puff s t l : in_puff (set_text_slot s t l) = in_puff l.
Proof. by destruct s. Qed.
Lemma set_cid_slot_in_puff s d l : in_puff (set_cid_slot s d l) = in_puff l.
Proof. by destruct s. Qed.
Lemma set_text_slot_in_will s t l : in_will (set_text_slot s t l) = in_will l.
Proof. by destruct s. Qed.
Lemma set_cid_slot_in_will s d l : in_will (set_cid_slot s d l) = in_will l.
Proof. by destruct s. Qed.
Lemma set_cid_slot_in_gimme s d l : in_gimme (set_cid_slot s d l) = in_gimme l.
Proof. by destruct s. Qed.
Lemma set_text_slot_in_text s t l : in_text (set_text_slot s t l) = in_text l.
Proof. by destruct s. Qed.
Lemma set_cid_slot_in_text s d l : in_text (set_cid_slot s d l) = in_text l.
Proof. by destruct s. Qed.
Lemma set_text_slot_in_version s t l : in_version (set_text_slot s t l) = in_version l.
Proof. by destruct s. Qed.
Lemma set_cid_slot_in_version s d l : in_version (set_cid_slot s d l) = in_version l.
Proof. by destruct s. Qed.
Lemma set_text_slot_in_cid s t l : in_cid (set_text_slot s t l) = in_cid l.
Proof. by destruct s. Qed.
Lemma set_cid_slot_in_cid s d l : in_cid (set_cid_slot s d l) = in_cid l.
Proof. by destruct s. Qed.
Lemma set_text_slot_in_supply_data s t l : in_supply_data (set_text_slot s t l) = in_supply_data l.
Proof. by destruct s. Qed.
Lemma set_cid_slot_in_supply_data s d l : in_supply_data (set_cid_slot s d l) = in_supply_data l.
Proof. by destruct s. Qed.
Lemma set_text_slot_in_fetch_cid s t l : in_fetch_cid (set_text_slot s t l) = in_fetch_cid l.
Proof. by destruct s. Qed.
Lemma set_text_slot_in_miss_cid s t l : in_miss_cid (set_text_slot s t l) = in_miss_cid l.
Proof. by destruct s. Qed.
Lemma set_text_slot_in_supply_cid s t l : in_supply_cid (set_text_slot s t l) = in_supply_cid l.
Proof. by destruct s. Qed.
Lemma set_cid_slot_in_publish s d l : in_publish (set_cid_slot s d l) = in_publish l.
Proof. by destruct s. Qed.
Lemma set_cid_slot_in_watch s d l : in_watch (set_cid_slot s d l) = in_watch l.
Proof. by destruct s. Qed.
Lemma set_cid_slot_in_forget s d l : in_forget (set_cid_slot s d l) = in_forget l.
Proof. by destruct s. Qed.
Lemma set_cid_slot_in_complete s d l : in_complete (set_cid_slot s d l) = in_complete l.
Proof. by destruct s. Qed.

#[export] Hint Rewrite set_text_slot_in_opcode set_cid_slot_in_opcode set_text_slot_in_length set_cid_slot_in_length
  set_text_slot_in_msg set_cid_slot_in_msg set_text_slot_in_puff set_cid_slot_in_puff
  set_text_slot_in_will set_cid_slot_in_will set_cid_slot_in_gimme set_text_slot_in_text
  set_cid_slot_in_text set_text_slot_in_version set_cid_slot_in_version set_text_slot_in_cid
  set_cid_slot_in_cid set_text_slot_in_supply_data set_cid_slot_in_supply_data set_text_slot_in_fetch_cid
  set_text_slot_in_miss_cid set_text_slot_in_supply_cid set_cid_slot_in_publish set_cid_slot_in_watch
  set_cid_slot_in_forget set_cid_slot_in_complete : gale_rw.


(** Reading a slot through a write to another field. *)
Lemma get_text_slot_set_in_length s (v : Z) l : get_text_slot s (set_in_length v l) = get_text_slot s l.
Proof. by destruct s. Qed.
Lemma get_cid_slot_set_in_length c (v : Z) l : get_cid_slot c (set_in_length v l) = get_cid_slot c l.
Proof. by destruct c. Qed.
Lemma get_text_slot_set_in_opcode s (v : Z) l : get_text_slot s (set_in_opcode v l) = get_text_slot s l.
Proof. by destruct s. Qed.
Lemma get_cid_slot_set_in_opcode c (v : Z) l : get_cid_slot c (set_in_opcode v l) = get_cid_slot c l.
Proof. by destruct c. Qed.
Lemma get_text_slot_set_in_msg s (v : option gale_packet) l : get_text_slot s (set_in_msg v l) = get_text_slot s l.
Proof. by destruct s. Qed.
Lemma get_cid_slot_set_in_msg c (v : option gale_packet) l : get_cid_slot c (set_in_msg v l) = get_cid_slot c l.
Proof. by destruct c. Qed.
Lemma get_text_slot_set_in_version s (v : Z) l : get_text_slot s (set_in_version v l) = get_text_slot s l.
Proof. by destruct s. Qed.
Lemma get_cid_slot_set_in_version c (v : Z) l : get_cid_slot c (set_in_version v l) = get_cid_slot c l.
Proof. by destruct c. Qed.
Lemma get_text_slot_set_in_puff s (v : option gale_packet) l : get_text_slot s (set_in_puff v l) = get_text_slot s l.
Proof. by destruct s. Qed.
Lemma get_cid_slot_set_in_puff c (v : option gale_packet) l : get_cid_slot c (set_in_puff v l) = get_cid_slot c l.
Proof. by destruct c. Qed.
Lemma get_text_slot_set_in_will s (v : option gale_packet) l : get_text_slot s (set_in_will v l) = get_text_slot s l.
Proof. by destruct s. Qed.
Lemma get_cid_slot_set_in_will c (v : option gale_packet) l : get_cid_slot c (set_in_will v l) = get_cid_slot c l.
Proof. by destruct c. Qed.
Lemma get_text_slot_set_in_text s (v : text_slot) l : get_text_slot s (set_in_text v l) = get_text_slot s l.
Proof. by destruct s. Qed.
Lemma get_cid_slot_set_in_text c (v : text_slot) l : get_cid_slot c (set_in_text v l) = get_cid_slot c l.
Proof. by destruct c. Qed.
Lemma get_text_slot_set_in_cid s (v : cid_slot) l : get_text_slot s (set_in_cid v l) = get_text_slot s l.
Proof. by destruct s. Qed.
Lemma get_cid_slot_set_in_cid c (v : cid_slot) l : get_cid_slot c (set_in_cid v l) = get_cid_slot c l.
Proof. by destruct c. Qed.
Lemma get_text_slot_set_in_supply_data s (v : bytes) l : get_text_slot s (set_in_supply_data v l) = get_text_slot s l.
Proof. by destruct s. Qed.
Lemma get_cid_slot_set_in_supply_data c (v : bytes) l : get_cid_slot c (set_in_supply_data v l) = get_cid_slot c l.
Proof. by destruct c. Qed.
Lemma get_text_slot_set_cid_slot s c d l : get_text_slot s (set_cid_slot c d l) = get_text_slot s l.
Proof. by destruct s, c. Qed.
Lemma get_cid_slot_set_text_slot c s t l : get_cid_slot c (set_text_slot s t l) = get_cid_slot c l.
Proof. by destruct s, c. Qed.
Lemma get_text_slot_set_text_slot s s' t l :
  get_text_slot s (set_text_slot s' t l) = if decide (s = s') then t else get_text_slot s l.
Proof. by destruct s, s'. Qed.
Lemma get_cid_slot_set_cid_slot c c' d l :
  get_cid_slot c (set_cid_slot c' d l) = if decide (c = c') then d else get_cid_slot c l.
Proof. by destruct c, c'. Qed.

#[export] Hint Rewrite get_text_slot_set_in_length get_cid_slot_set_in_length get_text_slot_set_in_opcode
  get_cid_slot_set_in_opcode get_text_slot_set_in_msg get_cid_slot_set_in_msg
  get_text_slot_set_in_version get_cid_slot_set_in_version get_text_slot_set_in_puff
  get_cid_slot_set_in_puff get_text_slot_set_in_will get_cid_slot_set_in_will
  get_text_slot_set_in_text get_cid_slot_set_in_text get_text_slot_set_in_cid
  get_cid_slot_set_in_cid get_text_slot_set_in_supply_data get_cid_slot_set_in_supply_data
  get_text_slot_set_cid_slot get_cid_slot_set_text_slot : gale_rw.

(** ** The outbound queue *)

Definition size_t_wrap (z : Z) : Z := z mod 2 ^ 64.

Definition message_size (m : gale_packet) : Z :=
  gale_u32_size + Z.of_nat (length (content m)) + Z.of_nat (length (routing m)) * gale_wch_size.

Definition dequeue (lo : link_out) : link_out * option gale_packet :=
  match out_queue lo with
  | [] => (lo, None)
  | n :: q =>
      let lo := set_out_queue q lo in
      let lo := set_queue_num (queue_num lo - 1) lo in
      let lo := set_queue_mem (size_t_wrap (queue_mem lo - message_size (link_msg n))) lo in
      (lo, Some (link_msg n))
  end.

(** [link_put]: [gale_time_now()] reads the clock [clk] (the static
    [last] of [misc_time.c]) and the system time [tv]; the new clock is
    returned with the link. *)
Definition link_put (clk : gale_time) (tv : timeval) (l : gale_link) (m : gale_packet)
    : gale_link * gale_time :=
  let '(when, clk') := gale_time_now clk tv in
  let lo := lout l in
  let lo := set_out_queue (out_queue lo ++ [mk_link m when]) lo in
  let lo := set_queue_num (queue_num lo + 1) lo in
  let lo := set_queue_mem (size_t_wrap (queue_mem lo + message_size m)) lo in
  (activate (set_lout lo l), clk').

Definition link_queue_num (l : gale_link) : Z := queue_num (lout l).

Definition link_queue_mem (l : gale_link) : Z := queue_mem (lout l).

Definition link_queue_time (l : gale_link) : gale_time :=
  match out_queue (lout l) with
  | [] => gale_time_forever
  | n :: _ => link_when n
  end.

Definition link_queue_drop (l : gale_link) : gale_link :=
  let l := match out_queue (lout l) with
           | [] => l
           | _ :: _ => set_lout (dequeue (lout l)).1 l
           end in
  activate l.

(** ** The queue invariant *)

Definition queue_weight (q : list link) : Z := zsum (fun n => message_size (link_msg n)) q.

(** [queue_num] counts the queued messages, [queue_mem] is the sum of
    their sizes in [size_t] arithmetic. *)
Definition queue_ok (lo : link_out) : Prop :=
  queue_num lo = Z.of_nat (length (out_queue lo))
  /\ queue_mem lo = size_t_wrap (queue_weight (out_queue lo)).

(** A caller's sequence of queue operations: [link_put] of a message at
    a system time, or [link_queue_drop]. *)
Inductive queue_op :=
| Q_put (m : gale_packet) (tv : timeval)
| Q_drop.

Fixpoint run_queue_ops (clk : gale_time) (l : gale_link) (ops : list queue_op) : gale_link * gale_time :=
  match ops with
  | [] => (l, clk)
  | Q_put m tv :: ops' => let '(l', clk') := link_put clk tv l m in run_queue_ops clk' l' ops'
  | Q_drop :: ops' => run_queue_ops clk (link_queue_drop l) ops'
  end.

(** ** Lemmas *)

Lemma lout_deactivate l : lout (deactivate l) = lout l.
Proof. unfold deactivate. by case_match. Qed.

Lemma lout_activate l : lout (activate l) = lout l.
Proof. unfold activate. rewrite <- (lout_deactivate l). by case_match. Qed.

Lemma fd_activate l : fd (activate l) = fd l.
Proof. unfold activate, deactivate. by repeat case_match. Qed.

(** [activate] and [deactivate] touch only the reactor registrations. *)
Lemma lin_activate l : lin (activate l) = lin l.
Proof. unfold activate, deactivate. by repeat case_match. Qed.
Lemma lin_deactivate l : lin (deactivate l) = lin l.
Proof. unfold deactivate. by case_match. Qed.
Lemma fd_deactivate l : fd (deactivate l) = fd l.
Proof. unfold deactivate. by case_match. Qed.
Lemma handlers_activate l : handlers (activate l) = handlers l.
Proof. unfold activate, deactivate. by repeat case_match. Qed.
Lemma handlers_deactivate l : handlers (deactivate l) = handlers l.
Proof. unfold deactivate. by case_match. Qed.
Lemma input_activate l : input (activate l) = input l.
Proof. unfold activate, deactivate. by repeat case_match. Qed.
Lemma input_deactivate l : input (deactivate l) = input l.
Proof. unfold deactivate. by case_match. Qed.
Lemma output_activate l : output (activate l) = output l.
Proof. unfold activate, deactivate. by repeat case_match. Qed.
Lemma output_deactivate l : output (deactivate l) = output l.
Proof. unfold deactivate. by case_match. Qed.

(** An attached link is registered for everything once activated. *)
Lemma reactor_activate_attached l :
  fd l <> -1 -> reactor (activate l) = mk_regs true true true.
Proof.
  intros H. unfold activate, deactivate.
  destruct (Z.eqb_spec (fd l) (-1)); [done|]. simpl. by rewrite (proj2 (Z.eqb_neq _ _) H).
Qed.

#[export] Hint Rewrite lout_deactivate lout_activate fd_activate lin_activate lin_deactivate
  fd_deactivate handlers_activate handlers_deactivate input_activate input_deactivate
  output_activate output_deactivate : gale_rw.

#[export] Hint Rewrite lout_deactivate lout_activate fd_activate : gale_rw.

Lemma message_size_ge m : 4 <= message_size m.
Proof. unfold message_size, gale_u32_size, gale_wch_size. lia. Qed.

Lemma queue_weight_app q1 q2 : queue_weight (q1 ++ q2) = queue_weight q1 + queue_weight q2.
Proof. apply zsum_app. Qed.

Lemma queue_weight_cons n q : queue_weight (n :: q) = message_size (link_msg n) + queue_weight q.
Proof. reflexivity. Qed.

Lemma queue_weight_nil : queue_weight [] = 0.
Proof. reflexivity. Qed.

Lemma queue_ok_new : queue_ok new_link_out.
Proof. split; reflexivity. Qed.

Lemma dequeue_queue_ok lo : queue_ok lo -> queue_ok (dequeue lo).1.
Proof.
  unfold dequeue. intros [Hn Hm]. destruct (out_queue lo) as [|n q] eqn:E; [simpl; split; by rewrite E|].
  split; cbn [fst queue_num queue_mem out_queue set_queue_mem set_queue_num set_out_queue].
  - rewrite Hn. cbn [length]. lia.
  - rewrite Hm, queue_weight_cons. unfold size_t_wrap.
  rewrite Zminus_mod_idemp_l. f_equal. lia.
Qed.

Lemma link_put_queue_ok clk tv l m :
  queue_ok (lout l) -> queue_ok (lout (link_put clk tv l m).1).
Proof.
  unfold link_put. destruct (gale_time_now clk tv) as [when clk']. intros [Hn Hm].
  unfold queue_ok. rsimpl. rewrite lout_activate. rsimpl. split.
  - rewrite Hn, ?length_app. cbn [length]. lia.
  - rewrite Hm, ?queue_weight_app, ?queue_weight_cons, ?queue_weight_nil. unfold size_t_wrap.
    rewrite Zplus_mod_idemp_l. f_equal. cbn [link_msg]. lia.
Qed.

Lemma link_queue_drop_queue_ok l : queue_ok (lout l) -> queue_ok (lout (link_queue_drop l)).
Proof.
  unfold link_queue_drop. intros H. rewrite lout_activate.
  case_match; [done|]. by apply dequeue_queue_ok.
Qed.

#[export] Hint Resolve queue_ok_new dequeue_queue_ok link_put_queue_ok link_queue_drop_queue_ok : gale.

(** [dequeue] hands out the oldest queued message and keeps the rest. *)
Lemma dequeue_cons lo n q :
  out_queue lo = n :: q -> (dequeue lo).2 = Some (link_msg n) /\ out_queue (dequeue lo).1 = q.
Proof. unfold dequeue. by intros ->. Qed.

Lemma dequeue_nil lo : out_queue lo = [] -> dequeue lo = (lo, None).
Proof. unfold dequeue. by intros ->. Qed.

Lemma out_queue_dequeue lo : out_queue (dequeue lo).1 = tail (out_queue lo).
Proof. unfold dequeue. destruct (out_queue lo) eqn:E; simpl; [by rewrite E|done]. Qed.

(** ** The queue against its abstract specification *)

(** The specification of the outbound queue: a FIFO of packets. *)
Fixpoint fifo_run (q : list gale_packet) (ops : list queue_op) : list gale_packet :=
  match ops with
  | [] => q
  | Q_put m _ :: ops' => fifo_run (q ++ [m]) ops'
  | Q_drop :: ops' => fifo_run (tail q) ops'
  end.

Lemma out_queue_link_put clk tv l m :
  map link_msg (out_queue (lout (link_put clk tv l m).1)) = map link_msg (out_queue (lout l)) ++ [m].
Proof.
  unfold link_put. destruct (gale_time_now clk tv). rsimpl. rewrite lout_activate. rsimpl.
  by rewrite map_app.
Qed.

Lemma out_queue_link_queue_drop l :
  map link_msg (out_queue (lout (link_queue_drop l))) = tail (map link_msg (out_queue (lout l))).
Proof.
  unfold link_queue_drop. rewrite lout_activate.
  destruct (out_queue (lout l)) as [|n q] eqn:E; [by rewrite E|].
  rsimpl. by rewrite out_queue_dequeue, E.
Qed.

(** ** Properties of the queue *)

(** C4: for every sequence of [link_put] and [link_queue_drop] calls
    from a consistent link, [queue_num] is the number of queued
    messages and [queue_mem] the sum of their [message_size], computed
    modulo [2^64] as [size_t] does. *)
Theorem queue_accounting clk l ops :
  queue_ok (lout l) -> queue_ok (lout (run_queue_ops clk l ops).1).
Proof.
  revert clk l. induction ops as [|[m tv|] ops IH]; intros clk l H; simpl; [done| |].
  - destruct (link_put clk tv l m) as [l' clk'] eqn:E. apply IH.
    change l' with (l', clk').1. rewrite <- E. by apply link_put_queue_ok.
  - apply IH. by apply link_queue_drop_queue_ok.
Qed.

Lemma queue_accounting_witness :
  let l := new_link in
  let m := mk_packet [1; 2] [Byte.x00] in
  queue_ok (lout l) /\
  queue_ok (lout (run_queue_ops gale_time_zero l [Q_put m (mk_timeval 5 0); Q_put m (mk_timeval 6 0); Q_drop]).1).
Proof. intros l m. split; [split; reflexivity|]. apply queue_accounting. split; reflexivity. Defined.

(** C5: the outbound queue refines a FIFO: after any sequence of
    [link_put] and [link_queue_drop], the queued messages are those of
    the FIFO specification, in enqueue order. *)
Theorem queue_refines_fifo clk l ops :
  map link_msg (out_queue (lout (run_queue_ops clk l ops).1))
  = fifo_run (map link_msg (out_queue (lout l))) ops.
Proof.
  revert clk l. induction ops as [|[m tv|] ops IH]; intros clk l; simpl; [done| |].
  - destruct (link_put clk tv l m) as [l' clk'] eqn:E. rewrite IH.
    change l' with (l', clk').1. rewrite <- E. by rewrite out_queue_link_put.
  - by rewrite IH, out_queue_link_queue_drop.
Qed.
