(* ===== verification/Input.v ===== *)
(** * Input: the input state machine of [core_link.c] and its driver

    Each state function [ist_*] of the source sets the machine's [next]
    function, its [ready] predicate and the number of bytes it wants
    ([data.l]); each [ifn_*] consumes exactly those bytes.  Here an
    [ist_*] is a function of the link's input half returning the new
    half and the new [input_state]; an [ifn_*] also receives the bytes.
    Both return an [outcome]: an [assert] of the source that fails is an
    [Abort] naming it.  A warning ([gale_alert]) is appended to the
    link's [in_alerts].  [input_process] is the loop of the input buffer of
    [io.c] (not in this repository, modelled from the specification):
    while the state is ready and enough bytes are buffered, hand them to
    [next]. *)

From S2P Require Import Prelude Wire GaleMap GaleTime LinkState.

Local Open Scope gale_scope.

Abbreviation istep := (outcome (link_in * input_state)).

(** [gale_alert(GALE_WARNING,...,0)]: the warning is printed. *)
Definition gale_alert (w : warning) (l : link_in) : link_in := set_in_alerts (in_alerts l ++ [w]) l.

(** What each warning says; the version is printed with
    [gale_text_from_number], a libgale function outside the repository. *)
Section Alerts.
Context (gale_text_from_number : Z -> Z -> Z -> text).

Definition warning_text (w : warning) : text :=
  match w with
  | W_version version =>
      G_ "remote protocol v" ++ gale_text_from_number version 10 0
      ++ G_ " > our protocol v" ++ gale_text_from_number PROTOCOL_VERSION 10 0
  | W_oversize => G_ "oversize message dropped"
  | W_unknown_format => G_ "unknown message format"
  | W_invalid => G_ "invalid message ignored"
  | W_malformed => G_ "ignoring malformed message"
  | W_truncated => G_ "ignoring truncated message"
  end.

End Alerts.

(** ** State functions *)

Definition ist_version : input_state :=
  mk_input_state Ifn_version Input_always_ready gale_u32_size.

Definition ist_idle (l : link_in) : istep :=
  ASSERT (in_length l =? 0) AT "ist_idle: 0 == in_length";
  Done (l, mk_input_state Ifn_opcode Input_always_ready (2 * gale_u32_size)).

Definition ist_unknown (l : link_in) : istep :=
  if in_length l =? 0 then ist_idle l
  else Done (l, mk_input_state Ifn_unknown Input_always_ready
                  (if in_length l >? SIZE_LIMIT then SIZE_LIMIT else in_length l)).

Definition ist_message (l : link_in) : istep :=
  if gale_u32_size >? in_length l then ist_unknown (gale_alert W_truncated l)
  else Done (l, mk_input_state Ifn_category_len
                  (if in_opcode l =? opcode_puff then Ifn_message_ready else Input_always_ready)
                  gale_u32_size).

(** The [switch] of [ist_text]: the slot [l->in_text] is pointed to. *)
Definition text_slot_of (o : option opcode) : option text_slot :=
  match o with
  | Some Op_gimme => Some Slot_gimme
  | Some Op_publish => Some Slot_publish
  | Some Op_watch => Some Slot_watch
  | Some Op_forget => Some Slot_forget
  | Some Op_complete => Some Slot_complete
  | Some Op_assert => Some Slot_assert_cat
  | Some Op_retract => Some Slot_retract_cat
  | _ => None
  end.

Definition ist_text (l : link_in) : istep :=
  match text_slot_of (decode_opcode (in_opcode l)) with
  | Some s => Done (set_in_text s l, mk_input_state Ifn_text Ifn_text_ready (in_length l))
  | None => Abort "ist_text: assert(0)"
  end.

(** The [switch] of [ist_cid]: the slot [l->in_cid] is pointed to. *)
Definition cid_slot_of (o : option opcode) : option cid_slot :=
  match o with
  | Some Op_assert => Some Cid_assert
  | Some Op_retract => Some Cid_retract
  | Some Op_fetch => Some Cid_fetch
  | Some Op_miss => Some Cid_miss
  | Some Op_supply => Some Cid_supply
  | _ => None
  end.

Definition ist_cid (l : link_in) : istep :=
  if in_length l <? CID_LENGTH then ist_unknown l
  else match cid_slot_of (decode_opcode (in_opcode l)) with
       | Some s => Done (set_in_cid s l, mk_input_state Ifn_cid Ifn_cid_ready CID_LENGTH)
       | None => Abort "ist_cid: assert(0)"
       end.

(** ** Ready predicates *)

Definition ifn_message_ready (l : link_in) : bool :=
  match in_puff l with None => true | Some _ => false end.

Definition ifn_text_ready (l : link_in) : bool :=
  match decode_opcode (in_opcode l) with
  | Some Op_gimme | Some Op_publish => true
  | _ => length (get_text_slot (in_text l) l) =? 0
  end%nat.

Definition ifn_cid_ready (l : link_in) : bool :=
  (length (get_cid_slot (in_cid l) l) =? 0)%nat.

Definition run_ready (r : iready) (l : link_in) : bool :=
  match r with
  | Input_always_ready => true
  | Ifn_message_ready => ifn_message_ready l
  | Ifn_text_ready => ifn_text_ready l
  | Ifn_cid_ready => ifn_cid_ready l
  end.

(** ** Next functions *)

Definition ifn_version (st : input_state) (l : link_in) (data : bytes) : istep :=
  match gale_unpack_u32 data with
  | None => Abort "ifn_version: 0 == inp->data.l"
  | Some (version, rest) =>
      ASSERT (length rest =? 0)%nat AT "ifn_version: 0 == inp->data.l";
      let l := if version >? PROTOCOL_VERSION
               then set_in_version PROTOCOL_VERSION (gale_alert (W_version version) l)
               else set_in_version version l in
      ist_idle (set_in_length 0 l)
  end.

Definition ifn_opcode (st : input_state) (l : link_in) (data : bytes) : istep :=
  match gale_unpack_u32 data with
  | None => Abort "ifn_opcode: 0 == inp->data.l"
  | Some (op, d1) =>
    match gale_unpack_u32 d1 with
    | None => Abort "ifn_opcode: 0 == inp->data.l"
    | Some (len, rest) =>
      ASSERT (length rest =? 0)%nat AT "ifn_opcode: 0 == inp->data.l";
      let l := set_in_length len (set_in_opcode op l) in
      if in_length l >? SIZE_LIMIT then ist_unknown (gale_alert W_oversize l)
      else match decode_opcode (in_opcode l) with
           | Some (Op_puff | Op_will) => ist_message l
           | Some (Op_gimme | Op_publish | Op_watch | Op_forget | Op_complete) => ist_text l
           | Some (Op_assert | Op_retract | Op_fetch | Op_miss | Op_supply) => ist_cid l
           | None => ist_unknown l
           end
    end
  end.

(** The reserved word at the start of a message body: a missing or
    non-zero one only warns. *)
Definition take_reserved (l : link_in) (data : bytes) : link_in * bytes :=
  match gale_unpack_u32 data with
  | Some (zero, d) => (if zero =? 0 then l else gale_alert W_unknown_format l, d)
  | None => (gale_alert W_unknown_format l, data)
  end.

(** The body of a message: the reserved word, then the content. *)
Definition ifn_message_body (st : input_state) (l : link_in) (data : bytes) : istep :=
  let l := set_in_length (in_length l - Z.of_nat (length data)) l in
  ASSERT (in_length l =? 0) AT "ifn_message_body: 0 == in_length";
  match in_msg l with
  | None => Abort "ifn_message_body: NULL != in_msg"
  | Some msg =>
    let '(l, data) := take_reserved l data in
    l' ← match gale_unpack_copy data (length data) with
         | Some (c, rest) =>
           if (length rest =? 0)%nat then
             let msg := mk_packet (routing msg) c in
             match decode_opcode (in_opcode l) with
             | Some Op_puff =>
                 ASSERT (ifn_message_ready l) AT "ifn_message_body: NULL == in_puff";
                 Done (set_in_puff (Some msg) l)
             | Some Op_will => Done (set_in_will (Some msg) l)
             | _ => Abort "ifn_message_body: assert(0)"
             end
           else Done (gale_alert W_invalid l)
         | None => Done (gale_alert W_invalid l)
         end;
    ist_idle (set_in_msg None l')
  end.

Definition ifn_message_category (st : input_state) (l : link_in) (data : bytes) : istep :=
  ASSERT (Z.of_nat (length data) <=? in_length l) AT "ifn_message_category: data.l <= in_length";
  let l := set_in_length (in_length l - Z.of_nat (length data)) l in
  match gale_unpack_text_len data (length data / 2) with
  | Some (r, _) =>
      Done (set_in_msg (Some (mk_packet r [])) l,
            mk_input_state Ifn_message_body Input_always_ready (in_length l))
  | None => ist_unknown (set_in_msg None l)
  end.

Definition ifn_category_len (st : input_state) (l : link_in) (data : bytes) : istep :=
  ASSERT (Z.of_nat (length data) <=? in_length l) AT "ifn_category_len: data.l <= in_length";
  let l := set_in_length (in_length l - Z.of_nat (length data)) l in
  match gale_unpack_u32 data with
  | None => Abort "ifn_category_len: 0 == inp->data.l"
  | Some (u, rest) =>
    ASSERT (length rest =? 0)%nat AT "ifn_category_len: 0 == inp->data.l";
    ASSERT (match in_msg l with None => true | Some _ => false end)
      AT "ifn_category_len: NULL == in_msg";
    if u >? in_length l then ist_unknown (gale_alert W_malformed l)
    else Done (l, mk_input_state Ifn_message_category (inp_ready st) u)
  end.

Definition ifn_text (st : input_state) (l : link_in) (data : bytes) : istep :=
  let len := (length data / 2)%nat in
  ASSERT (in_length l =? Z.of_nat (length data)) AT "ifn_text: in_length == data.l";
  let l := set_in_length (in_length l - Z.of_nat (length data)) l in
  match gale_unpack_text_len data len with
  | Some (t, _) => ist_idle (set_text_slot (in_text l) t l)
  | None => ist_unknown l
  end.

Definition ifn_supply_data (st : input_state) (l : link_in) (data : bytes) : istep :=
  ASSERT (Z.of_nat (length data) =? in_length l) AT "ifn_supply_data: data.l == in_length";
  let l := set_in_length (in_length l - Z.of_nat (length data)) l in
  ist_idle (set_in_supply_data data l).

Definition ifn_cid (st : input_state) (l : link_in) (data : bytes) : istep :=
  ASSERT (CID_LENGTH =? Z.of_nat (length data)) AT "ifn_cid: CID_LENGTH == data.l";
  let l := set_in_length (in_length l - Z.of_nat (length data)) l in
  let l := set_cid_slot (in_cid l) data l in
  match decode_opcode (in_opcode l) with
  | Some (Op_assert | Op_retract) => ist_text l
  | Some (Op_fetch | Op_miss) => ist_idle l
  | Some Op_supply => Done (l, mk_input_state Ifn_supply_data Input_always_ready (in_length l))
  | _ => Abort "ifn_cid: assert(0)"
  end.

Definition ifn_unknown (st : input_state) (l : link_in) (data : bytes) : istep :=
  ASSERT (Z.of_nat (length data) <=? in_length l) AT "ifn_unknown: data.l <= in_length";
  ist_unknown (set_in_length (in_length l - Z.of_nat (length data)) l).

(** The indirect call [inp->next(inp)]. *)
Definition run_ifn (f : ifn) : input_state -> link_in -> bytes -> istep :=
  match f with
  | Ifn_version => ifn_version
  | Ifn_opcode => ifn_opcode
  | Ifn_category_len => ifn_category_len
  | Ifn_message_category => ifn_message_category
  | Ifn_message_body => ifn_message_body
  | Ifn_text => ifn_text
  | Ifn_cid => ifn_cid
  | Ifn_supply_data => ifn_supply_data
  | Ifn_unknown => ifn_unknown
  end.

(** ** The input buffer of [io.c] *)

(** One step: if the state is ready and [data.l] bytes are buffered,
    consume them and run [next]; [None] when the machine waits (not
    ready, or not enough bytes). *)
Definition input_step (l : link_in) (ib : input_buffer) : option (outcome (link_in * input_buffer)) :=
  let st := ib_state ib in
  let n := Z.to_nat (inp_len st) in
  if run_ready (inp_ready st) l && (n <=? length (ib_data ib))%nat then
    Some (r ← run_ifn (inp_next st) st l (take n (ib_data ib));
          Done (r.1, mk_input_buffer r.2 (drop n (ib_data ib))))
  else None.

(** The processing loop, with fuel: [None] when the fuel runs out. *)
Fixpoint input_process (fuel : nat) (l : link_in) (ib : input_buffer)
    : option (outcome (link_in * input_buffer)) :=
  match fuel with
  | O => None
  | S fuel' =>
      match input_step l ib with
      | None => Some (Done (l, ib))
      | Some (Abort s) => Some (Abort s)
      | Some (Done (l', ib')) => input_process fuel' l' ib'
      end
  end.

(** [create_input_buffer(initial)] with [ist_version]. *)
Definition create_input_buffer : input_buffer := mk_input_buffer ist_version [].

(** [input_buffer_read]: the bytes read from the descriptor are
    appended and processed. *)
Definition input_buffer_feed (fuel : nat) (l : link_in) (ib : input_buffer) (bs : bytes) :=
  input_process fuel l (mk_input_buffer (ib_state ib) (ib_data ib ++ bs)).

(** ** Well-formed machine states *)

Definition message_op (l : link_in) : Prop :=
  decode_opcode (in_opcode l) = Some Op_puff \/ decode_opcode (in_opcode l) = Some Op_will.

Definition msg_ready_of (l : link_in) : iready :=
  if in_opcode l =? opcode_puff then Ifn_message_ready else Input_always_ready.

Definition unknown_len (n : Z) : Z := if n >? SIZE_LIMIT then SIZE_LIMIT else n.

(** What holds of the link's input half in each state of the machine:
    the bytes the state wants agree with the frame length still to be
    read ([in_length]), the slot pointers agree with the opcode, and a
    message body for a [puff] is only read when [in_puff] is free. *)
Definition input_wf (l : link_in) (st : input_state) : Prop :=
  0 <= in_length l < 2 ^ 32 /\
  match inp_next st with
  | Ifn_version =>
      in_msg l = None /\ inp_len st = 4 /\ inp_ready st = Input_always_ready
  | Ifn_opcode =>
      in_length l = 0 /\ in_msg l = None /\ inp_len st = 8 /\ inp_ready st = Input_always_ready
  | Ifn_category_len =>
      in_msg l = None /\ inp_len st = 4 /\ 4 <= in_length l /\ message_op l
      /\ inp_ready st = msg_ready_of l
  | Ifn_message_category =>
      in_msg l = None /\ 0 <= inp_len st <= in_length l /\ message_op l
      /\ inp_ready st = msg_ready_of l
  | Ifn_message_body =>
      in_msg l <> None /\ inp_len st = in_length l /\ message_op l
      /\ (in_opcode l = opcode_puff -> in_puff l = None)
      /\ inp_ready st = Input_always_ready
  | Ifn_text =>
      in_msg l = None /\ inp_len st = in_length l
      /\ text_slot_of (decode_opcode (in_opcode l)) = Some (in_text l)
      /\ inp_ready st = Ifn_text_ready
  | Ifn_cid =>
      in_msg l = None /\ inp_len st = CID_LENGTH /\ CID_LENGTH <= in_length l
      /\ cid_slot_of (decode_opcode (in_opcode l)) = Some (in_cid l)
      /\ inp_ready st = Ifn_cid_ready
  | Ifn_supply_data =>
      in_msg l = None /\ inp_len st = in_length l /\ decode_opcode (in_opcode l) = Some Op_supply
      /\ inp_ready st = Input_always_ready
  | Ifn_unknown =>
      in_msg l = None /\ 0 < in_length l /\ inp_len st = unknown_len (in_length l)
      /\ inp_ready st = Input_always_ready
  end.

(** The one state from which the machine aborts: a content id of a
    [fetch] or [miss] frame whose declared length exceeds the 20 bytes
    of the id (the [assert] of [ist_idle] then sees bytes left). *)
Definition cid_overlong (l : link_in) (st : input_state) : bool :=
  match inp_next st, decode_opcode (in_opcode l) with
  | Ifn_cid, Some (Op_fetch | Op_miss) => in_length l >? CID_LENGTH
  | _, _ => false
  end.

(** ** Lemmas on the state functions *)

Ltac wf_solve := unfold input_wf, unknown_len, gale_u32_size, CID_LENGTH in *; simpl;
  bool_to_prop; split_and!; try done; try lia.

Lemma decode_opcode_Some z o : decode_opcode z = Some o -> z = opcode_code o.
Proof.
  unfold decode_opcode. repeat (case_match; try done); by intros [= <-].
Qed.

Lemma decode_opcode_code o : decode_opcode (opcode_code o) = Some o.
Proof. by destruct o. Qed.

Lemma ist_idle_ok l :
  in_length l = 0 -> ist_idle l = Done (l, mk_input_state Ifn_opcode Input_always_ready 8).
Proof. intros H. unfold ist_idle. by rewrite H. Qed.

Lemma ist_idle_wf l :
  in_length l = 0 -> in_msg l = None ->
  exists l' st', ist_idle l = Done (l', st') /\ input_wf l' st'.
Proof. intros H1 H2. rewrite ist_idle_ok by done. eexists _, _. split; [done|]. wf_solve. Qed.

Lemma ist_unknown_wf l :
  0 <= in_length l < 2 ^ 32 -> in_msg l = None ->
  exists l' st', ist_unknown l = Done (l', st') /\ input_wf l' st'.
Proof.
  intros H1 H2. unfold ist_unknown. destruct (Z.eqb_spec (in_length l) 0).
  - by apply ist_idle_wf.
  - eexists _, _. split; [done|]. wf_solve.
Qed.

Lemma ist_message_wf l :
  0 <= in_length l < 2 ^ 32 -> in_msg l = None -> message_op l ->
  exists l' st', ist_message l = Done (l', st') /\ input_wf l' st'.
Proof.
  intros H1 H2 H3. unfold ist_message. destruct (Z.gtb_spec gale_u32_size (in_length l)).
  - by apply ist_unknown_wf.
  - eexists _, _. split; [done|]. wf_solve.
Qed.

Lemma ist_text_wf l :
  0 <= in_length l < 2 ^ 32 -> in_msg l = None ->
  text_slot_of (decode_opcode (in_opcode l)) <> None ->
  exists l' st', ist_text l = Done (l', st') /\ input_wf l' st'.
Proof.
  intros H1 H2 H3. unfold ist_text. destruct (text_slot_of _) as [s|] eqn:E; [|done].
  eexists _, _. split; [done|]. wf_solve.
Qed.

Lemma ist_cid_wf l :
  0 <= in_length l < 2 ^ 32 -> in_msg l = None ->
  cid_slot_of (decode_opcode (in_opcode l)) <> None ->
  exists l' st', ist_cid l = Done (l', st') /\ input_wf l' st'.
Proof.
  intros H1 H2 H3. unfold ist_cid. destruct (Z.ltb_spec (in_length l) CID_LENGTH).
  - by apply ist_unknown_wf.
  - destruct (cid_slot_of _) as [s|] eqn:E; [|done].
    eexists _, _. split; [done|]. wf_solve.
Qed.

(** ** Lemmas on the next functions *)

Lemma ifn_version_wf st l data :
  length data = 4%nat -> in_msg l = None ->
  exists l' st', ifn_version st l data = Done (l', st') /\ input_wf l' st'.
Proof.
  intros Hl Hm. destruct (gale_unpack_u32_len4 data Hl) as (u & Hu & Hb).
  unfold ifn_version. rewrite Hu. cbn [c_assert length Nat.eqb]. case_match; by apply ist_idle_wf.
Qed.

Lemma ifn_opcode_wf st l data :
  length data = 8%nat -> in_msg l = None ->
  exists l' st', ifn_opcode st l data = Done (l', st') /\ input_wf l' st'.
Proof.
  intros Hl Hm. destruct (gale_unpack_u32_ge4 data) as (op & Hop & _); [lia|].
  destruct (gale_unpack_u32_len4 (drop 4 data)) as (len & Hlen & Hb); [rewrite length_drop; lia|].
  unfold ifn_opcode. rewrite Hop, Hlen. cbn [c_assert length Nat.eqb].
  set (l1 := set_in_length len (set_in_opcode op l)).
  assert (Hb1 : 0 <= in_length l1 < 2 ^ 32) by done.
  assert (Hm1 : in_msg l1 = None) by done.
  case_match; [by apply ist_unknown_wf|].
  destruct (decode_opcode (in_opcode l1)) as [[]|] eqn:E;
    first [ apply ist_message_wf; try done; unfold message_op; rewrite E; by auto
          | apply ist_text_wf; by rewrite ?E
          | apply ist_cid_wf; by rewrite ?E
          | by apply ist_unknown_wf ].
Qed.

Lemma ifn_category_len_wf st l data :
  length data = 4%nat -> 4 <= in_length l < 2 ^ 32 -> in_msg l = None ->
  inp_ready st = msg_ready_of l -> message_op l ->
  exists l' st', ifn_category_len st l data = Done (l', st') /\ input_wf l' st'.
Proof.
  intros Hl Hlen Hm Hr Hop. destruct (gale_unpack_u32_len4 data Hl) as (u & Hu & Hb).
  unfold ifn_category_len. rewrite Hl, Hu. cbn [length Nat.eqb].
  rewrite (proj2 (Z.leb_le _ _)) by lia. cbn [c_assert]. rsimpl. rewrite Hm. cbn [c_assert].
  case_match; [apply ist_unknown_wf; rsimpl; [lia|done]|].
  eexists _, _. split; [done|]. wf_solve.
Qed.

Lemma ifn_message_category_wf st l data :
  Z.of_nat (length data) <= in_length l < 2 ^ 32 -> in_msg l = None -> message_op l ->
  (in_opcode l = opcode_puff -> in_puff l = None) ->
  exists l' st', ifn_message_category st l data = Done (l', st') /\ input_wf l' st'.
Proof.
  intros Hlen Hm Hop Hp. unfold ifn_message_category.
  rewrite (proj2 (Z.leb_le _ _)) by lia. cbn [c_assert].
  destruct (gale_unpack_text_len_enough data (length data / 2)) as [r Hr];
    [pose proof (Nat.Div0.mul_div_le (length data) 2); lia|].
  rewrite Hr. eexists _, _. split; [done|]. wf_solve.
Qed.

(** The reserved word only adds warnings. *)
Lemma take_reserved_alerts l data : exists ws, (take_reserved l data).1 = set_in_alerts ws l.
Proof.
  unfold take_reserved. repeat case_match; cbn;
    first [exists (in_alerts l); by destruct l | eexists; reflexivity].
Qed.

Lemma take_reserved_zero l c : take_reserved l (gale_pack_u32 0 ++ c) = (l, c).
Proof. unfold take_reserved. by rewrite gale_unpack_pack_u32. Qed.

(** A non-zero reserved word only warns: the content after it is kept. *)
Lemma take_reserved_nonzero l z c :
  z mod 2 ^ 32 <> 0 -> take_reserved l (gale_pack_u32 z ++ c) = (gale_alert W_unknown_format l, c).
Proof.
  intros Hz. unfold take_reserved. rewrite gale_unpack_pack_u32.
  by rewrite (proj2 (Z.eqb_neq _ _) Hz).
Qed.

Lemma ifn_message_body_wf st l data :
  Z.of_nat (length data) = in_length l -> in_msg l <> None -> message_op l ->
  (in_opcode l = opcode_puff -> in_puff l = None) ->
  exists l' st', ifn_message_body st l data = Done (l', st') /\ input_wf l' st'.
Proof.
  intros Hlen Hm Hop Hp. unfold ifn_message_body. rsimpl.
  rewrite (proj2 (Z.eqb_eq _ _)) by lia. cbn [c_assert].
  destruct (in_msg l) as [msg|]; [|done].
  match goal with |- context [take_reserved ?l0 data] =>
    destruct (take_reserved_alerts l0 data) as [ws Hws]; destruct (take_reserved l0 data) as [l1 d] end.
  cbn in Hws; subst l1. cbn [set_in_alerts set_in_length in_opcode].
  rewrite gale_unpack_copy_all. cbn [length Nat.eqb].
  destruct Hop as [Hop|Hop]; rewrite Hop.
  - apply decode_opcode_Some in Hop. unfold ifn_message_ready. rsimpl.
    rewrite Hp by done. cbn [c_assert]. apply ist_idle_wf; rsimpl; [lia|done].
  - apply ist_idle_wf; rsimpl; [lia|done].
Qed.

Lemma ifn_text_wf st l data :
  Z.of_nat (length data) = in_length l -> 0 <= in_length l < 2 ^ 32 -> in_msg l = None ->
  exists l' st', ifn_text st l data = Done (l', st') /\ input_wf l' st'.
Proof.
  intros Hlen Hb Hm. unfold ifn_text.
  rewrite (proj2 (Z.eqb_eq _ _)) by lia. cbn [c_assert].
  destruct (gale_unpack_text_len_enough data (length data / 2)) as [t Ht];
    [pose proof (Nat.Div0.mul_div_le (length data) 2); lia|].
  rewrite Ht. apply ist_idle_wf; autorewrite with gale_rw; rsimpl; [lia|done].
Qed.

Lemma ifn_supply_data_wf st l data :
  Z.of_nat (length data) = in_length l -> in_msg l = None ->
  exists l' st', ifn_supply_data st l data = Done (l', st') /\ input_wf l' st'.
Proof.
  intros Hlen Hm. unfold ifn_supply_data.
  rewrite (proj2 (Z.eqb_eq _ _)) by lia. cbn [c_assert].
  apply ist_idle_wf; rsimpl; [lia|done].
Qed.

Lemma ifn_unknown_wf st l data :
  Z.of_nat (length data) <= in_length l < 2 ^ 32 -> in_msg l = None ->
  exists l' st', ifn_unknown st l data = Done (l', st') /\ input_wf l' st'.
Proof.
  intros Hlen Hm. unfold ifn_unknown.
  rewrite (proj2 (Z.leb_le _ _)) by lia. cbn [c_assert].
  apply ist_unknown_wf; rsimpl; [lia|done].
Qed.

Lemma ifn_cid_wf st l data :
  length data = 20%nat -> CID_LENGTH <= in_length l < 2 ^ 32 -> in_msg l = None ->
  cid_slot_of (decode_opcode (in_opcode l)) = Some (in_cid l) ->
  (decode_opcode (in_opcode l) = Some Op_fetch \/ decode_opcode (in_opcode l) = Some Op_miss ->
   in_length l = CID_LENGTH) ->
  exists l' st', ifn_cid st l data = Done (l', st') /\ input_wf l' st'.
Proof.
  intros Hl Hlen Hm Hs Hfm. unfold ifn_cid. rewrite Hl. cbn [c_assert CID_LENGTH Z.of_nat Z.eqb].
  set (l1 := set_cid_slot _ data _).
  assert (Hb1 : 0 <= in_length l1 < 2 ^ 32) by (subst l1; autorewrite with gale_rw; rsimpl; unfold CID_LENGTH in *; lia).
  assert (Hm1 : in_msg l1 = None) by (subst l1; by autorewrite with gale_rw).
  assert (Ho1 : in_opcode l1 = in_opcode l) by (subst l1; by autorewrite with gale_rw).
  rewrite Ho1. destruct (decode_opcode (in_opcode l)) as [[]|] eqn:E; try done.
  - apply ist_text_wf; [done|done|]. by rewrite Ho1, E.
  - apply ist_text_wf; [done|done|]. by rewrite Ho1, E.
  - apply ist_idle_wf; [|done]. subst l1. autorewrite with gale_rw. rsimpl. rewrite Hfm by auto. unfold CID_LENGTH. lia.
  - apply ist_idle_wf; [|done]. subst l1. autorewrite with gale_rw. rsimpl. rewrite Hfm by auto. unfold CID_LENGTH. lia.
  - eexists _, _. split; [done|]. wf_solve. by rewrite Ho1.
Qed.

(** ** One step of the machine *)

Lemma ready_puff_free l st :
  inp_ready st = msg_ready_of l -> run_ready (inp_ready st) l = true ->
  in_opcode l = opcode_puff -> in_puff l = None.
Proof.
  intros Hr Hready Hop. rewrite Hr in Hready. unfold msg_ready_of in Hready.
  rewrite Hop in Hready. simpl in Hready. unfold ifn_message_ready in Hready.
  by destruct (in_puff l).
Qed.

Lemma cid_not_overlong l st :
  inp_next st = Ifn_cid -> cid_overlong l st = false -> CID_LENGTH <= in_length l ->
  (decode_opcode (in_opcode l) = Some Op_fetch \/ decode_opcode (in_opcode l) = Some Op_miss ->
   in_length l = CID_LENGTH).
Proof.
  unfold cid_overlong. intros Hn Ho Hle [He|He]; rewrite Hn, He in Ho; bool_to_prop; lia.
Qed.

(** From a well-formed state that is ready, the next function applied
    to the bytes it asked for succeeds and yields a well-formed state,
    unless the state is an over-long content id. *)
Lemma run_ifn_wf l st data :
  input_wf l st -> run_ready (inp_ready st) l = true ->
  length data = Z.to_nat (inp_len st) -> cid_overlong l st = false ->
  exists l' st', run_ifn (inp_next st) st l data = Done (l', st') /\ input_wf l' st'.
Proof.
  intros [Hb Hs] Hready Hl Ho. destruct (inp_next st) eqn:En; simpl.
  - destruct Hs as (Hm & Hn & _). apply ifn_version_wf; [lia|done].
  - destruct Hs as (_ & Hm & Hn & _). apply ifn_opcode_wf; [lia|done].
  - destruct Hs as (Hm & Hn & Hge & Hop & Hr). apply ifn_category_len_wf; try done; lia.
  - destruct Hs as (Hm & Hn & Hop & Hr). apply ifn_message_category_wf; try done; [lia|].
    by apply (ready_puff_free l st).
  - destruct Hs as (Hm & Hn & Hop & Hp & Hr). apply ifn_message_body_wf; try done; lia.
  - destruct Hs as (Hm & Hn & _). apply ifn_text_wf; try done; lia.
  - destruct Hs as (Hm & Hn & Hge & Hsl & Hr).
    apply ifn_cid_wf; [by rewrite Hl, Hn | unfold CID_LENGTH in *; lia | done | done |].
    by apply (cid_not_overlong l st).
  - destruct Hs as (Hm & Hn & _). apply ifn_supply_data_wf; try done; lia.
  - destruct Hs as (Hm & Hpos & Hn & _). apply ifn_unknown_wf; try done.
    unfold unknown_len in Hn. case_match; bool_to_prop; unfold SIZE_LIMIT in *; lia.
Qed.

(** An over-long content id of a [fetch] or [miss] frame aborts the
    program at the [assert] of [ist_idle]. *)
Lemma run_ifn_overlong l st data :
  input_wf l st -> length data = Z.to_nat (inp_len st) -> cid_overlong l st = true ->
  run_ifn (inp_next st) st l data = Abort "ist_idle: 0 == in_length".
Proof.
  intros [Hb Hs] Hl Ho. unfold cid_overlong in Ho.
  destruct (inp_next st) eqn:En; try done. simpl.
  destruct Hs as (Hm & Hn & Hge & Hsl & Hr). unfold ifn_cid.
  rewrite Hl, Hn. cbn [c_assert CID_LENGTH Z.to_nat Z.of_nat Z.eqb].
  destruct (decode_opcode (in_opcode l)) as [[]|] eqn:E; try done;
    rewrite set_cid_slot_in_opcode; rsimpl; rewrite E; unfold ist_idle;
    autorewrite with gale_rw; rsimpl; bool_to_prop; unfold CID_LENGTH in *;
    rewrite (proj2 (Z.eqb_neq _ _)) by lia; done.
Qed.

Lemma input_step_wf l ib r :
  input_wf l (ib_state ib) -> input_step l ib = Some r ->
  (exists l' ib', r = Done (l', ib') /\ input_wf l' (ib_state ib'))
  \/ (r = Abort "ist_idle: 0 == in_length" /\ cid_overlong l (ib_state ib) = true).
Proof.
  intros Hwf. unfold input_step.
  destruct (run_ready _ l && _) eqn:Hc; [|done]. intros [= <-]. bool_to_prop.
  assert (Hlen : length (take (Z.to_nat (inp_len (ib_state ib))) (ib_data ib))
                 = Z.to_nat (inp_len (ib_state ib))) by (rewrite length_take; lia).
  destruct (cid_overlong l (ib_state ib)) eqn:Ho.
  - right. by rewrite run_ifn_overlong.
  - left. destruct (run_ifn_wf l _ _ Hwf H Hlen Ho) as (l' & st' & -> & Hwf').
    by eexists _, _.
Qed.

(** C3: decoding never breaks the machine's invariant, and the only
    [assert] of the input machine that bytes from the peer can make
    fail is the one of [ist_idle] ([0 == in_length]). *)
Theorem input_process_safe fuel l ib r :
  input_wf l (ib_state ib) -> input_process fuel l ib = Some r ->
  (exists l' ib', r = Done (l', ib') /\ input_wf l' (ib_state ib'))
  \/ r = Abort "ist_idle: 0 == in_length".
Proof.
  revert l ib. induction fuel as [|fuel IH]; intros l ib Hwf; simpl; [done|].
  destruct (input_step l ib) as [[[l' ib']|s]|] eqn:E.
  - destruct (input_step_wf l ib _ Hwf E) as [(? & ? & [= <- <-] & Hwf')|[? _]]; [|done].
    by apply IH.
  - intros [= <-]. destruct (input_step_wf l ib _ Hwf E) as [(? & ? & ? & _)|[-> _]]; [done|by right].
  - intros [= <-]. left. eauto.
Qed.

(** ** Termination of the driver *)

(** Within a frame, the states that may ask for no byte at all come in
    this order; every other step consumes at least one byte. *)
Definition state_rank (st : input_state) : nat :=
  match inp_next st with
  | Ifn_message_category => 2
  | Ifn_message_body | Ifn_text | Ifn_supply_data => 1
  | _ => 0
  end.

Definition input_measure (ib : input_buffer) : nat :=
  3 * length (ib_data ib) + state_rank (ib_state ib).

Lemma ist_idle_next l l' st' :
  ist_idle l = Done (l', st') -> inp_next st' = Ifn_opcode.
Proof. unfold ist_idle, c_assert. case_match; [|done]. by intros [= _ <-]. Qed.

Lemma ist_unknown_zero l : in_length l = 0 -> ist_unknown l = ist_idle l.
Proof. intros H. unfold ist_unknown. by rewrite H. Qed.


Lemma run_ifn_zero_rank l st l' st' :
  input_wf l st -> inp_len st = 0 -> run_ifn (inp_next st) st l [] = Done (l', st') ->
  (state_rank st' < state_rank st)%nat.
Proof.
  intros [Hb Hs] H0. unfold state_rank. destruct (inp_next st) eqn:En; simpl.
  - destruct Hs as (_ & Hn & _). by rewrite Hn in H0.
  - destruct Hs as (_ & _ & Hn & _). by rewrite Hn in H0.
  - destruct Hs as (_ & Hn & _). by rewrite Hn in H0.
  - unfold ifn_message_category. cbn [c_assert length Z.of_nat].
    rewrite (proj2 (Z.leb_le _ _)) by lia. simpl. intros E. injection E as _ <-. simpl. lia.
  - unfold ifn_message_body, c_assert. case_match; [|done]. case_match; [|done].
    intros E. apply bind_Done_inv in E as (a & _ & E). apply ist_idle_next in E. rewrite E. lia.
  - unfold ifn_text, c_assert. case_match; [|done].
    destruct (gale_unpack_text_len [] _) as [[t r]|] eqn:Eu; [|simpl in Eu; discriminate].
    intros E. apply ist_idle_next in E. rewrite E. lia.
  - destruct Hs as (_ & Hn & _). by rewrite Hn in H0.
  - unfold ifn_supply_data, c_assert. case_match; intros E; [|discriminate].
    apply ist_idle_next in E. rewrite E. lia.
  - destruct Hs as (_ & Hpos & Hn & _). unfold unknown_len in Hn.
    case_match; bool_to_prop; unfold SIZE_LIMIT in *; lia.
Qed.

Lemma input_step_measure l ib l' ib' :
  input_wf l (ib_state ib) -> input_step l ib = Some (Done (l', ib')) ->
  (input_measure ib' < input_measure ib)%nat.
Proof.
  intros Hwf. unfold input_step.
  destruct (run_ready _ l && _) eqn:Hc; [|done]. bool_to_prop. intros E. injection E as E.
  apply bind_Done_inv in E as ([l1 st1] & Hrun & E). injection E as <- <-.
  unfold input_measure; cbn [ib_data ib_state]. rewrite length_drop.
  destruct (Z.to_nat (inp_len (ib_state ib))) as [|n] eqn:En.
  - assert (Hz : inp_len (ib_state ib) = 0).
    { destruct Hwf as [Hb Hs]. unfold unknown_len, CID_LENGTH, SIZE_LIMIT in *.
      destruct (inp_next (ib_state ib)); decompose record Hs; try case_match; bool_to_prop; lia. }
    rewrite take_0 in Hrun. pose proof (run_ifn_zero_rank _ _ _ _ Hwf Hz Hrun). lia.
  - assert (state_rank st1 <= 2)%nat by (unfold state_rank; case_match; lia).
    assert (state_rank (ib_state ib) <= 2)%nat by (unfold state_rank; case_match; lia).
    lia.
Qed.

(** C12: the driver of the input machine terminates: from a well-formed
    state, fuel beyond three steps per buffered byte (plus the two
    states of a frame that may read nothing) is always enough for
    [input_process] to stop, waiting for bytes or for a drain. *)
Theorem input_process_terminates fuel l ib :
  input_wf l (ib_state ib) -> (input_measure ib < fuel)%nat -> input_process fuel l ib <> None.
Proof.
  revert l ib. induction fuel as [|fuel IH]; intros l ib Hwf Hf; [lia|]. simpl.
  destruct (input_step l ib) as [[[l' ib']|s]|] eqn:E; try done.
  pose proof (input_step_measure _ _ _ _ Hwf E).
  destruct (input_step_wf l ib _ Hwf E) as [(? & ? & [= <- <-] & Hwf')|[? _]]; [|done].
  apply IH; [done|lia].
Qed.

(** More fuel does not change a result that was reached. *)
Lemma input_process_more_fuel fuel k l ib r :
  input_process fuel l ib = Some r -> input_process (fuel + k) l ib = Some r.
Proof.
  revert l ib. induction fuel as [|fuel IH]; intros l ib; simpl; [done|].
  destruct (input_step l ib) as [[[l' ib']|s]|]; auto.
Qed.

(** ** Backpressure *)

Ltac input_unfold :=
  unfold run_ifn, ifn_version, ifn_opcode, ifn_category_len, ifn_message_category,
    ifn_message_body, ifn_text, ifn_supply_data, ifn_cid, ifn_unknown,
    ist_message, ist_text, ist_cid, ist_unknown, ist_idle, ifn_message_ready, c_assert,
    take_reserved, gale_alert in *.

(** Only the [puff] branch of [ifn_message_body] writes [in_puff], and
    only after its [assert] that the slot is free. *)
Lemma run_ifn_in_puff f st l data l' st' m :
  run_ifn f st l data = Done (l', st') -> in_puff l = Some m -> in_puff l' = Some m.
Proof.
  intros E Hp. destruct f; input_unfold;
    repeat (case_match; simplify_eq/=; autorewrite with gale_rw; try done).
Qed.

(** Only [ifn_text] writes a text slot, the one [l->in_text] points to. *)
Lemma run_ifn_text_slot f st l data l' st' s :
  run_ifn f st l data = Done (l', st') -> (f = Ifn_text -> in_text l <> s) ->
  get_text_slot s l' = get_text_slot s l.
Proof.
  intros E Hne. destruct f; input_unfold;
    repeat (case_match; simplify_eq/=; autorewrite with gale_rw; try done);
    try (rewrite get_text_slot_set_text_slot, decide_False; [done|]; intros ->; by apply Hne).
Qed.

(** Only [ifn_cid] writes a content-id slot, the one [l->in_cid] points to. *)
Lemma run_ifn_cid_slot f st l data l' st' c :
  run_ifn f st l data = Done (l', st') -> (f = Ifn_cid -> in_cid l <> c) ->
  get_cid_slot c l' = get_cid_slot c l.
Proof.
  intros E Hne. destruct f; input_unfold;
    repeat (case_match; simplify_eq/=; autorewrite with gale_rw; try done);
    try (rewrite get_cid_slot_set_cid_slot, decide_False; [done|]; intros ->; by apply Hne).
Qed.

(** A property of the link preserved by every step of the machine holds
    after the whole processing loop. *)
Lemma input_process_preserves (P : link_in -> Prop) fuel l ib l' ib' :
  (forall l ib l' ib', input_wf l (ib_state ib) -> P l ->
     input_step l ib = Some (Done (l', ib')) -> P l') ->
  input_wf l (ib_state ib) -> P l -> input_process fuel l ib = Some (Done (l', ib')) -> P l'.
Proof.
  intros Hstep. revert l ib. induction fuel as [|fuel IH]; intros l ib Hwf HP; simpl; [done|].
  destruct (input_step l ib) as [[[l1 ib1]|s]|] eqn:E; [|done|by intros [= <- <-]].
  destruct (input_step_wf l ib _ Hwf E) as [(? & ? & [= <- <-] & Hwf1)|[? _]]; [|done].
  intros Hp. eapply IH; [exact Hwf1| |exact Hp]. exact (Hstep l ib l1 ib1 Hwf HP E).
Qed.

Lemma input_step_run l ib l' ib' :
  input_step l ib = Some (Done (l', ib')) ->
  run_ready (inp_ready (ib_state ib)) l = true /\
  exists data, run_ifn (inp_next (ib_state ib)) (ib_state ib) l data = Done (l', ib_state ib').
Proof.
  unfold input_step. destruct (run_ready _ l && _) eqn:Hc; [|done]. bool_to_prop.
  intros E. injection E as E. apply bind_Done_inv in E as ([l1 st1] & Hrun & E).
  injection E as <- <-. split; [done|]. by eexists.
Qed.

(** The slots of the exactly-once kinds: everything but the subscription
    ([gimme]) and the published value, which only keep the last. *)
Definition exactly_once_text (s : text_slot) : bool :=
  match s with Slot_gimme | Slot_publish => false | _ => true end.

Lemma input_step_text_slot l ib l' ib' s :
  input_wf l (ib_state ib) -> exactly_once_text s = true -> get_text_slot s l <> [] ->
  input_step l ib = Some (Done (l', ib')) -> get_text_slot s l' = get_text_slot s l.
Proof.
  intros [_ Hs] Hk Hne E. apply input_step_run in E as (Hready & data & Hrun).
  eapply run_ifn_text_slot; [exact Hrun|]. intros Hn <-. rewrite Hn in Hs.
  destruct Hs as (_ & _ & Hsl & Hr). rewrite Hr in Hready. unfold run_ready, ifn_text_ready in Hready.
  destruct (decode_opcode (in_opcode l)) as [[]|]; simpl in Hsl; try discriminate;
    injection Hsl as Hsl; rewrite <- Hsl in *; simpl in Hk; try discriminate;
    apply Nat.eqb_eq, nil_length_inv in Hready; done.
Qed.

Lemma input_step_cid_slot l ib l' ib' c :
  input_wf l (ib_state ib) -> get_cid_slot c l <> [] ->
  input_step l ib = Some (Done (l', ib')) -> get_cid_slot c l' = get_cid_slot c l.
Proof.
  intros [_ Hs] Hne E. apply input_step_run in E as (Hready & data & Hrun).
  eapply run_ifn_cid_slot; [exact Hrun|]. intros Hn <-. rewrite Hn in Hs.
  destruct Hs as (_ & _ & _ & _ & Hr). rewrite Hr in Hready. unfold run_ready, ifn_cid_ready in Hready.
  by apply Nat.eqb_eq, nil_length_inv in Hready.
Qed.

(** ** Example byte streams *)

(** A frame as the peer writes it: opcode, length, body. *)
Definition example_frame (op : Z) (body : bytes) : bytes :=
  gale_pack_u32 op ++ gale_pack_u32 (Z.of_nat (length body)) ++ body.

(** A [puff] body: category length, category, reserved zero, content. *)
Definition example_puff_body (cat : text) (c : bytes) : bytes :=
  gale_pack_u32 (gale_text_len_size cat) ++ gale_pack_text_len cat ++ gale_pack_u32 0 ++ c.

Definition idle_input_state : input_state := mk_input_state Ifn_opcode Input_always_ready 8.

Definition example_two_puffs : bytes :=
  example_frame opcode_puff (example_puff_body [65] [Byte.x07])
  ++ example_frame opcode_puff (example_puff_body [66] [Byte.x08]).

(** ** Properties of the input machine *)

(** C6: exactly-once delivery of messages: while a decoded message is
    waiting in [in_puff], decoding more bytes (a second [puff] frame
    included) never replaces it, and never reaches an [assert] other
    than the one of [ist_idle]. *)
Theorem puff_not_overwritten fuel l ib r m :
  input_wf l (ib_state ib) -> in_puff l = Some m -> input_process fuel l ib = Some r ->
  (exists l' ib', r = Done (l', ib') /\ in_puff l' = Some m)
  \/ r = Abort "ist_idle: 0 == in_length".
Proof.
  intros Hwf Hp E. destruct (input_process_safe _ _ _ _ Hwf E) as [(l' & ib' & -> & _)| ->]; [left|by right].
  exists l', ib'. split; [done|].
  revert E. apply (input_process_preserves (fun l => in_puff l = Some m)); [|done|done].
  intros l1 ib1 l2 ib2 _ Hp1 Hs. apply input_step_run in Hs as (_ & data & Hrun).
  by eapply run_ifn_in_puff.
Qed.

Lemma puff_not_overwritten_witness :
  let m := mk_packet [64] [] in
  let l := set_in_puff (Some m) new_link_in in
  let ib := mk_input_buffer idle_input_state example_two_puffs in
  input_wf l (ib_state ib) /\ in_puff l = Some m /\
  exists r, input_process 40 l ib = Some r /\
    ((exists l' ib', r = Done (l', ib') /\ in_puff l' = Some m) \/ r = Abort "ist_idle: 0 == in_length").
Proof.
  intros m l ib. assert (Hwf : input_wf l (ib_state ib)) by (split; simpl; [lia|split_and!; done]).
  split; [done|]. split; [reflexivity|]. eexists. split; [vm_compute; reflexivity|].
  apply (puff_not_overwritten 40 l ib); [done|reflexivity|vm_compute; reflexivity].
Defined.

(** C7: exactly-once delivery of the texts of watch, forget, complete,
    assert and retract: a value not yet drained is never overwritten by
    decoding; the coalescing subscription and published value are the
    only text slots a new frame replaces. *)
Theorem text_slot_not_overwritten fuel l ib l' ib' s :
  input_wf l (ib_state ib) -> exactly_once_text s = true -> get_text_slot s l <> [] ->
  input_process fuel l ib = Some (Done (l', ib')) -> get_text_slot s l' = get_text_slot s l.
Proof.
  intros Hwf Hk Hne. apply (input_process_preserves (fun l1 => get_text_slot s l1 = get_text_slot s l));
    [|done|done].
  intros l1 ib1 l2 ib2 Hwf1 Heq Hs. rewrite <- Heq. apply (input_step_text_slot l1 ib1 l2 ib2); try done.
  by rewrite Heq.
Qed.

Definition example_two_watches : bytes :=
  example_frame opcode_watch (gale_pack_text_len [67; 68])
  ++ example_frame opcode_watch (gale_pack_text_len [69]).

Lemma text_slot_not_overwritten_witness :
  let l := set_in_watch [88] new_link_in in
  let ib := mk_input_buffer idle_input_state example_two_watches in
  input_wf l (ib_state ib) /\ exactly_once_text Slot_watch = true /\ get_text_slot Slot_watch l <> [] /\
  exists l' ib', input_process 40 l ib = Some (Done (l', ib')) /\
    get_text_slot Slot_watch l' = get_text_slot Slot_watch l.
Proof.
  intros l ib. assert (Hwf : input_wf l (ib_state ib)) by (split; simpl; [lia|split_and!; done]).
  split; [done|]. split; [reflexivity|]. split; [simpl; discriminate|].
  eexists _, _. split; [vm_compute; reflexivity|].
  eapply (text_slot_not_overwritten 40 l ib _ _ Slot_watch); [done|reflexivity|simpl; discriminate|].
  vm_compute; reflexivity.
Defined.

(** ** The machine as a step relation *)

Inductive in_step : link_in * input_buffer -> link_in * input_buffer -> Prop :=
| in_step_run l ib l' ib' :
    input_step l ib = Some (Done (l', ib')) -> in_step (l, ib) (l', ib').

Inductive in_star : link_in * input_buffer -> link_in * input_buffer -> Prop :=
| in_star_refl s : in_star s s
| in_star_step s1 s2 s3 : in_step s1 s2 -> in_star s2 s3 -> in_star s1 s3.

#[export] Hint Constructors in_step in_star : gale.

Lemma in_star_trans s1 s2 s3 : in_star s1 s2 -> in_star s2 s3 -> in_star s1 s3.
Proof. induction 1; eauto with gale. Qed.

Lemma in_star_one l ib l' ib' :
  input_step l ib = Some (Done (l', ib')) -> in_star (l, ib) (l', ib').
Proof. eauto with gale. Qed.

(** What the loop computes is a run of the step relation ending in a
    state that waits. *)
Lemma input_process_star fuel l ib l' ib' :
  input_process fuel l ib = Some (Done (l', ib')) -> in_star (l, ib) (l', ib') /\ input_step l' ib' = None.
Proof.
  revert l ib. induction fuel as [|fuel IH]; intros l ib; simpl; [done|].
  destruct (input_step l ib) as [[[l1 ib1]|s]|] eqn:E; [|done|intros [= <- <-]; eauto with gale].
  intros H. destruct (IH _ _ H). eauto with gale.
Qed.

(** Conversely, with enough fuel the loop follows any run to a waiting
    state: the machine is deterministic. *)
Lemma star_input_process l ib l' ib' fuel :
  in_star (l, ib) (l', ib') -> input_step l' ib' = None -> input_wf l (ib_state ib) ->
  (input_measure ib < fuel)%nat -> input_process fuel l ib = Some (Done (l', ib')).
Proof.
  remember (l, ib) as s eqn:Es. remember (l', ib') as s' eqn:Es'. intros Hs.
  revert l ib fuel Es. induction Hs as [s|s1 s2 s3 Hst Hs IH]; intros l ib fuel -> Hhalt Hwf Hf; subst.
  - destruct fuel; [lia|]. simpl. injection Es' as -> ->. by rewrite Hhalt.
  - inversion Hst as [? ? l2 ib2 E]; subst. destruct fuel; [lia|]. simpl. rewrite E.
    pose proof (input_step_measure _ _ _ _ Hwf E).
    destruct (input_step_wf l ib _ Hwf E) as [(? & ? & [= <- <-] & Hwf2)|[? _]]; [|done].
    eapply IH; eauto; lia.
Qed.

(** ** Skipping a frame *)

Definition unknown_state (n : Z) : input_state :=
  mk_input_state Ifn_unknown Input_always_ready (unknown_len n).

Lemma set_in_length_twice a b l : set_in_length a (set_in_length b l) = set_in_length a l.
Proof. reflexivity. Qed.

Lemma input_step_unknown_last l data rest :
  in_length l = Z.of_nat (length data) -> (0 < length data)%nat -> Z.of_nat (length data) <= SIZE_LIMIT ->
  input_step l (mk_input_buffer (unknown_state (in_length l)) (data ++ rest))
  = Some (Done (set_in_length 0 l, mk_input_buffer idle_input_state rest)).
Proof.
  intros Hl Hpos Hle. unfold input_step, unknown_state, unknown_len. cbn [ib_state inp_len inp_ready inp_next ib_data].
  rewrite Z.gtb_ltb, (proj2 (Z.ltb_ge _ _)) by lia. rewrite Hl, Nat2Z.id.
  rewrite (proj2 (Nat.leb_le _ _)) by (rewrite length_app; lia). simpl run_ready. cbn [andb].
  destruct (take_drop_app data rest (length data) eq_refl) as [-> ->].
  unfold run_ifn, ifn_unknown, ist_unknown, ist_idle, c_assert.
  rewrite Hl, Z.leb_refl. rsimpl. rewrite Z.sub_diag. reflexivity.
Qed.

Lemma input_step_unknown_chunk l data rest :
  in_length l = Z.of_nat (length data) -> SIZE_LIMIT < Z.of_nat (length data) ->
  input_step l (mk_input_buffer (unknown_state (in_length l)) (data ++ rest))
  = Some (Done (set_in_length (in_length l - SIZE_LIMIT) l,
                mk_input_buffer (unknown_state (in_length l - SIZE_LIMIT)) (drop (Z.to_nat SIZE_LIMIT) data ++ rest))).
Proof.
  intros Hl Hgt. unfold input_step, unknown_state, unknown_len. cbn [ib_state inp_len inp_ready inp_next ib_data].
  rewrite Z.gtb_ltb, (proj2 (Z.ltb_lt _ _)) by lia.
  rewrite (proj2 (Nat.leb_le _ _)) by (rewrite length_app; unfold SIZE_LIMIT in *; lia). simpl run_ready. cbn [andb].
  rewrite take_app_le, drop_app_le by (unfold SIZE_LIMIT in *; lia).
  unfold run_ifn, ifn_unknown, ist_unknown, c_assert.
  rewrite length_take, (proj2 (Z.leb_le _ _)) by (unfold SIZE_LIMIT in *; lia). rsimpl.
  replace (Z.of_nat (Nat.min (Z.to_nat SIZE_LIMIT) (length data))) with SIZE_LIMIT by (unfold SIZE_LIMIT in *; lia).
  rewrite (proj2 (Z.eqb_neq _ _)) by (unfold SIZE_LIMIT in *; lia). reflexivity.
Qed.

(** The bytes of an unknown or oversize frame are skipped in chunks of
    at most [SIZE_LIMIT], and the machine comes back to [Idle] at the
    first byte after the frame with nothing but [in_length] changed. *)
Lemma unknown_skip (n : nat) : forall l data rest,
  in_length l = Z.of_nat n -> (0 < n)%nat -> length data = n ->
  in_star (l, mk_input_buffer (unknown_state (in_length l)) (data ++ rest))
          (set_in_length 0 l, mk_input_buffer idle_input_state rest).
Proof.
  induction n as [n IH] using lt_wf_ind. intros l data rest Hl Hpos Hd.
  destruct (Z.le_gt_cases (Z.of_nat n) SIZE_LIMIT) as [Hle|Hgt].
  - apply in_star_one, input_step_unknown_last; lia.
  - eapply in_star_step; [constructor; apply input_step_unknown_chunk; lia|].
    rewrite <- (set_in_length_twice 0 (in_length l - SIZE_LIMIT) l).
    apply (IH (n - Z.to_nat SIZE_LIMIT)%nat); unfold SIZE_LIMIT in *; rsimpl;
      rewrite ?length_drop; lia.
Qed.

(** The header of a frame read in [Idle]: [ifn_opcode] on the 8 bytes. *)
Lemma input_step_header l op body rest :
  0 <= op < 2 ^ 32 -> Z.of_nat (length body) < 2 ^ 32 ->
  input_step l (mk_input_buffer idle_input_state (example_frame op body ++ rest))
  = Some (r ← ifn_opcode idle_input_state l (gale_pack_u32 op ++ gale_pack_u32 (Z.of_nat (length body)));
          Done (r.1, mk_input_buffer r.2 (body ++ rest))).
Proof.
  intros Hop Hlen. unfold input_step, example_frame, idle_input_state.
  cbn [ib_state inp_len inp_ready inp_next ib_data]. change (Z.to_nat 8) with 8%nat.
  rewrite <- !app_assoc, app_assoc.
  rewrite (proj2 (Nat.leb_le _ _)) by (rewrite !length_app, !length_pack_u32; simpl; lia).
  assert (H8 : length (gale_pack_u32 op ++ gale_pack_u32 (Z.of_nat (length body))) = 8%nat)
    by (rewrite length_app, !length_pack_u32; reflexivity).
  destruct (take_drop_app _ (body ++ rest) _ H8) as [-> ->]. reflexivity.
Qed.

Lemma ifn_opcode_header st l op len :
  0 <= op < 2 ^ 32 -> 0 <= len < 2 ^ 32 ->
  ifn_opcode st l (gale_pack_u32 op ++ gale_pack_u32 len)
  = let l := set_in_length len (set_in_opcode op l) in
    if in_length l >? SIZE_LIMIT then ist_unknown (gale_alert W_oversize l)
    else match decode_opcode (in_opcode l) with
         | Some (Op_puff | Op_will) => ist_message l
         | Some (Op_gimme | Op_publish | Op_watch | Op_forget | Op_complete) => ist_text l
         | Some (Op_assert | Op_retract | Op_fetch | Op_miss | Op_supply) => ist_cid l
         | None => ist_unknown l
         end.
Proof.
  intros Hop Hlen. unfold ifn_opcode. rewrite gale_unpack_pack_u32.
  rewrite <- (app_nil_r (gale_pack_u32 len)), gale_unpack_pack_u32.
  rewrite !Z.mod_small by done. reflexivity.
Qed.

(** A frame whose header sends the machine to [ist_unknown] is
    consumed exactly, and the machine is back in [Idle]. *)
Lemma skip_from_header l op body rest l1 :
  in_length l = 0 -> 0 <= op < 2 ^ 32 -> Z.of_nat (length body) < 2 ^ 32 ->
  in_length l1 = Z.of_nat (length body) ->
  ifn_opcode idle_input_state l (gale_pack_u32 op ++ gale_pack_u32 (Z.of_nat (length body))) = ist_unknown l1 ->
  in_star (l, mk_input_buffer idle_input_state (example_frame op body ++ rest))
          (set_in_length 0 l1, mk_input_buffer idle_input_state rest).
Proof.
  intros Hl Hop Hlen Hl1 Hu. unfold ist_unknown in Hu. destruct (Z.eqb_spec (in_length l1) 0) as [H0|H0].
  - assert (body = []) as -> by (destruct body; simpl in Hl1; [done|lia]).
    replace (set_in_length 0 l1) with l1 by (destruct l1; cbn in *; by subst).
    apply in_star_one. rewrite input_step_header, Hu by lia. rewrite ist_idle_ok by done.
    reflexivity.
  - eapply in_star_step.
    { constructor. rewrite input_step_header, Hu by lia. reflexivity. }
    apply (unknown_skip (length body)); lia.
Qed.

(** C9: an oversize frame (declared length above [SIZE_LIMIT]) or a
    frame of an unknown opcode is skipped: from [Idle], the machine
    consumes exactly the frame, changes no pending slot, and is back in
    [Idle] at the first byte of the next frame; the oversize frame is
    reported with the warning "oversize message dropped", the unknown
    opcode silently. *)
Theorem frame_skipped l op body rest :
  in_length l = 0 -> 0 <= op < 2 ^ 32 -> Z.of_nat (length body) < 2 ^ 32 ->
  (SIZE_LIMIT < Z.of_nat (length body) \/ decode_opcode op = None) ->
  in_star (l, mk_input_buffer idle_input_state (example_frame op body ++ rest))
          (set_in_length 0 (set_in_opcode op
             (if Z.of_nat (length body) >? SIZE_LIMIT then gale_alert W_oversize l else l)),
           mk_input_buffer idle_input_state rest).
Proof.
  intros Hl Hop Hlen Hskip.
  set (l1 := set_in_length (Z.of_nat (length body))
               (set_in_opcode op (if Z.of_nat (length body) >? SIZE_LIMIT then gale_alert W_oversize l else l))).
  assert (Hu : ifn_opcode idle_input_state l (gale_pack_u32 op ++ gale_pack_u32 (Z.of_nat (length body)))
               = ist_unknown l1).
  { rewrite ifn_opcode_header by lia. unfold l1. cbv zeta. cbn [in_length set_in_length].
    destruct (Z.gtb_spec (Z.of_nat (length body)) SIZE_LIMIT) as [|Hle]; [done|].
    destruct Hskip as [Hgt|Hnone]; [lia|]. simpl in Hnone |- *. by rewrite Hnone. }
  by apply (skip_from_header _ _ _ _ l1).
Qed.

Lemma frame_skipped_witness :
  in_length new_link_in = 0 /\ 0 <= 99 < 2 ^ 32 /\ Z.of_nat (length [Byte.x01; Byte.x02]) < 2 ^ 32 /\
  (SIZE_LIMIT < Z.of_nat (length [Byte.x01; Byte.x02]) \/ decode_opcode 99 = None) /\
  in_star (new_link_in, mk_input_buffer idle_input_state
             (example_frame 99 [Byte.x01; Byte.x02] ++ example_two_watches))
          (set_in_length 0 (set_in_opcode 99
             (if Z.of_nat (length [Byte.x01; Byte.x02]) >? SIZE_LIMIT then gale_alert W_oversize new_link_in
              else new_link_in)),
           mk_input_buffer idle_input_state example_two_watches).
Proof.
  split; [reflexivity|]. split; [lia|]. split; [simpl; lia|]. split; [right; reflexivity|].
  apply frame_skipped; [reflexivity|lia|simpl; lia|right; reflexivity].
Defined.

(** C38: a frame too short for its fixed fields is skipped: a message
    frame with fewer than the 4 bytes of its category length, or a
    content-id frame with fewer than the 20 bytes of its id.  The
    message frame is reported with the warning "ignoring truncated
    message"; the content-id frame is skipped silently. *)
Theorem short_frame_skipped l o body rest :
  in_length l = 0 ->
  ((o = Op_puff \/ o = Op_will) /\ (length body < 4)%nat
   \/ cid_slot_of (Some o) <> None /\ (length body < 20)%nat) ->
  in_star (l, mk_input_buffer idle_input_state (example_frame (opcode_code o) body ++ rest))
          (set_in_length 0 (set_in_opcode (opcode_code o)
             (if bool_decide (o = Op_puff \/ o = Op_will) then gale_alert W_truncated l else l)),
           mk_input_buffer idle_input_state rest).
Proof.
  intros Hl Hcase.
  assert (Hb : (length body < 20)%nat) by (destruct Hcase as [[_ ?]|[_ ?]]; lia).
  assert (Hop : 0 <= opcode_code o < 2 ^ 32) by (destruct o; vm_compute; split; congruence).
  set (n := Z.of_nat (length body)).
  apply (skip_from_header _ _ _ _ (set_in_length n (set_in_opcode (opcode_code o)
           (if bool_decide (o = Op_puff \/ o = Op_will) then gale_alert W_truncated l else l))));
    [done|done|unfold n; lia|done|].
  rewrite ifn_opcode_header by (unfold n; lia). cbv zeta.
  cbn [in_length set_in_length in_opcode set_in_opcode]. unfold SIZE_LIMIT. zbool_lia.
  replace (262144 <? n) with false by (symmetry; apply Z.ltb_ge; unfold n; lia).
  rewrite decode_opcode_code.
  destruct Hcase as [[[-> | ->] Hb4]|[Hc _]].
  1,2: rewrite bool_decide_true by auto; unfold ist_message, gale_u32_size; cbn [in_length set_in_length];
       zbool_lia; reflexivity.
  destruct o; cbn in Hc; try congruence; rewrite bool_decide_false by (intros [?|?]; discriminate);
    unfold ist_cid, CID_LENGTH; cbn [in_length set_in_length]; zbool_lia; reflexivity.
Qed.

Lemma short_frame_skipped_witness :
  in_length new_link_in = 0 /\
  ((Op_fetch = Op_puff \/ Op_fetch = Op_will) /\ (length [Byte.x01; Byte.x02] < 4)%nat
   \/ cid_slot_of (Some Op_fetch) <> None /\ (length [Byte.x01; Byte.x02] < 20)%nat) /\
  in_star (new_link_in, mk_input_buffer idle_input_state
             (example_frame (opcode_code Op_fetch) [Byte.x01; Byte.x02] ++ example_two_watches))
          (set_in_length 0 (set_in_opcode (opcode_code Op_fetch)
             (if bool_decide (Op_fetch = Op_puff \/ Op_fetch = Op_will)
              then gale_alert W_truncated new_link_in else new_link_in)),
           mk_input_buffer idle_input_state example_two_watches).
Proof.
  assert (Hc : (Op_fetch = Op_puff \/ Op_fetch = Op_will) /\ (length [Byte.x01; Byte.x02] < 4)%nat
               \/ cid_slot_of (Some Op_fetch) <> None /\ (length [Byte.x01; Byte.x02] < 20)%nat)
    by (right; split; [discriminate | simpl; lia]).
  split; [reflexivity|]. split; [exact Hc|].
  exact (short_frame_skipped new_link_in Op_fetch [Byte.x01; Byte.x02] example_two_watches eq_refl Hc).
Defined.

(** The version step, on any link. *)
Lemma input_step_version l v rest :
  input_step l (mk_input_buffer ist_version (gale_pack_u32 v ++ rest))
  = Some (Done (set_in_length 0
                  (if v mod 2 ^ 32 >? PROTOCOL_VERSION
                   then set_in_version PROTOCOL_VERSION (gale_alert (W_version (v mod 2 ^ 32)) l)
                   else set_in_version (v mod 2 ^ 32) l),
                mk_input_buffer idle_input_state rest)).
Proof.
  unfold input_step, ist_version, gale_u32_size. cbn [ib_state inp_len inp_ready inp_next ib_data run_ready andb].
  change (Z.to_nat 4) with 4%nat.
  rewrite (proj2 (Nat.leb_le _ _)) by (rewrite length_app, length_pack_u32; lia).
  destruct (take_drop_app (gale_pack_u32 v) rest 4 (length_pack_u32 v)) as [-> ->].
  unfold run_ifn, ifn_version. rewrite <- (app_nil_r (gale_pack_u32 v)), gale_unpack_pack_u32.
  reflexivity.
Qed.

(** C10: the version handshake.  The first four bytes are the peer's
    protocol version; a version above [PROTOCOL_VERSION] is clamped to
    it with a warning that names it, a lower one adopted as it is and
    silently; the machine then waits for the
    first frame header. *)
Theorem version_handshake l v rest :
  input_step l (mk_input_buffer ist_version (gale_pack_u32 v ++ rest))
  = Some (Done (set_in_length 0
                  (if v mod 2 ^ 32 >? PROTOCOL_VERSION
                   then set_in_version PROTOCOL_VERSION (gale_alert (W_version (v mod 2 ^ 32)) l)
                   else set_in_version (v mod 2 ^ 32) l),
                mk_input_buffer idle_input_state rest)).
Proof. apply input_step_version. Qed.

(** C18: a [fetch] frame whose body is longer than the 20-byte content
    id (here: by [extra] bytes) makes the receiving program abort at the
    [assert] of [ist_idle]: [ifn_cid] subtracts only the 20 bytes of the
    id from [in_length] before returning to [Idle].  Any peer can send
    such a frame. *)
Theorem fetch_overlong_aborts l cid extra rest fuel :
  in_length l = 0 -> in_fetch_cid l = [] -> length cid = 20%nat -> (0 < length extra)%nat ->
  Z.of_nat (20 + length extra) <= SIZE_LIMIT -> (2 <= fuel)%nat ->
  input_process fuel l (mk_input_buffer idle_input_state (example_frame opcode_fetch (cid ++ extra) ++ rest))
  = Some (Abort "ist_idle: 0 == in_length").
Proof.
  intros Hl Hf Hc He Hs Hfuel. destruct fuel as [|[|fuel]]; [lia|lia|].
  assert (Hlen : length (cid ++ extra) = (20 + length extra)%nat) by (rewrite length_app; lia).
  cbn [input_process]. rewrite input_step_header by (unfold opcode_fetch, SIZE_LIMIT in *; lia).
  rewrite ifn_opcode_header by (unfold opcode_fetch, SIZE_LIMIT in *; lia). cbv zeta. rsimpl.
  rewrite Hlen, Z.gtb_ltb, (proj2 (Z.ltb_ge _ _)) by lia.
  unfold ist_cid. rsimpl. rewrite (proj2 (Z.ltb_ge _ _)) by (unfold CID_LENGTH; lia). simpl.
  unfold input_step. cbn [ib_state inp_len inp_ready inp_next ib_data run_ready].
  unfold ifn_cid_ready. rsimpl. rewrite Hf. change (Z.to_nat CID_LENGTH) with 20%nat.
  rewrite (proj2 (Nat.leb_le _ _)) by (rewrite !length_app; lia). cbn [andb].
  rewrite <- app_assoc. destruct (take_drop_app cid (extra ++ rest) 20 Hc) as [-> ->].
  unfold run_ifn, ifn_cid, c_assert. rewrite Hc. rsimpl.
  unfold ist_idle, c_assert. rsimpl. rewrite (proj2 (Z.eqb_neq _ _)) by lia. reflexivity.
Qed.

Lemma fetch_overlong_aborts_witness :
  in_length new_link_in = 0 /\ in_fetch_cid new_link_in = [] /\
  length (repeat Byte.x00 20) = 20%nat /\ (0 < length [Byte.x01; Byte.x02; Byte.x03; Byte.x04])%nat /\
  Z.of_nat (20 + length [Byte.x01; Byte.x02; Byte.x03; Byte.x04]) <= SIZE_LIMIT /\ (2 <= 2)%nat /\
  input_process 2 new_link_in
    (mk_input_buffer idle_input_state
       (example_frame opcode_fetch (repeat Byte.x00 20 ++ [Byte.x01; Byte.x02; Byte.x03; Byte.x04]) ++ []))
  = Some (Abort "ist_idle: 0 == in_length").
Proof.
  split; [reflexivity|]. split; [reflexivity|]. split; [reflexivity|]. split; [simpl; lia|].
  split; [unfold SIZE_LIMIT; simpl; lia|]. split; [lia|].
  apply fetch_overlong_aborts; [reflexivity|reflexivity|reflexivity|simpl; lia|unfold SIZE_LIMIT; simpl; lia|lia].
Defined.

Definition example_session : bytes :=
  gale_pack_u32 1 ++ example_frame opcode_puff (example_puff_body [65; 66] [Byte.x01])
  ++ example_frame opcode_publish (gale_pack_text_len [67]).

Lemma input_process_safe_witness :
  input_wf new_link_in (ib_state (mk_input_buffer ist_version example_session)) /\
  exists r, input_process 64 new_link_in (mk_input_buffer ist_version example_session) = Some r /\
    ((exists l' ib', r = Done (l', ib') /\ input_wf l' (ib_state ib')) \/ r = Abort "ist_idle: 0 == in_length").
Proof.
  assert (Hwf : input_wf new_link_in (ib_state (mk_input_buffer ist_version example_session)))
    by (split; simpl; [lia|split_and!; done]).
  split; [done|]. eexists. split; [vm_compute; reflexivity|].
  apply (input_process_safe 64 new_link_in (mk_input_buffer ist_version example_session)); [done|].
  vm_compute; reflexivity.
Defined.

Lemma input_process_terminates_witness :
  input_wf new_link_in (ib_state (mk_input_buffer ist_version example_session)) /\
  (input_measure (mk_input_buffer ist_version example_session) < 200)%nat /\
  input_process 200 new_link_in (mk_input_buffer ist_version example_session) <> None.
Proof.
  assert (Hwf : input_wf new_link_in (ib_state (mk_input_buffer ist_version example_session)))
    by (split; simpl; [lia|split_and!; done]).
  assert (Hm : (input_measure (mk_input_buffer ist_version example_session) < 200)%nat)
    by (vm_compute; lia).
  split; [done|]. split; [done|]. by apply input_process_terminates.
Defined.
