(* ===== verification/Output.v ===== *)
(** * Output: the output state machine of [core_link.c] and its driver

    Each [ost_*] of the source sets the machine's [next] function and
    [ready] predicate; each [ofn_*] writes bytes into the space that
    [send_space] / [send_data] give it and updates the link.  Here an
    [ofn_*] maps the output state and the link's output half to the
    bytes it writes, the new half and the new state, or to an [Abort]
    for a failed [assert] (or a [NULL] pointer dereference, named the
    same way).  [ofn_idle] chooses the one pending fact it serialises by
    the fixed priority of the source.  [output_process] is the loop of
    the output buffer of [io.c] (not in this repository, modelled from
    the specification): while the state is ready, run [next] and collect
    what it writes. *)

From S2P Require Import Prelude Wire GaleMap GaleTime LinkState.

Local Open Scope gale_scope.

Abbreviation ostep := (outcome (bytes * link_out * output_state)).

Definition ost_version : output_state := mk_output_state Ofn_version Output_always_ready.

Definition ost_idle : output_state := mk_output_state Ofn_idle Ofn_idle_ready.

(** ** Next functions *)

Definition ofn_version (out : output_state) (lo : link_out) : ostep :=
  Done (gale_pack_u32 PROTOCOL_VERSION, lo, ost_idle).

Definition ofn_msg_data (out : output_state) (lo : link_out) : ostep :=
  match out_msg lo with
  | None => Abort "ofn_msg_data: l->out_msg is NULL"
  | Some m =>
      Done (gale_pack_u32 0 ++ gale_pack_copy (content m), set_out_msg None lo, ost_idle)
  end.

Definition ofn_message (out : output_state) (lo : link_out) : ostep :=
  match out_msg lo with
  | None => Abort "ofn_message: l->out_msg is NULL"
  | Some m =>
      let len := gale_text_len_size (routing m) in
      Done (gale_pack_u32 len ++ gale_pack_text_len (routing m), lo,
            mk_output_state Ofn_msg_data (out_ready out))
  end.

Definition ofn_text (out : output_state) (lo : link_out) : ostep :=
  Done (gale_pack_text_len (out_text lo), set_out_text [] lo, ost_idle).

Definition ofn_data (out : output_state) (lo : link_out) : ostep :=
  Done (out_data lo, lo, ost_idle).

Definition ofn_cid (out : output_state) (lo : link_out) : ostep :=
  Done (out_cid lo, lo, mk_output_state Ofn_data (out_ready out)).

(** The frame header written by [ofn_idle]. *)
Definition header (op len : Z) : bytes := gale_pack_u32 op ++ gale_pack_u32 len.

(** The frame length of a message: category length word, category,
    reserved word, content. *)
Definition message_frame_len (m : gale_packet) : Z :=
  gale_u32_size + Z.of_nat (length (routing m)) * gale_wch_size + gale_u32_size
  + gale_copy_size (Z.of_nat (length (content m))).

(** [ofn_idle]: serialise one pending fact, highest priority first.
    [out_complete] must come after [out_assert]; the rest of the order
    is the source's. *)
Definition ofn_idle (out : output_state) (lo : link_out) : ostep :=
  let out := mk_output_state (out_next out) Output_always_ready in
  ASSERT (match out_msg lo with None => true | Some _ => false end) AT "ofn_idle: NULL == l->out_msg";
  ASSERT (length (out_text lo) =? 0)%nat AT "ofn_idle: 0 == l->out_text.l";
  match gale_map_walk (out_watch lo) None with
  | Some (key, ptr) =>
      let lo := set_out_text (gale_text_from_data key) lo in
      let lo := set_out_watch (gale_map_add (out_watch lo) key None) lo in
      op ← match ptr with
           | St_yes => Done opcode_watch
           | St_no => Done opcode_forget
           | St_data _ => Abort "ofn_idle: ptr == st_no"
           end;
      Done (header op (Z.of_nat (length (out_text lo)) * gale_wch_size), lo,
            mk_output_state Ofn_text (out_ready out))
  | None =>
  match gale_map_walk (out_fetch lo) None with
  | Some (key, ptr) =>
      ASSERT (bool_decide (ptr = St_yes)) AT "ofn_idle: st_yes == ptr";
      let lo := set_out_data [] (set_out_cid key lo) in
      let h := header opcode_fetch (Z.of_nat (length (out_cid lo) + length (out_data lo))) in
      ASSERT (CID_LENGTH =? Z.of_nat (length (out_cid lo))) AT "ofn_idle: CID_LENGTH == l->out_cid.l";
      Done (h, lo, mk_output_state Ofn_cid (out_ready out))
  | None =>
  if negb (length (out_publish lo) =? 0)%nat then
      let lo := set_out_text (out_publish lo) lo in
      let lo := set_out_publish [] lo in
      Done (header opcode_publish (Z.of_nat (length (out_text lo)) * gale_wch_size), lo,
            mk_output_state Ofn_text (out_ready out))
  else
  match gale_map_walk (out_supply lo) None with
  | Some (key, ptr) =>
      ASSERT (negb (bool_decide (ptr = St_yes))) AT "ofn_idle: ptr != st_yes";
      let lo := set_out_cid key lo in
      let '(lo, op) := match ptr with
                       | St_data d => (set_out_data d lo, opcode_supply)
                       | _ => (set_out_data [] lo, opcode_miss)
                       end in
      let h := header op (Z.of_nat (length (out_cid lo) + length (out_data lo))) in
      ASSERT (CID_LENGTH =? Z.of_nat (length (out_cid lo))) AT "ofn_idle: CID_LENGTH == l->out_cid.l";
      Done (h, lo, mk_output_state Ofn_cid (out_ready out))
  | None =>
  match gale_map_walk (out_assert lo) None with
  | Some (key, ptr) =>
      let lo := set_out_data [] (set_out_cid key lo) in
      op ← match ptr with
           | St_yes => Done opcode_assert
           | St_no => Done opcode_retract
           | St_data _ => Abort "ofn_idle: st_no == ptr"
           end;
      Done (header op (Z.of_nat (length (out_cid lo) + length (out_data lo))), lo,
            mk_output_state Ofn_cid (out_ready out))
  | None =>
  match gale_map_walk (out_complete lo) None with
  | Some (key, ptr) =>
      ASSERT (bool_decide (ptr = St_yes)) AT "ofn_idle: ptr == st_yes";
      let lo := set_out_text (gale_text_from_data key) lo in
      let lo := set_out_complete (gale_map_add (out_complete lo) key None) lo in
      Done (header opcode_complete (Z.of_nat (length (out_text lo)) * gale_wch_size), lo,
            mk_output_state Ofn_text (out_ready out))
  | None =>
  if negb (length (out_gimme lo) =? 0)%nat then
      let lo := set_out_text (out_gimme lo) lo in
      let lo := set_out_gimme [] lo in
      Done (header opcode_gimme (Z.of_nat (length (out_text lo)) * gale_wch_size), lo,
            mk_output_state Ofn_text (out_ready out))
  else
  match out_will lo with
  | Some w =>
      let lo := set_out_will None (set_out_msg (Some w) lo) in
      Done (header opcode_will (message_frame_len w), lo, mk_output_state Ofn_message (out_ready out))
  | None =>
  match dequeue lo with
  | (lo, Some m) =>
      let lo := set_out_msg (Some m) lo in
      Done (header opcode_puff (message_frame_len m), lo, mk_output_state Ofn_message (out_ready out))
  | (_, None) => Abort "ofn_idle: assert(0)"
  end end end end end end end.

Definition map_nonempty {V} (m : gale_map V) : bool :=
  match gale_map_walk m None with Some _ => true | None => false end.

Definition ofn_idle_ready (lo : link_out) : bool :=
  match out_will lo with Some _ => true | None => false end
  || negb (length (out_gimme lo) =? 0)%nat
  || negb (bool_decide (out_queue lo = []))
  || negb (length (out_publish lo) =? 0)%nat
  || map_nonempty (out_watch lo) || map_nonempty (out_complete lo)
  || map_nonempty (out_assert lo) || map_nonempty (out_fetch lo)
  || map_nonempty (out_supply lo).

Definition run_oready (r : oready) (lo : link_out) : bool :=
  match r with
  | Output_always_ready => true
  | Ofn_idle_ready => ofn_idle_ready lo
  end.

Definition run_ofn (f : ofn) : output_state -> link_out -> ostep :=
  match f with
  | Ofn_version => ofn_version
  | Ofn_idle => ofn_idle
  | Ofn_message => ofn_message
  | Ofn_msg_data => ofn_msg_data
  | Ofn_text => ofn_text
  | Ofn_cid => ofn_cid
  | Ofn_data => ofn_data
  end.

(** ** The output buffer of [io.c] *)

(** One step: when the state is ready, run [next] and append what it
    writes; [None] when the state is not ready (nothing to say). *)
Definition output_step (lo : link_out) (ob : output_buffer) : option (outcome (link_out * output_buffer)) :=
  let st := ob_state ob in
  if run_oready (out_ready st) lo then
    Some (r ← run_ofn (out_next st) st lo;
          Done (r.1.2, mk_output_buffer r.2 (ob_data ob ++ r.1.1)))
  else None.

Fixpoint output_process (fuel : nat) (lo : link_out) (ob : output_buffer)
    : option (outcome (link_out * output_buffer)) :=
  match fuel with
  | O => None
  | S fuel' =>
      match output_step lo ob with
      | None => Some (Done (lo, ob))
      | Some (Abort s) => Some (Abort s)
      | Some (Done (lo', ob')) => output_process fuel' lo' ob'
      end
  end.

(** [create_output_buffer(initial)] with [ost_version]. *)
Definition create_output_buffer : output_buffer := mk_output_buffer ost_version [].

(** ** Well-formed states *)

Definition yes_or_no (kv : bytes * mark) : Prop := kv.2 = St_yes \/ kv.2 = St_no.

(** What the [ltx_*] mutators put into the maps: watch/forget and
    assert/retract markers, complete markers, fetch requests and fetch
    answers keyed by 20-byte content ids. *)
Definition maps_wf (lo : link_out) : Prop :=
  map_sorted (out_watch lo) /\ map_sorted (out_complete lo) /\ map_sorted (out_assert lo)
  /\ map_sorted (out_fetch lo) /\ map_sorted (out_supply lo)
  /\ Forall yes_or_no (out_watch lo)
  /\ Forall (fun kv => kv.2 = St_yes) (out_complete lo)
  /\ Forall yes_or_no (out_assert lo)
  /\ Forall (fun kv => kv.2 = St_yes /\ length kv.1 = 20%nat) (out_fetch lo)
  /\ Forall (fun kv => kv.2 <> St_yes /\ length kv.1 = 20%nat) (out_supply lo).

(** The fields an [ofn_*] reads agree with the state of the machine. *)
Definition output_wf (lo : link_out) (st : output_state) : Prop :=
  maps_wf lo /\
  match out_next st with
  | Ofn_version | Ofn_idle =>
      out_msg lo = None /\ out_text lo = []
      /\ out_ready st = (if out_next st is Ofn_idle then Ofn_idle_ready else Output_always_ready)
  | Ofn_text => out_msg lo = None /\ out_ready st = Output_always_ready
  | Ofn_cid | Ofn_data => out_msg lo = None /\ out_text lo = [] /\ out_ready st = Output_always_ready
  | Ofn_message | Ofn_msg_data => out_msg lo <> None /\ out_text lo = [] /\ out_ready st = Output_always_ready
  end.

Lemma maps_wf_new : maps_wf new_link_out.
Proof. repeat split; repeat constructor. Qed.

Lemma walk_mark (P : bytes * mark -> Prop) m k v :
  Forall P m -> gale_map_walk m None = Some (k, v) -> P (k, v).
Proof. apply gale_map_walk_Forall. Qed.

Lemma map_nonempty_walk {V} (m : gale_map V) :
  map_nonempty m = false <-> gale_map_walk m None = None.
Proof. unfold map_nonempty. by case_match. Qed.

Ltac maps_wf_solve :=
  match goal with
  | Hw : maps_wf _ |- maps_wf _ =>
      let H := fresh in pose proof Hw as H; unfold maps_wf in H |- *; rsimpl; decompose record H
  end;
  split_and!; try done;
  repeat first [ apply gale_map_add_sorted | apply gale_map_add_Forall ]; try done; by intros.

Ltac finish_idle :=
  eexists _, _, _; split; [reflexivity|]; split; [maps_wf_solve|]; simpl; auto.

(** [ofn_idle] on a well-formed link with something to send serialises
    one fact without failing an [assert]. *)
Lemma ofn_idle_wf st lo :
  maps_wf lo -> out_msg lo = None -> out_text lo = [] -> ofn_idle_ready lo = true ->
  exists bs lo' st', ofn_idle st lo = Done (bs, lo', st') /\ output_wf lo' st'.
Proof.
  intros Hw Hm Ht Hr. pose proof Hw as (_ & _ & _ & _ & _ & Fw & Fc & Fa & Ff & Fs).
  unfold ofn_idle. rewrite Hm, Ht. cbn [c_assert length Nat.eqb].
  destruct (gale_map_walk (out_watch lo) None) as [[k v]|] eqn:Ew.
  { destruct (walk_mark _ _ _ _ Fw Ew) as [Hv|Hv]; simpl in Hv; subst v; finish_idle. }
  destruct (gale_map_walk (out_fetch lo) None) as [[k v]|] eqn:Ef.
  { destruct (walk_mark _ _ _ _ Ff Ef) as [Hv Hk]; simpl in Hv, Hk; subst v.
    rewrite bool_decide_eq_true_2 by done. cbn [c_assert]. rsimpl. rewrite Hk.
    eexists _, _, _. split; [reflexivity|]. split; [maps_wf_solve|]. simpl. auto. }
  destruct (negb (length (out_publish lo) =? 0))%nat eqn:Ep.
  { eexists _, _, _. split; [reflexivity|]. split; [maps_wf_solve|]. simpl. auto. }
  destruct (gale_map_walk (out_supply lo) None) as [[k v]|] eqn:Es.
  { destruct (walk_mark _ _ _ _ Fs Es) as [Hv Hk]; simpl in Hv, Hk.
    rewrite bool_decide_eq_false_2 by done. cbn [c_assert negb].
    destruct v; try done; rsimpl; rewrite Hk; finish_idle. }
  destruct (gale_map_walk (out_assert lo) None) as [[k v]|] eqn:Ea.
  { destruct (walk_mark _ _ _ _ Fa Ea) as [Hv|Hv]; simpl in Hv; subst v; finish_idle. }
  destruct (gale_map_walk (out_complete lo) None) as [[k v]|] eqn:Ec.
  { pose proof (walk_mark _ _ _ _ Fc Ec) as Hv. simpl in Hv. subst v.
    rewrite bool_decide_eq_true_2 by done. cbn [c_assert].
    eexists _, _, _. split; [reflexivity|]. split; [maps_wf_solve|]. simpl. auto. }
  destruct (negb (length (out_gimme lo) =? 0))%nat eqn:Eg.
  { eexists _, _, _. split; [reflexivity|]. split; [maps_wf_solve|]. simpl. auto. }
  destruct (out_will lo) as [w|] eqn:Ewl.
  { eexists _, _, _. split; [reflexivity|]. split; [maps_wf_solve|]. simpl. rewrite Ht. auto. }
  destruct (out_queue lo) as [|n q] eqn:Eq.
  - exfalso. unfold ofn_idle_ready in Hr. rewrite Ewl, Eq in Hr.
    apply negb_false_iff in Ep, Eg. rewrite Ep, Eg in Hr.
    rewrite <- !map_nonempty_walk in Ew, Ef, Es, Ea, Ec. rewrite Ew, Ef, Es, Ea, Ec in Hr.
    done.
  - unfold dequeue. rewrite Eq. eexists _, _, _. split; [reflexivity|].
    split; [maps_wf_solve|]. simpl. rewrite Ht. auto.
Qed.

(** From a well-formed ready state, the next function succeeds and the
    state stays well-formed. *)
Lemma run_ofn_wf st lo :
  output_wf lo st -> run_oready (out_ready st) lo = true ->
  exists bs lo' st', run_ofn (out_next st) st lo = Done (bs, lo', st') /\ output_wf lo' st'.
Proof.
  intros [Hw Hs] Hr. destruct (out_next st) eqn:En; simpl.
  - destruct Hs as (Hm & Ht & _). eexists _, _, _. split; [reflexivity|]. split; [done|]. simpl. split_and!; try done.
  - destruct Hs as (Hm & Ht & Hrd). rewrite Hrd in Hr. by apply ofn_idle_wf.
  - destruct Hs as (Hm & Ht & Hrd). unfold ofn_message. destruct (out_msg lo) as [m|] eqn:Em; [|done].
    eexists _, _, _. split; [reflexivity|]. split; [done|]. simpl. rewrite Hrd, Em. split_and!; try done.
  - destruct Hs as (Hm & Ht & Hrd). unfold ofn_msg_data. destruct (out_msg lo) as [m|]; [|done].
    eexists _, _, _. split; [reflexivity|]. split; [maps_wf_solve|]. simpl. split_and!; try done.
  - destruct Hs as (Hm & Hrd). eexists _, _, _. split; [reflexivity|]. split; [maps_wf_solve|]. simpl. split_and!; try done.
  - destruct Hs as (Hm & Ht & Hrd). eexists _, _, _. split; [reflexivity|]. split; [done|]. simpl. rewrite Hrd. split_and!; try done.
  - destruct Hs as (Hm & Ht & Hrd). eexists _, _, _. split; [reflexivity|]. split; [done|]. simpl. split_and!; try done.
Qed.

Lemma output_step_wf lo ob r :
  output_wf lo (ob_state ob) -> output_step lo ob = Some r ->
  exists lo' ob', r = Done (lo', ob') /\ output_wf lo' (ob_state ob').
Proof.
  intros Hwf. unfold output_step. destruct (run_oready _ lo) eqn:Hr; [|done]. intros [= <-].
  destruct (run_ofn_wf _ _ Hwf Hr) as (bs & lo' & st' & -> & Hwf'). simpl. by eexists _, _.
Qed.

(** C13: the output machine never fails an [assert] of the source: from
    a well-formed state, [output_process] only returns well-formed
    states (or runs out of fuel). *)
Theorem output_process_safe fuel lo ob r :
  output_wf lo (ob_state ob) -> output_process fuel lo ob = Some r ->
  exists lo' ob', r = Done (lo', ob') /\ output_wf lo' (ob_state ob').
Proof.
  revert lo ob. induction fuel as [|fuel IH]; intros lo ob Hwf; simpl; [done|].
  destruct (output_step lo ob) as [r1|] eqn:E.
  - destruct (output_step_wf _ _ _ Hwf E) as (lo1 & ob1 & -> & Hwf1). by apply IH.
  - intros [= <-]. eauto.
Qed.

(** ** What the machine writes *)

Lemma header_op_inj a n b m : header a n = header b m -> a mod 2 ^ 32 = b mod 2 ^ 32.
Proof.
  unfold header. intros H. pose proof (gale_unpack_pack_u32 a (gale_pack_u32 n)) as Ha.
  rewrite H, gale_unpack_pack_u32 in Ha. congruence.
Qed.

(** C14: the one ordering constraint of the protocol: [ofn_idle] writes
    a complete notice only when no assert or retract notice (and no
    fetch request or answer, watch change or published value) is
    pending. *)
Theorem complete_after_assert st lo bs lo' st' n :
  ofn_idle st lo = Done (bs, lo', st') -> take 8 bs = header opcode_complete n ->
  out_assert lo = [] /\ out_supply lo = [] /\ out_fetch lo = [] /\ out_watch lo = []
  /\ out_publish lo = [].
Proof.
  intros E Hh. unfold ofn_idle, c_assert in E.
  assert (Hop : forall op len, header op len = header opcode_complete n ->
                op mod 2 ^ 32 = opcode_complete).
  { intros op len Hx. apply header_op_inj in Hx. by rewrite Hx. }
  repeat (case_match; simplify_eq/=; try done);
    rewrite ?take_app_length' in Hh by (unfold header; by rewrite length_app, !length_pack_u32);
    try (apply Hop in Hh; discriminate);
    repeat match goal with H : gale_map_walk _ None = None |- _ => apply gale_map_walk_first_None in H end;
    bool_to_prop; split_and!; try done; by apply nil_length_inv.
Qed.

(** ** Retransmission of fetch requests, fetch answers and assert notices *)

Ltac output_unfold := unfold run_ofn, ofn_version, ofn_idle, ofn_message, ofn_msg_data, ofn_text,
  ofn_data, ofn_cid, dequeue, c_assert in *.

(** [ofn_idle] writes the first fetch request, fetch answer and assert
    notice of its maps but never removes them: no next function changes
    these three maps. *)
Lemma run_ofn_keeps_maps f st lo bs lo' st' :
  run_ofn f st lo = Done (bs, lo', st') ->
  out_fetch lo' = out_fetch lo /\ out_supply lo' = out_supply lo /\ out_assert lo' = out_assert lo.
Proof.
  intros E. destruct f; output_unfold; repeat (case_match; simplify_eq/=; try done);
    simplify_eq/=; by split_and!.
Qed.

(** No next function touches the shutdown state. *)
Lemma run_ofn_keeps_shutdown f st lo bs lo' st' :
  run_ofn f st lo = Done (bs, lo', st') -> out_shutdown lo' = out_shutdown lo.
Proof. intros E. destruct f; output_unfold; repeat (case_match; simplify_eq/=; try done); simplify_eq/=; done. Qed.

Lemma output_step_keeps_shutdown lo ob lo' ob' :
  output_step lo ob = Some (Done (lo', ob')) -> out_shutdown lo' = out_shutdown lo.
Proof.
  unfold output_step. case_match; [|done]. intros Hs.
  destruct (run_ofn _ _ _) as [[[bs lo1] st1]|] eqn:E; simplify_eq/=.
  by eapply run_ofn_keeps_shutdown.
Qed.

Definition resent_pending (lo : link_out) : Prop :=
  out_fetch lo <> [] \/ out_supply lo <> [] \/ out_assert lo <> [].

Lemma resent_pending_ready lo : resent_pending lo -> ofn_idle_ready lo = true.
Proof.
  unfold ofn_idle_ready, map_nonempty. intros [H|[H|H]];
    destruct (out_fetch lo) as [|[??]?], (out_supply lo) as [|[??]?], (out_assert lo) as [|[??]?];
    simpl; try done; rewrite !orb_true_r; done.
Qed.

(** C19: a pending fetch request, fetch answer or assert/retract notice
    keeps the output machine busy for ever: the entry is written again
    and again and the loop of the output buffer never reaches a state
    with nothing to send, whatever the fuel.  The complete notices,
    which come after the assert notices, are then never written. *)
Theorem resent_forever fuel lo ob :
  output_wf lo (ob_state ob) -> resent_pending lo -> output_process fuel lo ob = None.
Proof.
  revert lo ob. induction fuel as [|fuel IH]; intros lo ob Hwf Hp; [done|]. simpl.
  unfold output_step at 1. pose proof Hwf as [Hw Hs].
  assert (Hr : run_oready (out_ready (ob_state ob)) lo = true).
  { destruct (out_next (ob_state ob)); decompose record Hs; match goal with H : out_ready _ = _ |- _ => rewrite H end;
      simpl; try done; by apply resent_pending_ready. }
  rewrite Hr. destruct (run_ofn_wf _ _ Hwf Hr) as (bs & lo' & st' & E & Hwf1). rewrite E. simpl.
  apply IH; [done|]. unfold resent_pending in *.
  destruct (run_ofn_keeps_maps _ _ _ _ _ _ E) as (-> & -> & ->). done.
Qed.

(** ** Writing the queue *)

(** The bytes of a message frame as the output machine writes them:
    the header from [ofn_idle], the category from [ofn_message], the
    reserved word and content from [ofn_msg_data]. *)
Definition message_frame (op : Z) (m : gale_packet) : bytes :=
  header op (message_frame_len m)
  ++ (gale_pack_u32 (gale_text_len_size (routing m)) ++ gale_pack_text_len (routing m))
  ++ (gale_pack_u32 0 ++ gale_pack_copy (content m)).

(** Only queued messages are pending. *)
Definition only_queue (lo : link_out) : Prop :=
  out_msg lo = None /\ out_text lo = [] /\ out_watch lo = [] /\ out_fetch lo = []
  /\ out_publish lo = [] /\ out_supply lo = [] /\ out_assert lo = [] /\ out_complete lo = []
  /\ out_gimme lo = [] /\ out_will lo = None.

Lemma output_process_step fuel lo ob lo1 ob1 :
  output_step lo ob = Some (Done (lo1, ob1)) -> output_process (S fuel) lo ob = output_process fuel lo1 ob1.
Proof. simpl. by intros ->. Qed.

(** With only the queue pending, [ofn_idle] dequeues the oldest message
    into [out_msg] and starts its frame. *)
Lemma ofn_idle_dequeue st lo n q :
  only_queue lo -> out_queue lo = n :: q ->
  ofn_idle st lo = Done (header opcode_puff (message_frame_len (link_msg n)),
                         set_out_msg (Some (link_msg n)) (dequeue lo).1,
                         mk_output_state Ofn_message Output_always_ready).
Proof.
  intros (Hm & Ht & Hw & Hf & Hp & Hs & Ha & Hc & Hg & Hwl) Hq.
  unfold ofn_idle. rewrite Hm, Ht, Hw, Hf, Hp, Hs, Ha, Hc, Hg, Hwl. simpl.
  unfold dequeue. rewrite Hq. reflexivity.
Qed.

(** One queued message: [ofn_idle], [ofn_message], [ofn_msg_data]. *)
Lemma output_one_message lo acc n q :
  only_queue lo -> out_queue lo = n :: q ->
  exists lo', (forall fuel, output_process (3 + fuel) lo (mk_output_buffer ost_idle acc)
              = output_process fuel lo' (mk_output_buffer ost_idle (acc ++ message_frame opcode_puff (link_msg n))))
    /\ only_queue lo' /\ out_queue lo' = q /\ lo' = set_out_msg None (dequeue lo).1.
Proof.
  intros (Hm & Ht & Hw & Hf & Hp & Hs & Ha & Hc & Hg & Hwl) Hq.
  eexists. split; [|split; [|split; [|reflexivity]]].
  - intros fuel. change (3 + fuel)%nat with (S (S (S fuel))).
    erewrite output_process_step.
    2: { unfold output_step. simpl. unfold ofn_idle_ready, ofn_idle.
         rewrite Hm, Ht, Hw, Hf, Hp, Hs, Ha, Hc, Hg, Hwl, Hq. simpl.
         unfold dequeue. rewrite Hq. reflexivity. }
    erewrite output_process_step by reflexivity.
    erewrite output_process_step by reflexivity.
    unfold dequeue. rewrite Hq. cbn [ob_data]. unfold message_frame. rewrite <- !app_assoc. reflexivity.
  - unfold only_queue, dequeue. rewrite Hq. simpl. by split_and!.
  - unfold dequeue. by rewrite Hq.
Qed.

(** The queue written by the output loop (see [queue_written]). *)
Lemma output_writes_queue lo acc :
  only_queue lo -> queue_ok lo ->
  exists lo', output_process (3 * length (out_queue lo) + 1) lo (mk_output_buffer ost_idle acc)
    = Some (Done (lo', mk_output_buffer ost_idle
                         (acc ++ concat (map (fun n => message_frame opcode_puff (link_msg n)) (out_queue lo)))))
    /\ out_queue lo' = [] /\ queue_ok lo' /\ only_queue lo'.
Proof.
  remember (out_queue lo) as q eqn:Hq. revert lo acc Hq.
  induction q as [|n q IH]; intros lo acc Hq Ho Hok.
  - exists lo. simpl. unfold output_step. simpl.
    destruct Ho as (Hm & Ht & Hw & Hf & Hp & Hs & Ha & Hc & Hg & Hwl).
    unfold ofn_idle_ready. rewrite Hwl, Hg, <- Hq, Hp, Hw, Hc, Ha, Hf, Hs. simpl.
    rewrite app_nil_r. split; [done|]. by split_and!.
  - destruct (output_one_message lo acc n q Ho (eq_sym Hq)) as (lo1 & Hrun & Ho1 & Hq1 & ->).
    assert (Hok1 : queue_ok (set_out_msg None (dequeue lo).1)).
    { pose proof (dequeue_queue_ok lo Hok) as [H1 H2]. by split. }
    destruct (IH _ (acc ++ message_frame opcode_puff (link_msg n)) (eq_sym Hq1) Ho1 Hok1)
      as (lo2 & Hrun2 & Hq2 & Hok2 & Ho2).
    exists lo2. split; [|done].
    replace (3 * length (n :: q) + 1)%nat with (3 + (3 * length q + 1))%nat by (simpl; lia).
    rewrite Hrun, Hrun2. simpl. by rewrite <- app_assoc.
Qed.

(** C15: the output machine writes the queued messages as [puff]
    frames, oldest first, each exactly once, and stops with the queue
    empty and its counters consistent: [3] steps per message and one
    final step that finds nothing to send. *)
Theorem queue_written lo acc :
  only_queue lo -> queue_ok lo ->
  exists lo', output_process (3 * length (out_queue lo) + 1) lo (mk_output_buffer ost_idle acc)
    = Some (Done (lo', mk_output_buffer ost_idle
                         (acc ++ concat (map (fun n => message_frame opcode_puff (link_msg n)) (out_queue lo)))))
    /\ out_queue lo' = [] /\ queue_ok lo' /\ only_queue lo'.
Proof. apply output_writes_queue. Qed.

(** ** Instances *)

Definition example_key : bytes := [Byte.x61; Byte.x00; Byte.x62; Byte.x00].
Definition example_cid : bytes := repeat Byte.x07 20.
Definition example_packet : gale_packet := mk_packet [104; 105] [Byte.x2a].

(** A link with only a complete notice pending, one with a fetch
    request pending, and one with a single queued message. *)
Definition complete_only : link_out := set_out_complete [(example_key, St_yes)] new_link_out.
Definition fetch_only : link_out := set_out_fetch [(example_cid, St_yes)] new_link_out.
Definition one_queued : link_out :=
  set_queue_mem (message_size example_packet)
    (set_queue_num 1 (set_out_queue [mk_link example_packet gale_time_zero] new_link_out)).

Lemma output_process_safe_witness :
  output_wf new_link_out (ob_state create_output_buffer) /\
  exists r, output_process 3 new_link_out create_output_buffer = Some r /\
  exists lo' ob', r = Done (lo', ob') /\ output_wf lo' (ob_state ob').
Proof.
  assert (Hwf : output_wf new_link_out (ob_state create_output_buffer))
    by (split; [apply maps_wf_new | done]).
  split; [exact Hwf|]. eexists. split; [reflexivity|].
  apply (output_process_safe 3 new_link_out create_output_buffer); [exact Hwf | reflexivity].
Defined.

Lemma complete_after_assert_witness :
  take 8 (header opcode_complete 4 ++ []) = header opcode_complete 4 /\
  out_assert complete_only = [] /\ out_supply complete_only = [] /\ out_fetch complete_only = []
  /\ out_watch complete_only = [] /\ out_publish complete_only = [].
Proof.
  split; [reflexivity|].
  apply (complete_after_assert ost_idle complete_only (header opcode_complete 4)
           (set_out_complete [] (set_out_text [97; 98] complete_only))
           (mk_output_state Ofn_text Output_always_ready) 4); reflexivity.
Defined.

Lemma resent_forever_witness :
  output_wf fetch_only ost_idle /\ resent_pending fetch_only
  /\ output_process 100 fetch_only (mk_output_buffer ost_idle []) = None.
Proof.
  assert (Hwf : output_wf fetch_only ost_idle).
  { split; [|done]. repeat split; repeat constructor. }
  assert (Hp : resent_pending fetch_only) by (left; discriminate).
  split; [exact Hwf|]. split; [exact Hp|]. exact (resent_forever 100 fetch_only (mk_output_buffer ost_idle []) Hwf Hp).
Defined.

Lemma queue_written_witness :
  only_queue one_queued /\ queue_ok one_queued /\
  exists lo', output_process 4 one_queued (mk_output_buffer ost_idle [])
    = Some (Done (lo', mk_output_buffer ost_idle (message_frame opcode_puff example_packet)))
    /\ out_queue lo' = [].
Proof.
  assert (Ho : only_queue one_queued) by (repeat split).
  assert (Hq : queue_ok one_queued) by (split; reflexivity).
  split; [exact Ho|]. split; [exact Hq|].
  destruct (queue_written one_queued [] Ho Hq) as (lo' & Hrun & Hq' & _).
  exists lo'. split; [exact Hrun | exact Hq'].
Defined.

(** ** One-shot maps *)

(** C30: watch and forget notices are one-shot: when [ofn_idle] writes
    the first entry of [out_watch], it moves its category to [out_text]
    for [ofn_text] and removes exactly that entry from the map (proved
    against the [OrderedMap] interface of [GaleMap]). *)
Theorem watch_sent_once st lo bs lo' st' k v :
  map_sorted (out_watch lo) -> gale_map_walk (out_watch lo) None = Some (k, v) ->
  ofn_idle st lo = Done (bs, lo', st') ->
  out_text lo' = gale_text_from_data k /\ gale_map_find (out_watch lo') k = None
  /\ forall j, j <> k -> gale_map_find (out_watch lo') j = gale_map_find (out_watch lo) j.
Proof.
  intros Hs Hw E. unfold ofn_idle, c_assert in E. rewrite Hw in E.
  repeat (case_match; simplify_eq/=; try done).
  all: destruct (@om_remove_first gale_map gale_map_ordered mark (out_watch lo) k _ Hs Hw) as (_ & Hk & Hj);
       split_and!; [done | exact Hk | exact Hj].
Qed.

Definition watch_only : link_out := set_out_watch [(example_key, St_yes)] new_link_out.

Lemma watch_sent_once_witness :
  map_sorted (out_watch watch_only) /\ gale_map_walk (out_watch watch_only) None = Some (example_key, St_yes)
  /\ exists bs lo' st', ofn_idle ost_idle watch_only = Done (bs, lo', st')
  /\ out_text lo' = gale_text_from_data example_key /\ gale_map_find (out_watch lo') example_key = None
  /\ forall j, j <> example_key -> gale_map_find (out_watch lo') j = gale_map_find (out_watch watch_only) j.
Proof.
  assert (Hs : map_sorted (out_watch watch_only)) by repeat constructor.
  assert (Hw : gale_map_walk (out_watch watch_only) None = Some (example_key, St_yes)) by reflexivity.
  split; [exact Hs|]. split; [exact Hw|]. eexists _, _, _. split; [reflexivity|].
  eapply (watch_sent_once ost_idle watch_only); [exact Hs | exact Hw | reflexivity].
Defined.
