(* ===== verification/Session.v ===== *)
(** * Session: the API and the reactor callbacks of [core_link.c]

    A [gale_link] is driven by three liboop callbacks: [on_process] (run
    at [OOP_TIME_NOW]) hands decoded facts to the application's
    handlers, [on_read] feeds the input buffer, [on_write] drains the
    output buffer and performs the shutdown handshake.  The application
    changes the link with [link_set_fd], [link_shutdown],
    [link_subscribe], [link_will], the [link_on_*] registrations, the
    [ltx_*] mutators (protocol version 1, gated on the peer's version)
    and the [lrx_*] drains.

    A handler is a boolean (registered or [NULL]); what a handler
    returns to the reactor is the [callback] naming the call the source
    makes.  The input and output buffers of [io.c] (not in this
    repository) are modelled from the specification:
    [input_buffer_ready] holds when the input machine is ready,
    [input_buffer_more] runs the input machine over the bytes already
    buffered, [output_buffer_ready] holds when bytes are buffered or the
    output machine is ready, and [output_buffer_write] runs the output
    machine for a number of steps chosen by the environment and writes
    a prefix of the buffer.  What the descriptor does ([read], [write],
    [shutdown]) is an event given to the callback.  The theorems cover
    the version gate, reattachment, the shutdown handshake, the
    scheduling of [ltx_*], the one-shot assert map, and the abort that a
    content id of the wrong length causes in [on_write]. *)

From S2P Require Import Prelude Wire GaleMap GaleTime LinkState Input Output.

Local Open Scope gale_scope.

(** ** What a callback returns *)

Inductive callback :=
| Cb_continue                  (* OOP_CONTINUE *)
| Cb_message (m : gale_packet) (* l->on_message(l,puff,...) *)
| Cb_will (m : gale_packet)    (* l->on_will(l,will,...) *)
| Cb_subscribe (t : text)      (* l->on_subscribe(l,sub,...) *)
| Cb_empty                     (* l->on_empty(l,...) *)
| Cb_error (errno : Z).        (* l->on_error(l,errno,...) *)

(** What the descriptor does when [on_read] reads: bytes, end of file
    ([errno] 0), or an error. *)
Inductive read_event :=
| Rd_data (bs : bytes)
| Rd_eof
| Rd_error (errno : Z).

(** What the descriptor does when [on_write] writes: the output machine
    runs [steps] steps and the descriptor accepts [accepted] bytes; or
    [write] (or [shutdown]) fails. *)
Inductive write_event :=
| Wr_ok (steps accepted : nat)
| Wr_error (errno : Z).

(** ** The buffers of [io.c] *)

(** The input loop with enough fuel (see [input_process_terminates]). *)
Definition run_input (l : link_in) (ib : input_buffer) : outcome (link_in * input_buffer) :=
  match input_process (S (input_measure ib)) l ib with
  | Some r => r
  | None => Done (l, ib)
  end.

Definition input_buffer_ready (l : link_in) (ib : input_buffer) : bool :=
  run_ready (inp_ready (ib_state ib)) l.

Definition input_buffer_more (l : gale_link) : outcome gale_link :=
  match input l with
  | None => Done l
  | Some ib => r ← run_input (lin l) ib; Done (set_input (Some r.2) (set_lin r.1 l))
  end.

(** [input_buffer_read]: append what was read and run the machine;
    [true] on end of file or error. *)
Definition input_buffer_read (l : gale_link) (ev : read_event) : outcome (gale_link * bool) :=
  match ev, input l with
  | Rd_data bs, Some ib =>
      l' ← input_buffer_more (set_input (Some (mk_input_buffer (ib_state ib) (ib_data ib ++ bs))) l);
      Done (l', false)
  | _, _ => Done (l, true)
  end.

(** The output loop for at most [fuel] steps. *)
Fixpoint output_fill (fuel : nat) (lo : link_out) (ob : output_buffer)
    : outcome (link_out * output_buffer) :=
  match fuel with
  | O => Done (lo, ob)
  | S fuel' =>
      match output_step lo ob with
      | None => Done (lo, ob)
      | Some (Abort s) => Abort s
      | Some (Done (lo', ob')) => output_fill fuel' lo' ob'
      end
  end.

Definition output_buffer_ready (lo : link_out) (ob : output_buffer) : bool :=
  negb (length (ob_data ob) =? 0)%nat || run_oready (out_ready (ob_state ob)) lo.

(** [output_buffer_write]: the link, the bytes written, and [true] on error. *)
Definition output_buffer_write (l : gale_link) (ev : write_event) : outcome (gale_link * bytes * bool) :=
  match ev, output l with
  | Wr_ok steps n, Some ob =>
      r ← output_fill steps (lout l) ob;
      let '(lo', ob') := (r : link_out * output_buffer) in
      Done (set_output (Some (mk_output_buffer (ob_state ob') (drop n (ob_data ob'))))
              (set_lout lo' l), take n (ob_data ob'), false)
  | _, _ => Done (l, [], true)
  end.

Definition event_errno (ev : read_event) : Z :=
  match ev with Rd_error e => e | _ => 0 end.

Definition write_errno (ev : write_event) : Z :=
  match ev with Wr_error e => e | _ => 0 end.

(** ** Reactor registrations *)

Definition cancel_read (l : gale_link) : gale_link :=
  let r := reactor l in set_reactor (mk_regs (reg_process r) false (reg_write r)) l.

Definition cancel_write (l : gale_link) : gale_link :=
  let r := reactor l in set_reactor (mk_regs (reg_process r) (reg_read r) false) l.

Definition set_on_error (b : bool) (l : gale_link) : gale_link :=
  let h := handlers l in set_handlers (mk_handlers b (on_empty h) (on_message h) (on_will h) (on_subscribe h)) l.
Definition set_on_empty (b : bool) (l : gale_link) : gale_link :=
  let h := handlers l in set_handlers (mk_handlers (on_error h) b (on_message h) (on_will h) (on_subscribe h)) l.
Definition set_on_message (b : bool) (l : gale_link) : gale_link :=
  let h := handlers l in set_handlers (mk_handlers (on_error h) (on_empty h) b (on_will h) (on_subscribe h)) l.
Definition set_on_will (b : bool) (l : gale_link) : gale_link :=
  let h := handlers l in set_handlers (mk_handlers (on_error h) (on_empty h) (on_message h) b (on_subscribe h)) l.
Definition set_on_subscribe (b : bool) (l : gale_link) : gale_link :=
  let h := handlers l in set_handlers (mk_handlers (on_error h) (on_empty h) (on_message h) (on_will h) b) l.

Definition link_on_error (l : gale_link) (call : bool) : gale_link := activate (set_on_error call l).
Definition link_on_empty (l : gale_link) (call : bool) : gale_link := activate (set_on_empty call l).
Definition link_on_message (l : gale_link) (call : bool) : gale_link := activate (set_on_message call l).
Definition link_on_will (l : gale_link) (call : bool) : gale_link := activate (set_on_will call l).
Definition link_on_subscribe (l : gale_link) (call : bool) : gale_link := activate (set_on_subscribe call l).

(** Apply [f] to the input or output half. *)
Definition upd_lin (f : link_in -> link_in) (l : gale_link) : gale_link := set_lin (f (lin l)) l.
Definition upd_lout (f : link_out -> link_out) (l : gale_link) : gale_link := set_lout (f (lout l)) l.

(** ** The reactor callbacks *)

(** [on_process]: hand one decoded fact to its handler, in the order
    puff, will, subscription; report an empty detached link. *)
Definition on_process (l : gale_link) : outcome (gale_link * callback) :=
  let h := handlers l in
  match in_puff (lin l), on_message h with
  | Some puff, true =>
      l ← input_buffer_more (upd_lin (set_in_puff None) l);
      Done (activate l, Cb_message puff)
  | _, _ =>
  match in_will (lin l), on_will h with
  | Some will, true => Done (activate (upd_lin (set_in_will None) l), Cb_will will)
  | _, _ =>
  if negb (length (in_gimme (lin l)) =? 0)%nat && on_subscribe h then
    Done (activate (upd_lin (set_in_gimme []) l), Cb_subscribe (in_gimme (lin l)))
  else if (fd l =? -1) && (link_queue_num l =? 0) && on_empty h then
    Done (activate l, Cb_empty)
  else Done (l, Cb_continue)
  end end.

(** [on_read]: create the input buffer on first use; stop reading while
    the machine is not ready; otherwise read, and report end of file
    (completing a shutdown) or an error. *)
Definition on_read (l : gale_link) (ev : read_event) : outcome (gale_link * callback) :=
  let ib := match input l with Some ib => ib | None => create_input_buffer end in
  let l := set_input (Some ib) l in
  if negb (input_buffer_ready (lin l) ib) then Done (cancel_read l, Cb_continue)
  else
    r ← input_buffer_read l ev;
    let '(l, failed) := (r : gale_link * bool) in
    if failed then
      if (if out_shutdown (lout l) is Done_shutdown then true else false) && (event_errno ev =? 0) then
        let l := upd_lout (set_out_shutdown No_shutdown) l in
        Done (l, if on_empty (handlers l) then Cb_empty else Cb_continue)
      else Done (l, if on_error (handlers l) then Cb_error (event_errno ev) else Cb_continue)
    else Done (activate l, Cb_continue).

(** [on_write]: create the output buffer on first use; when there is
    nothing to write, stop writing and go on with the shutdown
    handshake; otherwise write.  The bytes written are returned. *)
Definition on_write (l : gale_link) (ev : write_event) : outcome (gale_link * bytes * callback) :=
  let ob := match output l with Some ob => ob | None => create_output_buffer end in
  let l := set_output (Some ob) l in
  if negb (output_buffer_ready (lout l) ob) then
    let l := cancel_write l in
    match out_shutdown (lout l) with
    | No_shutdown =>
        Done (l, [], if (link_queue_num l =? 0) && on_empty (handlers l) then Cb_empty else Cb_continue)
    | Do_shutdown =>
        match ev with
        | Wr_ok _ _ => Done (upd_lout (set_out_shutdown Done_shutdown) l, [], Cb_continue)
        | Wr_error e => Done (l, [], if on_error (handlers l) then Cb_error e else Cb_continue)
        end
    | Done_shutdown => Done (l, [], Cb_continue)
    end
  else
    r ← output_buffer_write l ev;
    let '(l, bs, failed) := (r : gale_link * bytes * bool) in
    Done (l, bs, if failed && on_error (handlers l) then Cb_error (write_errno ev) else Cb_continue).

(** ** Attaching, detaching, shutting down *)

(** [link_set_fd]: an attached link forgets its partial frames and both
    buffers before it is attached to [fd']. *)
Definition link_set_fd (l : gale_link) (fd' : Z) : gale_link :=
  let l := if negb (fd l =? -1) then
             let l := upd_lin (set_in_msg None) l in
             let l := set_input None l in
             let l := upd_lout (set_out_msg None) l in
             let l := if negb (length (out_text (lout l)) =? 0)%nat then upd_lout (set_out_text []) l else l in
             set_output None l
           else l in
  activate (set_fd fd' (deactivate l)).

Definition delete_link (l : gale_link) : gale_link := deactivate (link_set_fd l (-1)).

Definition link_get_fd (l : gale_link) : Z := fd l.

Definition link_shutdown (l : gale_link) : gale_link :=
  activate (upd_lout (set_out_shutdown Do_shutdown) l).

Definition link_subscribe (l : gale_link) (spec : text) : gale_link :=
  activate (upd_lout (set_out_gimme spec) l).

Definition link_will (l : gale_link) (m : gale_packet) : gale_link :=
  activate (upd_lout (set_out_will (Some m)) l).

(** ** The version-1 API *)

(** [combine(cat,cid)]: the id, then the length-prefixed category. *)
Definition combine (cat : text) (cid : bytes) : outcome bytes :=
  let data := gale_pack_copy cid ++ gale_pack_text cat in
  ASSERT (Z.of_nat (length data) =? gale_text_size cat + Z.of_nat (length cid))
    AT "combine: data.l == gale_text_size(cat) + cid.l";
  Done data.

(** The precondition of every [ltx_*]: the peer's version is known. *)
Definition version_gate (name : string) (l : gale_link) (k : outcome gale_link) : outcome gale_link :=
  ASSERT (in_version (lin l) >? 0) AT ((name ++ ": l->in_version > 0")%string); k.

Definition map_put (get : link_out -> gale_map mark) (set : gale_map mark -> link_out -> link_out)
    (key : bytes) (v : mark) (l : gale_link) : gale_link :=
  upd_lout (fun lo => set (gale_map_add (get lo) key (Some v)) lo) l.

Definition ltx_publish (l : gale_link) (spec : text) : outcome gale_link :=
  version_gate "ltx_publish" l (Done (upd_lout (set_out_publish spec) l)).

Definition ltx_watch (l : gale_link) (category : text) : outcome gale_link :=
  version_gate "ltx_watch" l (Done (map_put out_watch set_out_watch (gale_text_as_data category) St_yes l)).

Definition ltx_forget (l : gale_link) (category : text) : outcome gale_link :=
  version_gate "ltx_forget" l (Done (map_put out_watch set_out_watch (gale_text_as_data category) St_no l)).

Definition ltx_complete (l : gale_link) (category : text) : outcome gale_link :=
  version_gate "ltx_complete" l
    (Done (map_put out_complete set_out_complete (gale_text_as_data category) St_yes l)).

Definition ltx_assert (l : gale_link) (cat : text) (cid : bytes) : outcome gale_link :=
  version_gate "ltx_assert" l (key ← combine cat cid; Done (map_put out_assert set_out_assert key St_yes l)).

Definition ltx_retract (l : gale_link) (cat : text) (id : bytes) : outcome gale_link :=
  version_gate "ltx_retract" l (key ← combine cat id; Done (map_put out_assert set_out_assert key St_no l)).

Definition ltx_fetch (l : gale_link) (cid : bytes) : outcome gale_link :=
  version_gate "ltx_fetch" l (Done (map_put out_fetch set_out_fetch cid St_yes l)).

Definition ltx_miss (l : gale_link) (cid : bytes) : outcome gale_link :=
  version_gate "ltx_miss" l (Done (map_put out_supply set_out_supply cid St_no l)).

Definition ltx_supply (l : gale_link) (id data : bytes) : outcome gale_link :=
  version_gate "ltx_supply" l (Done (map_put out_supply set_out_supply id (St_data data) l)).

(** [get_text(l,from,to)]: [from] is the field, given by its reader
    and its writer. *)
Definition get_text (get : link_in -> text) (set : text -> link_in -> link_in) (l : gale_link)
    : outcome (gale_link * option text) :=
  let from := get (lin l) in
  if (length from =? 0)%nat then Done (l, None)
  else l ← input_buffer_more (upd_lin (set []) l); Done (l, Some from).

Definition get_data (get : link_in -> bytes) (set : bytes -> link_in -> link_in) (l : gale_link)
    : outcome (gale_link * option bytes) :=
  let from := get (lin l) in
  if (length from =? 0)%nat then Done (l, None)
  else l ← input_buffer_more (upd_lin (set []) l); Done (l, Some from).

Definition lrx_publish (l : gale_link) := get_text in_publish set_in_publish l.
Definition lrx_watch (l : gale_link) := get_text in_watch set_in_watch l.
Definition lrx_forget (l : gale_link) := get_text in_forget set_in_forget l.
Definition lrx_complete (l : gale_link) := get_text in_complete set_in_complete l.

Definition pair_set_cid (p : cid_pair) (d : bytes) : cid_pair := mk_cid_pair d (pair_cat p).
Definition pair_set_cat (p : cid_pair) (t : text) : cid_pair := mk_cid_pair (pair_cid p) t.

Definition lrx_assert (l : gale_link) : outcome (gale_link * bytes * option text) :=
  let cid := pair_cid (in_assert (lin l)) in
  let l := upd_lin (fun li => set_in_assert (pair_set_cid (in_assert li) []) li) l in
  r ← get_text (fun li => pair_cat (in_assert li))
                (fun t li => set_in_assert (pair_set_cat (in_assert li) t) li) l;
  Done (r.1, cid, r.2).

Definition lrx_retract (l : gale_link) : outcome (gale_link * bytes * option text) :=
  let cid := pair_cid (in_retract (lin l)) in
  let l := upd_lin (fun li => set_in_retract (pair_set_cid (in_retract li) []) li) l in
  r ← get_text (fun li => pair_cat (in_retract li))
                (fun t li => set_in_retract (pair_set_cat (in_retract li) t) li) l;
  Done (r.1, cid, r.2).

Definition lrx_fetch (l : gale_link) := get_data in_fetch_cid set_in_fetch_cid l.
Definition lrx_miss (l : gale_link) := get_data in_miss_cid set_in_miss_cid l.

Definition lrx_supply (l : gale_link) : outcome (gale_link * bytes * option bytes) :=
  let cid := in_supply_cid (lin l) in
  let l := upd_lin (set_in_supply_cid []) l in
  r ← get_data in_supply_data set_in_supply_data l;
  Done (r.1, cid, r.2).

(** ** Runs of the reactor *)

(** The reactor calling [on_process] [n] times; the callbacks made, in order. *)
Fixpoint process_n (n : nat) (l : gale_link) : outcome (gale_link * list callback) :=
  match n with
  | O => Done (l, [])
  | S n' =>
      r ← on_process l;
      r' ← process_n n' r.1;
      Done (r'.1, r.2 :: r'.2)
  end.

(** ** Lemmas *)

Lemma version_gate_closed name l k :
  in_version (lin l) <= 0 -> version_gate name l k = Abort (name ++ ": l->in_version > 0")%string.
Proof.
  intros H. unfold version_gate. replace (in_version (lin l) >? 0) with false; [done|].
  symmetry. rewrite Z.gtb_ltb. apply Z.ltb_ge. lia.
Qed.

Lemma version_gate_open name l k : 0 < in_version (lin l) -> version_gate name l k = k.
Proof.
  intros H. unfold version_gate. replace (in_version (lin l) >? 0) with true; [done|].
  symmetry. rewrite Z.gtb_ltb. apply Z.ltb_lt. lia.
Qed.

(** The input loop on the four version bytes of a fresh buffer. *)
Lemma run_input_version l v :
  run_input l (mk_input_buffer ist_version (gale_pack_u32 v))
  = Done (set_in_length 0
            (if v mod 2 ^ 32 >? PROTOCOL_VERSION
             then set_in_version PROTOCOL_VERSION (gale_alert (W_version (v mod 2 ^ 32)) l)
             else set_in_version (v mod 2 ^ 32) l),
          mk_input_buffer idle_input_state []).
Proof.
  unfold run_input, input_measure. cbn [ib_data ib_state]. rewrite length_pack_u32.
  cbn [input_process]. rewrite <- (app_nil_r (gale_pack_u32 v)), input_step_version. reflexivity.
Qed.

Lemma input_step_idle_nil l : input_step l (mk_input_buffer idle_input_state []) = None.
Proof. reflexivity. Qed.

(** A drain of an empty slot returns nothing and changes nothing. *)
Lemma get_text_empty get set l : get (lin l) = [] -> get_text get set l = Done (l, None).
Proof. unfold get_text. by intros ->. Qed.

(** A drain of a full slot on an idle machine with nothing buffered. *)
Lemma get_text_idle get set l :
  input l = Some (mk_input_buffer idle_input_state []) -> get (lin l) <> [] ->
  in_length (set [] (lin l)) = 0 ->
  get_text get set l
  = Done (set_input (Some (mk_input_buffer idle_input_state [])) (upd_lin (set []) l), Some (get (lin l))).
Proof.
  intros Hi Hne Hl. unfold get_text.
  destruct (length (get (lin l)) =? 0)%nat eqn:E; [by apply Nat.eqb_eq, nil_length_inv in E|].
  unfold input_buffer_more, upd_lin. cbn [input set_lin lin]. rewrite Hi.
  unfold run_input. cbn [input_process]. rewrite input_step_idle_nil. reflexivity.
Qed.

(** ** The version gate *)

(** C11: the version-1 mutators are gated on the peer's version: on a
    link whose input machine has not started and whose [in_version] is
    unknown, [ltx_watch] fails its [assert]; once [on_read] has read a
    peer version [v >= 1], [in_version] is 1 and the same call records
    the watch. *)
Theorem watch_after_handshake l cat v :
  input l = None -> in_version (lin l) <= 0 -> 1 <= v < 2 ^ 32 ->
  ltx_watch l cat = Abort "ltx_watch: l->in_version > 0"
  /\ exists l', on_read l (Rd_data (gale_pack_u32 v)) = Done (l', Cb_continue)
     /\ in_version (lin l') = 1
     /\ ltx_watch l' cat = Done (map_put out_watch set_out_watch (gale_text_as_data cat) St_yes l').
Proof.
  intros Hi Hv Hr. split; [by apply version_gate_closed|].
  unfold on_read. rewrite Hi. cbn -[run_input].
  unfold input_buffer_more. cbn -[run_input]. rewrite run_input_version, Z.mod_small by lia.
  destruct (Z.gtb_spec v PROTOCOL_VERSION) as [Hgt|Hle];
    eexists; (split; [reflexivity|]); rewrite !lin_activate; cbn [lin set_lin set_input];
    (split; [cbn; unfold PROTOCOL_VERSION in *; lia|]);
    apply version_gate_open; rewrite lin_activate; cbn; unfold PROTOCOL_VERSION in *; lia.
Qed.

(** ** Attaching to a new descriptor *)

(** What [link_set_fd] keeps: the pending output (queue, will,
    subscription, published value and the five maps), the undrained
    input slots other than the partial message, and the handlers. *)
Definition pending_out (lo : link_out) :=
  (out_will lo, out_gimme lo, out_queue lo, queue_num lo, queue_mem lo, out_publish lo,
   out_watch lo, out_complete lo, out_assert lo, out_fetch lo, out_supply lo, out_shutdown lo).

(** C17: [link_set_fd] on an attached link forgets the partial frames of
    both directions ([in_msg], [out_msg], [out_text] and both buffers)
    and keeps everything the application asked to send, its handlers
    and the decoded input; the link is then registered for processing
    and, if attached to a descriptor, for reading and writing. *)
Theorem link_set_fd_resets l fd' :
  fd l <> -1 ->
  let l' := link_set_fd l fd' in
  input l' = None /\ output l' = None /\ in_msg (lin l') = None /\ out_msg (lout l') = None
  /\ out_text (lout l') = [] /\ fd l' = fd'
  /\ pending_out (lout l') = pending_out (lout l) /\ handlers l' = handlers l
  /\ lin l' = set_in_msg None (lin l)
  /\ reactor l' = if fd' =? -1 then mk_regs true false false else mk_regs true true true.
Proof.
  intros Hfd. unfold link_set_fd. rewrite (proj2 (Z.eqb_neq _ _) Hfd). cbn [negb].
  destruct (length (out_text (lout l)) =? 0)%nat eqn:Et;
    unfold activate, deactivate; repeat case_match; simplify_eq/=; bool_to_prop;
    try apply nil_length_inv in Et; split_and!; try done; try lia.
Qed.

(** An attached link whose peer version is known, with one message
    queued. *)
Definition example_attached : gale_link :=
  (link_put gale_time_last0 (mk_timeval 1 0)
     (upd_lin (set_in_version 1) (link_set_fd new_link 3)) example_packet).1.

(** The link of [example_attached]'s queue. *)
Definition example_inflight : link := hd (mk_link example_packet gale_time_zero) (out_queue (lout example_attached)).

(** C21: a queued message whose frame has started but is not yet
    written is lost when the link is attached to a new descriptor:
    with only the queue pending, [ofn_idle] dequeues the oldest message
    [n] into [out_msg] and starts its frame; [link_set_fd] then clears
    [out_msg] and keeps the queue, which is the rest [q] without [n].
    The new connection never sends [n], although the queue is meant to
    survive reattachment. *)
Theorem reattach_drops_inflight l st n q fd' :
  only_queue (lout l) -> out_queue (lout l) = n :: q -> fd l <> -1 ->
  match ofn_idle st (lout l) with
  | Done (_, lo1, _) =>
      out_msg lo1 = Some (link_msg n) /\ out_queue lo1 = q
      /\ out_msg (lout (link_set_fd (set_lout lo1 l) fd')) = None
      /\ out_queue (lout (link_set_fd (set_lout lo1 l) fd')) = q
  | Abort _ => False
  end.
Proof.
  intros Ho Hq Hfd. rewrite (ofn_idle_dequeue st _ n q Ho Hq).
  pose proof Ho as (_ & Ht & _).
  assert (Hq1 : out_queue (dequeue (lout l)).1 = q) by (unfold dequeue; by rewrite Hq).
  unfold link_set_fd. cbn [fd set_lout]. rewrite (proj2 (Z.eqb_neq _ _) Hfd). cbn [negb].
  rewrite lout_activate. cbn [set_fd lout]. rewrite lout_deactivate.
  assert (Htx : out_text (dequeue (lout l)).1 = []) by (unfold dequeue; rewrite Hq; exact Ht).
  unfold upd_lout. cbn. rewrite Htx. cbn. split_and!; done.
Qed.

(** ** Scheduling of writes *)

Lemma map_nonempty_add {V} (m : gale_map V) k x : map_nonempty (gale_map_add m k (Some x)) = true.
Proof.
  unfold map_nonempty. destruct (gale_map_walk _ None) eqn:E; [done|].
  apply gale_map_walk_first_None in E. by apply gale_map_add_nonempty in E.
Qed.

(** With nothing buffered and the machine waiting in [Idle], the output
    buffer is ready exactly when [ofn_idle_ready] is. *)
Lemma output_buffer_ready_false lo ob :
  output_buffer_ready lo ob = false -> ob_data ob = [] /\ out_ready (ob_state ob) = Ofn_idle_ready
  /\ ofn_idle_ready lo = false.
Proof.
  unfold output_buffer_ready. intros H. apply orb_false_iff in H as [H1 H2].
  apply negb_false_iff, Nat.eqb_eq, nil_length_inv in H1.
  destruct (out_ready (ob_state ob)); simpl in H2; done.
Qed.

(** C22: the [ltx_*] mutators do not call [activate]: once [on_write]
    has found nothing to write and cancelled its registration,
    [ltx_watch] gives the output machine something to write but leaves
    the link unregistered for writing, so the watch waits until some
    other call activates the link ([link_put], [link_subscribe],
    [link_will] and [link_shutdown] all do). *)
Theorem ltx_watch_unscheduled l ev ob l1 bs cb cat l2 :
  output l = Some ob -> output_buffer_ready (lout l) ob = false ->
  on_write l ev = Done (l1, bs, cb) -> ltx_watch l1 cat = Done l2 ->
  reg_write (reactor l1) = false /\ reg_write (reactor l2) = false
  /\ output l2 = Some ob /\ output_buffer_ready (lout l2) ob = true.
Proof.
  intros Ho Hr Hw Hx. pose proof (output_buffer_ready_false _ _ Hr) as (Hd & Hst & Hi).
  unfold on_write in Hw. rewrite Ho in Hw. cbn [output set_output lout] in Hw. rewrite Hr in Hw.
  cbn [negb] in Hw. unfold ltx_watch, version_gate, c_assert in Hx. case_match; [|done].
  unfold output_buffer_ready. rewrite Hd, Hst. cbn.
  repeat case_match; simplify_eq/=; split_and!; try done;
    unfold ofn_idle_ready in *; cbn; rewrite map_nonempty_add; by rewrite !orb_true_r.
Qed.

(** ** Graceful shutdown *)

Lemma output_fill_keeps_shutdown fuel lo ob lo' ob' :
  output_fill fuel lo ob = Done (lo', ob') -> out_shutdown lo' = out_shutdown lo.
Proof.
  revert lo ob. induction fuel as [|fuel IH]; intros lo ob; simpl; [by intros [= -> _]|].
  destruct (output_step lo ob) as [[[lo1 ob1]|s]|] eqn:E; [|done|by intros [= -> _]].
  intros H. rewrite (IH _ _ H). by eapply output_step_keeps_shutdown.
Qed.

Lemma output_buffer_write_keeps_shutdown l ev l' bs b :
  output_buffer_write l ev = Done (l', bs, b) -> out_shutdown (lout l') = out_shutdown (lout l).
Proof.
  unfold output_buffer_write. destruct ev, (output l); try by intros [= -> _ _].
  destruct (output_fill _ _ _) as [[lo1 ob1]|] eqn:E; intros H; simplify_eq/=.
  by eapply output_fill_keeps_shutdown.
Qed.

(** C16: graceful shutdown half-closes only after everything was
    written: [on_write] moves [out_shutdown] from [Do_shutdown] to
    [Done_shutdown] only when the output buffer is empty and the output
    machine has nothing left to send, the outbound queue included. *)
Theorem shutdown_after_output l ev l' bs cb :
  out_shutdown (lout l) = Do_shutdown -> on_write l ev = Done (l', bs, cb) ->
  out_shutdown (lout l') = Done_shutdown ->
  exists ob, output l = Some ob /\ ob_data ob = [] /\ ofn_idle_ready (lout l) = false
  /\ out_queue (lout l) = [].
Proof.
  intros Hs Hw Hd. unfold on_write in Hw.
  destruct (output_buffer_ready _ _) eqn:Hr; cbn [negb] in Hw.
  - destruct (output_buffer_write _ _) as [[[l1 bs1] b1]|] eqn:E; simplify_eq/=.
    apply output_buffer_write_keeps_shutdown in E. cbn in E. congruence.
  - destruct (output l) as [ob|] eqn:Ho; [|done].
    cbn [lout set_output] in Hr. destruct (output_buffer_ready_false _ _ Hr) as (Hd' & _ & Hi).
    exists ob. split_and!; [done..|].
    destruct (out_queue (lout l)) eqn:Eq; [done|]. exfalso.
    unfold ofn_idle_ready in Hi. rewrite Eq, bool_decide_eq_false_2 in Hi by done. cbn [negb] in Hi.
    by rewrite !orb_true_r, ?orb_true_l in Hi.
Qed.

(** ** Instances *)

(** An attached link, peer version known, idle output, nothing pending. *)
Definition example_idle : gale_link :=
  set_output (Some (mk_output_buffer ost_idle []))
    (upd_lin (set_in_version 1) (link_set_fd new_link 3)).

Lemma watch_after_handshake_witness :
  input (link_set_fd new_link 3) = None /\ in_version (lin (link_set_fd new_link 3)) <= 0 /\ 1 <= 1 < 2 ^ 32 /\
  ltx_watch (link_set_fd new_link 3) [97] = Abort "ltx_watch: l->in_version > 0"
  /\ exists l', on_read (link_set_fd new_link 3) (Rd_data (gale_pack_u32 1)) = Done (l', Cb_continue)
     /\ in_version (lin l') = 1
     /\ ltx_watch l' [97] = Done (map_put out_watch set_out_watch (gale_text_as_data [97]) St_yes l').
Proof.
  assert (H1 : input (link_set_fd new_link 3) = None) by reflexivity.
  assert (H2 : in_version (lin (link_set_fd new_link 3)) <= 0) by (vm_compute; discriminate).
  assert (H3 : 1 <= 1 < 2 ^ 32) by lia.
  split; [exact H1|]. split; [exact H2|]. split; [exact H3|].
  exact (watch_after_handshake _ [97] 1 H1 H2 H3).
Defined.

Lemma link_set_fd_resets_witness :
  fd example_attached <> -1 /\
  let l' := link_set_fd example_attached 5 in
  input l' = None /\ output l' = None /\ in_msg (lin l') = None /\ out_msg (lout l') = None
  /\ out_text (lout l') = [] /\ fd l' = 5
  /\ pending_out (lout l') = pending_out (lout example_attached) /\ handlers l' = handlers example_attached
  /\ lin l' = set_in_msg None (lin example_attached)
  /\ reactor l' = if 5 =? -1 then mk_regs true false false else mk_regs true true true.
Proof.
  assert (H : fd example_attached <> -1) by (vm_compute; discriminate).
  split; [exact H|]. exact (link_set_fd_resets example_attached 5 H).
Defined.

Lemma reattach_drops_inflight_witness :
  only_queue (lout example_attached) /\ out_queue (lout example_attached) = [example_inflight]
  /\ fd example_attached <> -1 /\
  match ofn_idle ost_idle (lout example_attached) with
  | Done (_, lo1, _) =>
      out_msg lo1 = Some (link_msg example_inflight) /\ out_queue lo1 = []
      /\ out_msg (lout (link_set_fd (set_lout lo1 example_attached) 5)) = None
      /\ out_queue (lout (link_set_fd (set_lout lo1 example_attached) 5)) = []
  | Abort _ => False
  end.
Proof.
  assert (Ho : only_queue (lout example_attached)) by (vm_compute; split_and!; reflexivity).
  assert (Hq : out_queue (lout example_attached) = [example_inflight]) by (vm_compute; reflexivity).
  assert (Hfd : fd example_attached <> -1) by (vm_compute; discriminate).
  split_and!; [exact Ho | exact Hq | exact Hfd |].
  exact (reattach_drops_inflight example_attached ost_idle example_inflight [] 5 Ho Hq Hfd).
Defined.

Lemma ltx_watch_unscheduled_witness :
  output example_idle = Some (mk_output_buffer ost_idle [])
  /\ output_buffer_ready (lout example_idle) (mk_output_buffer ost_idle []) = false
  /\ exists l1 bs cb l2, on_write example_idle (Wr_ok 1 0) = Done (l1, bs, cb)
     /\ ltx_watch l1 [97] = Done l2
     /\ reg_write (reactor l1) = false /\ reg_write (reactor l2) = false
     /\ output l2 = Some (mk_output_buffer ost_idle [])
     /\ output_buffer_ready (lout l2) (mk_output_buffer ost_idle []) = true.
Proof.
  assert (Ho : output example_idle = Some (mk_output_buffer ost_idle [])) by reflexivity.
  assert (Hr : output_buffer_ready (lout example_idle) (mk_output_buffer ost_idle []) = false)
    by reflexivity.
  split; [exact Ho|]. split; [exact Hr|].
  eexists _, _, _, _. split; [reflexivity|]. split; [reflexivity|].
  eapply (ltx_watch_unscheduled example_idle (Wr_ok 1 0) _ _ _ _ [97]); [exact Ho | exact Hr | reflexivity..].
Defined.

Lemma shutdown_after_output_witness :
  out_shutdown (lout (link_shutdown example_idle)) = Do_shutdown
  /\ exists l' bs cb, on_write (link_shutdown example_idle) (Wr_ok 0 0) = Done (l', bs, cb)
  /\ out_shutdown (lout l') = Done_shutdown
  /\ exists ob, output (link_shutdown example_idle) = Some ob /\ ob_data ob = []
     /\ ofn_idle_ready (lout (link_shutdown example_idle)) = false
     /\ out_queue (lout (link_shutdown example_idle)) = [].
Proof.
  assert (Hs : out_shutdown (lout (link_shutdown example_idle)) = Do_shutdown) by reflexivity.
  split; [exact Hs|]. eexists _, _, _. split; [reflexivity|]. split; [reflexivity|].
  eapply (shutdown_after_output (link_shutdown example_idle) (Wr_ok 0 0)); [exact Hs | reflexivity | reflexivity].
Defined.

(** ** Last writer wins *)

Lemma combine_ok cat cid : combine cat cid = Done (gale_pack_copy cid ++ gale_pack_text cat).
Proof.
  unfold combine. rewrite length_app, length_pack_text. unfold gale_pack_copy, gale_text_size,
    gale_text_len_size, gale_u32_size, gale_wch_size.
  rewrite (proj2 (Z.eqb_eq _ _)) by lia. reflexivity.
Qed.

(** C31: a retract after an assert of the same category and id, before
    the notice is written, replaces it: the assert map holds the retract
    for their key ([combine cat cid]) and no other entry changes (proved
    against the [OrderedMap] interface). *)
Theorem retract_overrides_assert l cat cid l1 l2 :
  map_sorted (out_assert (lout l)) -> ltx_assert l cat cid = Done l1 -> ltx_retract l1 cat cid = Done l2 ->
  let key := gale_pack_copy cid ++ gale_pack_text cat in
  gale_map_find (out_assert (lout l2)) key = Some St_no
  /\ forall j, j <> key -> gale_map_find (out_assert (lout l2)) j = gale_map_find (out_assert (lout l)) j.
Proof.
  intros Hs E1 E2 key. unfold ltx_assert, ltx_retract, version_gate, c_assert in *.
  rewrite combine_ok in E1, E2. cbn in E1, E2.
  repeat case_match; simplify_eq/=. fold key. split.
  - exact (@om_last_writer_wins gale_map gale_map_ordered mark _ key _ _ Hs).
  - intros j Hj. rewrite (@om_find_add_other gale_map gale_map_ordered mark) by (try apply gale_map_add_sorted; done).
    exact (@om_find_add_other gale_map gale_map_ordered mark _ key j _ Hs Hj).
Qed.

Lemma retract_overrides_assert_witness :
  map_sorted (out_assert (lout example_idle)) /\
  exists l1 l2, ltx_assert example_idle [97] example_cid = Done l1 /\ ltx_retract l1 [97] example_cid = Done l2
  /\ let key := gale_pack_copy example_cid ++ gale_pack_text [97] in
     gale_map_find (out_assert (lout l2)) key = Some St_no
     /\ forall j, j <> key -> gale_map_find (out_assert (lout l2)) j = gale_map_find (out_assert (lout example_idle)) j.
Proof.
  assert (Hs : map_sorted (out_assert (lout example_idle))) by constructor.
  split; [exact Hs|]. eexists _, _. split; [reflexivity|]. split; [reflexivity|].
  eapply (retract_overrides_assert example_idle [97] example_cid); [exact Hs | reflexivity | reflexivity].
Defined.

(** ** Content ids of the wrong length *)

(** C40: [ltx_fetch] stores a content id of any length, but the output
    machine asserts [CID_LENGTH == l->out_cid.l] when it writes the
    request: on a link with nothing else to send, a fetch of an id that
    is not 20 bytes long makes the next [on_write] abort the program. *)
Theorem fetch_bad_cid_aborts l cid steps n :
  0 < in_version (lin l) -> out_watch (lout l) = [] -> out_fetch (lout l) = [] ->
  output l = Some (mk_output_buffer ost_idle []) -> out_msg (lout l) = None -> out_text (lout l) = [] ->
  length cid <> 20%nat ->
  exists l1, ltx_fetch l cid = Done l1
  /\ on_write l1 (Wr_ok (S steps) n) = Abort "ofn_idle: CID_LENGTH == l->out_cid.l".
Proof.
  intros Hv Hw Hf Ho Hm Ht Hc.
  unfold ltx_fetch. rewrite version_gate_open by done. eexists. split; [reflexivity|].
  unfold on_write, map_put, upd_lout. cbn [output set_lout lout]. rewrite Ho, Hf.
  set (lo := set_out_fetch (gale_map_add [] cid (Some St_yes)) (lout l)).
  assert (Hr : ofn_idle_ready lo = true) by (unfold ofn_idle_ready; cbn [lo out_fetch]; by rewrite !orb_true_r).
  unfold output_buffer_ready, output_buffer_write.
  cbn [ob_data ob_state length ost_idle out_ready out_next run_oready run_ofn set_output lout set_lout output].
  rewrite Hr. cbn [negb orb Nat.eqb output_fill].
  unfold output_step. cbn [ob_state ost_idle out_ready out_next run_oready run_ofn]. rewrite Hr.
  unfold ofn_idle, c_assert, lo. cbn [out_msg out_text out_watch out_fetch set_out_fetch].
  rewrite Hm, Ht. cbn -[Z.of_nat length Z.eqb CID_LENGTH gale_map_walk]. rewrite Hw.
  cbn -[Z.of_nat length Z.eqb CID_LENGTH].
  rewrite (proj2 (Z.eqb_neq _ _)) by (unfold CID_LENGTH; lia). reflexivity.
Qed.

Lemma fetch_bad_cid_aborts_witness :
  0 < in_version (lin example_idle) /\ out_watch (lout example_idle) = [] /\ out_fetch (lout example_idle) = []
  /\ output example_idle = Some (mk_output_buffer ost_idle []) /\ out_msg (lout example_idle) = None
  /\ out_text (lout example_idle) = [] /\ length [Byte.x01; Byte.x02] <> 20%nat
  /\ exists l1, ltx_fetch example_idle [Byte.x01; Byte.x02] = Done l1
     /\ on_write l1 (Wr_ok 1 100) = Abort "ofn_idle: CID_LENGTH == l->out_cid.l".
Proof.
  assert (Hv : 0 < in_version (lin example_idle)) by (cbn; lia).
  assert (Hc : length [Byte.x01; Byte.x02] <> 20%nat) by (cbn; lia).
  split_and!; try reflexivity; try exact Hc.
  exact (fetch_bad_cid_aborts example_idle [Byte.x01; Byte.x02] 0 100 Hv eq_refl eq_refl eq_refl eq_refl eq_refl Hc).
Defined.
