(* ===== verification/Protocol.v ===== *)
(** * Protocol: one link's output read by the other link's input

    The byte stream between two links is what [Output] writes and what
    [Input] reads.  This file proves that they agree on messages: the
    frame that [ofn_idle], [ofn_message] and [ofn_msg_data] write for a
    queued message is decoded by [ifn_opcode], [ifn_category_len],
    [ifn_message_category] and [ifn_message_body] into the same packet
    ([puff_roundtrip]); a whole queue, read by one [on_read], is handed
    to [on_message] in order by successive [on_process] calls
    ([queue_delivered]), the backpressure on [in_puff] holding each next
    message at its header until the previous one is delivered
    ([rx_waiting]).  Publish values coalesce and are drained once
    ([publish_coalesces]); watch texts are held one at a time and
    drained once each, in order ([watch_drained_in_order]).  The two sides disagree on assert notices:
    the category arrives with its length prefix read as two characters
    ([assert_category_mangled]). *)

From S2P Require Import Prelude Wire GaleMap GaleTime LinkState Input Output Session.
From coqutil Require Import Byte Word.LittleEndianList.

(** A packet the protocol can carry: 16-bit characters, and a frame
    that fits under [SIZE_LIMIT]. *)
Definition packet_ok (m : gale_packet) : Prop :=
  valid_text (routing m) = true /\ message_frame_len m <= SIZE_LIMIT.

Lemma message_frame_len_eq m :
  message_frame_len m = 8 + 2 * Z.of_nat (length (routing m)) + Z.of_nat (length (content m)).
Proof. unfold message_frame_len, gale_u32_size, gale_wch_size, gale_copy_size. lia. Qed.

Lemma message_frame_split m :
  message_frame opcode_puff m =
  example_frame opcode_puff
    ((gale_pack_u32 (gale_text_len_size (routing m)) ++ gale_pack_text_len (routing m))
     ++ (gale_pack_u32 0 ++ content m)).
Proof.
  unfold message_frame, example_frame, header, gale_pack_copy. rewrite <- !app_assoc. do 2 f_equal.
  rewrite message_frame_len_eq, !length_app, !length_pack_u32, length_pack_text_len.
  unfold gale_text_len_size, gale_wch_size. f_equal. lia.
Qed.

(** A step that consumes exactly the bytes [d] at the front of the buffer. *)
Lemma input_step_take l st d rest :
  run_ready (inp_ready st) l = true -> Z.to_nat (inp_len st) = length d ->
  input_step l (mk_input_buffer st (d ++ rest))
  = Some (r ← run_ifn (inp_next st) st l d; Done (r.1, mk_input_buffer r.2 rest)).
Proof.
  intros Hr Hl. unfold input_step. cbn [ib_state ib_data]. rewrite Hr, Hl.
  rewrite (proj2 (Nat.leb_le _ _)) by (rewrite length_app; lia). cbn [andb].
  by rewrite take_app_length, drop_app_length.
Qed.

Lemma ifn_message_ready_free l : in_puff l = None -> ifn_message_ready l = true.
Proof. unfold ifn_message_ready. by intros ->. Qed.

Section Decode.
Context (m : gale_packet) (Hm : packet_ok m).

Let r := routing m.
Let c := content m.
Let len := message_frame_len m.

Lemma len_bounds : 8 <= len <= SIZE_LIMIT /\ len = 8 + 2 * Z.of_nat (length r) + Z.of_nat (length c).
Proof using Hm. destruct Hm as [_ Hs]. unfold len, r, c. rewrite message_frame_len_eq in *. lia. Qed.

(** Step 1: the header; [ist_message] waits for [in_puff] to be free. *)
Lemma decode_step_header l rest :
  input_step l (mk_input_buffer idle_input_state (message_frame opcode_puff m ++ rest))
  = Some (Done (set_in_length len (set_in_opcode opcode_puff l),
                mk_input_buffer (mk_input_state Ifn_category_len Ifn_message_ready 4)
                  ((gale_pack_u32 (gale_text_len_size r) ++ gale_pack_text_len r)
                   ++ (gale_pack_u32 0 ++ c) ++ rest))).
Proof using Hm.
  pose proof len_bounds as [Hb Hlen]. unfold r, c, len in *. rewrite message_frame_split.
  rewrite input_step_header.
  2: { unfold opcode_puff. lia. }
  2: { rewrite !length_app, !length_pack_u32, length_pack_text_len. unfold SIZE_LIMIT in *. lia. }
  rewrite ifn_opcode_header.
  2: { unfold opcode_puff. lia. }
  2: { rewrite !length_app, !length_pack_u32, length_pack_text_len. unfold SIZE_LIMIT in *. lia. }
  assert (Hl : Z.of_nat (length ((gale_pack_u32 (gale_text_len_size (routing m)) ++ gale_pack_text_len (routing m))
                                 ++ (gale_pack_u32 0 ++ content m))) = message_frame_len m).
  { rewrite !length_app, !length_pack_u32, length_pack_text_len. rewrite Hlen. lia. }
  rewrite Hl. cbv zeta. rsimpl. rewrite Z.gtb_ltb, (proj2 (Z.ltb_ge _ _)) by lia.
  unfold ist_message. rsimpl. rewrite Z.gtb_ltb, (proj2 (Z.ltb_ge _ _)) by (unfold gale_u32_size; lia).
  simpl. rewrite <- !app_assoc. reflexivity.
Qed.

(** Step 2: the category length, [2 * length r] bytes. *)
Lemma decode_step_category_len l rest :
  in_puff l = None -> in_msg l = None ->
  input_step (set_in_length len (set_in_opcode opcode_puff l))
    (mk_input_buffer (mk_input_state Ifn_category_len Ifn_message_ready 4)
       ((gale_pack_u32 (gale_text_len_size r) ++ gale_pack_text_len r) ++ (gale_pack_u32 0 ++ c) ++ rest))
  = Some (Done (set_in_length (len - 4) (set_in_opcode opcode_puff l),
                mk_input_buffer (mk_input_state Ifn_message_category Ifn_message_ready (gale_text_len_size r))
                  (gale_pack_text_len r ++ (gale_pack_u32 0 ++ c) ++ rest))).
Proof using Hm.
  intros Hp Hmsg. pose proof len_bounds as [Hb Hlen]. unfold r, c, len in *.
  rewrite <- app_assoc, input_step_take; [| by apply ifn_message_ready_free | by rewrite length_pack_u32].
  cbn [run_ifn inp_next]. unfold ifn_category_len.
  rewrite gale_unpack_pack_u32_alone, length_pack_u32.
  unfold gale_text_len_size, gale_wch_size, SIZE_LIMIT in *.
  rewrite Z.mod_small by lia. rsimpl.
  rewrite (proj2 (Z.leb_le _ _)) by lia. rsimpl. rewrite Hmsg. rsimpl.
  rewrite Z.gtb_ltb, (proj2 (Z.ltb_ge _ _)) by lia. reflexivity.
Qed.

(** Step 3: the category, [gale_unpack_text_len] of the characters. *)
Lemma decode_step_category l rest :
  in_puff l = None ->
  input_step (set_in_length (len - 4) (set_in_opcode opcode_puff l))
    (mk_input_buffer (mk_input_state Ifn_message_category Ifn_message_ready (gale_text_len_size r))
       (gale_pack_text_len r ++ (gale_pack_u32 0 ++ c) ++ rest))
  = Some (Done (set_in_msg (Some (mk_packet r []))
                  (set_in_length (4 + Z.of_nat (length c)) (set_in_opcode opcode_puff l)),
                mk_input_buffer (mk_input_state Ifn_message_body Input_always_ready (4 + Z.of_nat (length c)))
                  ((gale_pack_u32 0 ++ c) ++ rest))).
Proof using Hm.
  intros Hp. pose proof len_bounds as [Hb Hlen]. pose proof Hm as [Hv _]. unfold r, c, len in *.
  rewrite input_step_take; [| by apply ifn_message_ready_free
                            | cbn [inp_len]; unfold gale_text_len_size, gale_wch_size; rewrite length_pack_text_len; lia].
  cbn [run_ifn inp_next]. unfold ifn_message_category.
  rewrite length_pack_text_len, Nat.mul_comm, Nat.div_mul by lia.
  rewrite <- (app_nil_r (gale_pack_text_len _)), gale_unpack_pack_text_len by done.
  rsimpl. rewrite (proj2 (Z.leb_le _ _)) by lia. rsimpl. rewrite set_in_length_twice. repeat f_equal; lia.
Qed.

(** Step 4: the reserved word and the content; the packet lands in
    [in_puff] and the machine is idle again. *)
Lemma decode_step_body l rest :
  in_puff l = None ->
  input_step (set_in_msg (Some (mk_packet r []))
                (set_in_length (4 + Z.of_nat (length c)) (set_in_opcode opcode_puff l)))
    (mk_input_buffer (mk_input_state Ifn_message_body Input_always_ready (4 + Z.of_nat (length c)))
       ((gale_pack_u32 0 ++ c) ++ rest))
  = Some (Done (set_in_msg None (set_in_puff (Some m) (set_in_length 0 (set_in_opcode opcode_puff l))),
                mk_input_buffer idle_input_state rest)).
Proof using Hm.
  intros Hp. unfold r, c.
  rewrite input_step_take; [| done | cbn [inp_len]; rewrite length_app, length_pack_u32; lia].
  cbn [run_ifn inp_next]. unfold ifn_message_body. rsimpl.
  rewrite length_app, length_pack_u32.
  replace (4 + Z.of_nat (length (content m)) - Z.of_nat (4 + length (content m))) with 0 by lia.
  rewrite take_reserved_zero, gale_unpack_copy_all. rsimpl.
  rewrite ifn_message_ready_free by exact Hp. rsimpl. by destruct m.
Qed.
End Decode.

(** C2: the frame that the output side writes for a puff [m] (see
    [queue_written]) is read back by an idle input machine, whose slot
    [in_puff] is free, as exactly [m]: four steps of [input_step] (header,
    category length, category, body) leave [in_puff = Some m], no partial
    message in [in_msg], and the machine idle in front of the next frame. *)
Theorem puff_roundtrip m l rest :
  packet_ok m -> in_puff l = None -> in_msg l = None ->
  in_star (l, mk_input_buffer idle_input_state (message_frame opcode_puff m ++ rest))
          (set_in_msg None (set_in_puff (Some m) (set_in_length 0 (set_in_opcode opcode_puff l))),
           mk_input_buffer idle_input_state rest).
Proof.
  intros Hm Hp Hmsg.
  eapply in_star_step; [constructor; apply (decode_step_header m Hm)|].
  eapply in_star_step; [constructor; by apply (decode_step_category_len m Hm)|].
  eapply in_star_step; [constructor; by apply (decode_step_category m Hm)|].
  apply in_star_one. by apply (decode_step_body m Hm).
Qed.

Lemma puff_roundtrip_witness :
  packet_ok example_packet /\ in_puff new_link_in = None /\ in_msg new_link_in = None /\
  in_star (new_link_in, mk_input_buffer idle_input_state (message_frame opcode_puff example_packet))
    (set_in_msg None (set_in_puff (Some example_packet) (set_in_length 0 (set_in_opcode opcode_puff new_link_in))),
     mk_input_buffer idle_input_state []).
Proof.
  assert (Hm : packet_ok example_packet) by (split; [reflexivity | vm_compute; discriminate]).
  split; [exact Hm|]. split; [reflexivity|]. split; [reflexivity|].
  rewrite <- (app_nil_r (message_frame opcode_puff example_packet)).
  exact (puff_roundtrip example_packet new_link_in [] Hm eq_refl eq_refl).
Defined.

(** ** A stream of messages *)

(** The bytes of a sequence of puffs, as the output machine writes them. *)
Definition frames (ms : list gale_packet) : bytes := concat (map (message_frame opcode_puff) ms).

(** The body of a puff frame, after its eight header bytes. *)
Definition frame_body (m : gale_packet) : bytes :=
  (gale_pack_u32 (gale_text_len_size (routing m)) ++ gale_pack_text_len (routing m))
  ++ (gale_pack_u32 0 ++ content m).

(** The state after the header of a puff: [ist_message] waits for a free [in_puff]. *)
Definition hdr_wait : input_state := mk_input_state Ifn_category_len Ifn_message_ready 4.

(** What the receiver holds between deliveries: no partial message, and
    either an idle machine with nothing buffered, or the header of the
    next puff read and its body buffered before the rest. *)
Definition rx_waiting (li : link_in) (ib : input_buffer) (ms : list gale_packet) : Prop :=
  in_msg li = None /\
  match ms with
  | [] => ib = mk_input_buffer idle_input_state [] /\ in_length li = 0
  | m :: ms' => ib = mk_input_buffer hdr_wait (frame_body m ++ frames ms')
               /\ in_length li = message_frame_len m /\ in_opcode li = opcode_puff
  end.

Lemma frames_cons m ms :
  frames (m :: ms) = example_frame opcode_puff (frame_body m) ++ frames ms.
Proof. unfold frames. cbn [map concat]. by rewrite message_frame_split. Qed.

Lemma hdr_wait_blocked l bs p : in_puff l = Some p -> input_step l (mk_input_buffer hdr_wait bs) = None.
Proof. intros H. unfold input_step. cbn. unfold ifn_message_ready. by rewrite H. Qed.

Lemma set_in_length_opcode_eta li :
  set_in_length (in_length li) (set_in_opcode (in_opcode li) li) = li.
Proof. by destruct li. Qed.

(** The loop with enough fuel follows a run to a waiting state. *)
Lemma run_input_star l ib l' ib' :
  input_wf l (ib_state ib) -> in_star (l, ib) (l', ib') -> input_step l' ib' = None ->
  run_input l ib = Done (l', ib').
Proof. intros Hwf Hs Hn. unfold run_input. by rewrite (star_input_process l ib l' ib' _ Hs Hn Hwf) by lia. Qed.

(** The body of a puff whose header was read, decoded into [in_puff]. *)
Lemma rx_body m l rest :
  packet_ok m -> in_puff l = None -> in_msg l = None ->
  in_star (set_in_length (message_frame_len m) (set_in_opcode opcode_puff l),
           mk_input_buffer hdr_wait (frame_body m ++ rest))
          (set_in_msg None (set_in_puff (Some m) (set_in_length 0 (set_in_opcode opcode_puff l))),
           mk_input_buffer idle_input_state rest).
Proof.
  intros Hm Hp Hmsg. unfold frame_body. rewrite <- app_assoc.
  eapply in_star_step; [constructor; by apply (decode_step_category_len m Hm)|].
  eapply in_star_step; [constructor; by apply (decode_step_category m Hm)|].
  apply in_star_one. by apply (decode_step_body m Hm).
Qed.

(** The header of the next puff, read while [in_puff] still holds [p]. *)
Lemma rx_next l p ms :
  Forall packet_ok ms -> in_puff l = Some p -> in_msg l = None -> in_length l = 0 ->
  exists l' ib', in_star (l, mk_input_buffer idle_input_state (frames ms)) (l', ib')
    /\ input_step l' ib' = None /\ rx_waiting l' ib' ms /\ in_puff l' = Some p.
Proof.
  intros Hok Hp Hm Hl. destruct ms as [|m ms].
  - exists l, (mk_input_buffer idle_input_state []). split_and!; [apply in_star_refl | reflexivity | by split_and! | exact Hp].
  - inversion Hok as [|? ? Hm1 Hok']; subst.
    change (frames (m :: ms)) with (message_frame opcode_puff m ++ frames ms).
    eexists _, _. split; [apply in_star_one, (decode_step_header m Hm1 l (frames ms))|].
    rewrite app_assoc. fold (frame_body m). split; [by apply hdr_wait_blocked with p|].
    split; [|done]. by split_and!.
Qed.

(** From a read header with [in_puff] free: the body lands in
    [in_puff], the next header is read, and the machine waits. *)
Lemma rx_from_hdr m ms l0 :
  Forall packet_ok (m :: ms) -> in_puff l0 = None -> in_msg l0 = None ->
  exists l' ib', in_star (set_in_length (message_frame_len m) (set_in_opcode opcode_puff l0),
                          mk_input_buffer hdr_wait (frame_body m ++ frames ms)) (l', ib')
    /\ input_step l' ib' = None /\ rx_waiting l' ib' ms /\ in_puff l' = Some m.
Proof.
  intros Hok Hp Hm. inversion Hok as [|? ? Hm1 Hok']; subst.
  destruct (rx_next (set_in_msg None (set_in_puff (Some m) (set_in_length 0 (set_in_opcode opcode_puff l0))))
              m ms Hok' eq_refl eq_refl eq_refl) as (l' & ib' & Hs & Hn & Hw & Hp').
  exists l', ib'. split; [|done]. eapply in_star_trans; [by apply rx_body|exact Hs].
Qed.

Lemma rx_waiting_wf li ib ms : Forall packet_ok ms -> rx_waiting li ib ms -> input_wf li (ib_state ib).
Proof.
  intros Hok [Hm Hw]. destruct ms as [|m ms].
  - destruct Hw as (-> & Hl). split; [lia|]. by split_and!.
  - destruct Hw as (-> & Hl & Ho). inversion Hok as [|? ? [_ Hs] _]; subst. pose proof (message_frame_len_eq m).
    unfold SIZE_LIMIT in Hs. split; [lia|]. cbn. unfold message_op, msg_ready_of.
    rewrite Ho. split_and!; try done; [lia | by left].
Qed.

(** The input loop on a fresh stream of puffs: the first is decoded, the
    header of the second is read, and the machine waits. *)
Lemma rx_start li m ms :
  Forall packet_ok (m :: ms) -> in_puff li = None -> in_msg li = None -> in_length li = 0 ->
  exists li' ib', run_input li (mk_input_buffer idle_input_state (frames (m :: ms))) = Done (li', ib')
    /\ rx_waiting li' ib' ms /\ in_puff li' = Some m.
Proof.
  intros Hok Hp Hm Hl. inversion Hok as [|? ? Hm1 _]; subst.
  destruct (rx_from_hdr m ms li Hok Hp Hm) as (l' & ib' & Hs & Hn & Hw & Hp').
  exists l', ib'. split; [|done]. apply run_input_star; [split; [lia | by split_and!] | | exact Hn].
  eapply in_star_step; [constructor|exact Hs].
  change (frames (m :: ms)) with (message_frame opcode_puff m ++ frames ms).
  rewrite (decode_step_header m Hm1). by rewrite app_assoc.
Qed.

(** After a delivery frees [in_puff], the loop decodes the puff whose
    header was waiting, reads the next header and waits again. *)
Lemma rx_resume li ib m ms :
  Forall packet_ok (m :: ms) -> rx_waiting li ib (m :: ms) -> in_puff li = None ->
  exists li' ib', run_input li ib = Done (li', ib') /\ rx_waiting li' ib' ms /\ in_puff li' = Some m.
Proof.
  intros Hok Hw Hp. pose proof (rx_waiting_wf _ _ _ Hok Hw) as Hwf.
  destruct Hw as (Hm & -> & Hl & Ho).
  destruct (rx_from_hdr m ms li Hok Hp Hm) as (l' & ib' & Hs & Hn & Hw & Hp').
  rewrite <- Hl, <- Ho, set_in_length_opcode_eta in Hs.
  exists l', ib'. split; [|done]. by apply run_input_star.
Qed.

(** ** Delivery through the reactor *)

Lemma rx_waiting_set_in_puff li ib ms p : rx_waiting (set_in_puff p li) ib ms <-> rx_waiting li ib ms.
Proof. by destruct li, ms. Qed.

Lemma run_input_idle_nil li :
  in_length li = 0 -> run_input li (mk_input_buffer idle_input_state []) = Done (li, mk_input_buffer idle_input_state []).
Proof.
  intros Hl. unfold run_input. cbn [input_process]. by rewrite input_step_idle_nil.
Qed.

(** [on_process] hands the waiting puff to [on_message], and the input
    loop then decodes the next one. *)
Lemma on_process_delivers r ib p ms :
  Forall packet_ok ms -> on_message (handlers r) = true -> input r = Some ib ->
  in_puff (lin r) = Some p -> rx_waiting (lin r) ib ms ->
  exists r' ib', on_process r = Done (r', Cb_message p) /\ on_message (handlers r') = true
    /\ input r' = Some ib' /\ rx_waiting (lin r') ib' (tail ms) /\ in_puff (lin r') = head ms.
Proof.
  intros Hok Hh Hi Hp Hw. unfold on_process. rewrite Hp, Hh.
  unfold input_buffer_more, upd_lin. cbn [input set_lin lin]. rewrite Hi.
  apply (proj2 (rx_waiting_set_in_puff _ _ _ None)) in Hw.
  destruct ms as [|m ms].
  - destruct Hw as (Hm & -> & Hl). rewrite run_input_idle_nil by done.
    eexists _, _. split; [reflexivity|]. rewrite handlers_activate, input_activate, lin_activate.
    cbn. split_and!; try done.
  - destruct (rx_resume _ _ m ms Hok Hw eq_refl) as (li' & ib' & -> & Hw' & Hp').
    eexists _, _. split; [reflexivity|]. rewrite handlers_activate, input_activate, lin_activate.
    cbn. split_and!; done.
Qed.

(** [on_process], called once per puff, hands every puff to
    [on_message] in order, and leaves the receiver idle. *)
Lemma process_n_delivers ms r ib p :
  Forall packet_ok ms -> on_message (handlers r) = true -> input r = Some ib ->
  in_puff (lin r) = Some p -> rx_waiting (lin r) ib ms ->
  exists r', process_n (S (length ms)) r = Done (r', map Cb_message (p :: ms))
    /\ in_puff (lin r') = None /\ input r' = Some (mk_input_buffer idle_input_state []).
Proof.
  revert r ib p. induction ms as [|m ms IH]; intros r ib p Hok Hh Hi Hp Hw.
  - destruct (on_process_delivers r ib p [] Hok Hh Hi Hp Hw) as (r' & ib' & E & _ & Hi' & Hw' & Hp').
    exists r'. cbn [process_n length]. rewrite E. cbn. split; [done|]. split; [done|].
    destruct Hw' as (_ & -> & _). done.
  - destruct (on_process_delivers r ib p (m :: ms) Hok Hh Hi Hp Hw) as (r1 & ib1 & E & Hh1 & Hi1 & Hw1 & Hp1).
    inversion Hok as [|? ? _ Hok']; subst.
    destruct (IH r1 ib1 m Hok' Hh1 Hi1 Hp1 Hw1) as (r' & E' & Hp' & Hi').
    exists r'. cbn [process_n length] in *. rewrite E. cbn. rewrite E'. cbn. done.
Qed.

(** [on_read] of a stream of puffs on an idle receiver: the first puff
    is decoded and the header of the second read. *)
Lemma on_read_starts r m ms :
  Forall packet_ok (m :: ms) -> input r = Some (mk_input_buffer idle_input_state []) ->
  in_puff (lin r) = None -> in_msg (lin r) = None -> in_length (lin r) = 0 ->
  exists r1 ib1, on_read r (Rd_data (frames (m :: ms))) = Done (r1, Cb_continue)
    /\ handlers r1 = handlers r /\ input r1 = Some ib1 /\ rx_waiting (lin r1) ib1 ms
    /\ in_puff (lin r1) = Some m.
Proof.
  intros Hok Hi Hp Hm Hl. unfold on_read. rewrite Hi. cbn -[run_input frames].
  destruct (rx_start (lin r) m ms Hok Hp Hm Hl) as (li' & ib' & E & Hw & Hp').
  rewrite E. eexists _, _. split; [reflexivity|].
  rewrite handlers_activate, input_activate, lin_activate. cbn. by split_and!.
Qed.

(** ** From one link's queue to the other link's handler *)

(** C1: end-to-end delivery in order, exactly once.  The output
    machine of the sending link, with only queued messages pending,
    writes bytes [bs]; when the receiving link (idle, [in_puff] free,
    [on_message] registered) reads them in one [on_read], the reactor's
    next [on_process] calls hand the queued packets to [on_message], one
    per call, oldest first, and leave the receiver idle with nothing
    buffered. *)
Theorem queue_delivered lo r :
  only_queue lo -> queue_ok lo -> out_queue lo <> [] ->
  Forall (fun n => packet_ok (link_msg n)) (out_queue lo) ->
  on_message (handlers r) = true -> input r = Some (mk_input_buffer idle_input_state []) ->
  in_puff (lin r) = None -> in_msg (lin r) = None -> in_length (lin r) = 0 ->
  exists lo' bs, output_process (3 * length (out_queue lo) + 1) lo (mk_output_buffer ost_idle [])
                 = Some (Done (lo', mk_output_buffer ost_idle bs))
  /\ exists r1, on_read r (Rd_data bs) = Done (r1, Cb_continue)
  /\ exists r2, process_n (length (out_queue lo)) r1
                = Done (r2, map (fun n => Cb_message (link_msg n)) (out_queue lo))
  /\ in_puff (lin r2) = None /\ input r2 = Some (mk_input_buffer idle_input_state []).
Proof.
  intros Ho Hq Hne Hok Hh Hi Hp Hm Hl.
  destruct (output_writes_queue lo [] Ho Hq) as (lo' & Hrun & _).
  destruct (out_queue lo) as [|n q] eqn:Eq; [done|].
  assert (Hok' : Forall packet_ok (link_msg n :: map link_msg q)).
  { change (link_msg n :: map link_msg q) with (map link_msg (n :: q)). by apply Forall_map. }
  destruct (on_read_starts r (link_msg n) (map link_msg q) Hok' Hi Hp Hm Hl)
    as (r1 & ib1 & Hr1 & Hh1 & Hi1 & Hw1 & Hp1).
  assert (Hok'' : Forall packet_ok (map link_msg q)) by (by inversion Hok').
  destruct (process_n_delivers (map link_msg q) r1 ib1 (link_msg n) Hok'' ltac:(by rewrite Hh1) Hi1 Hp1 Hw1)
    as (r2 & Hd & Hp2 & Hi2).
  exists lo', (frames (link_msg n :: map link_msg q)). split.
  { rewrite Hrun. unfold frames. change (link_msg n :: map link_msg q) with (map link_msg (n :: q)). by rewrite map_map. }
  exists r1. split; [exact Hr1|]. exists r2. split; [|done].
  rewrite length_map in Hd. change (link_msg n :: map link_msg q) with (map link_msg (n :: q)) in Hd.
  rewrite map_map in Hd. exact Hd.
Qed.

(** ** Instances *)

Definition example_second : gale_packet := mk_packet [120] [Byte.x01; Byte.x02; Byte.x03].

(** A sender with two queued puffs, and an idle receiver. *)
Definition two_queued : link_out :=
  lout (run_queue_ops gale_time_last0 new_link
          [Q_put example_packet (mk_timeval 7 0); Q_put example_second (mk_timeval 7 0)]).1.

Definition example_receiver : gale_link :=
  set_input (Some (mk_input_buffer idle_input_state [])) (set_on_message true (link_set_fd new_link 4)).

Lemma queue_delivered_witness :
  only_queue two_queued /\ queue_ok two_queued /\ out_queue two_queued <> []
  /\ Forall (fun n => packet_ok (link_msg n)) (out_queue two_queued)
  /\ on_message (handlers example_receiver) = true
  /\ input example_receiver = Some (mk_input_buffer idle_input_state [])
  /\ in_puff (lin example_receiver) = None /\ in_msg (lin example_receiver) = None
  /\ in_length (lin example_receiver) = 0
  /\ exists lo' bs, output_process (3 * length (out_queue two_queued) + 1) two_queued (mk_output_buffer ost_idle [])
                    = Some (Done (lo', mk_output_buffer ost_idle bs))
     /\ exists r1, on_read example_receiver (Rd_data bs) = Done (r1, Cb_continue)
     /\ exists r2, process_n (length (out_queue two_queued)) r1
                   = Done (r2, [Cb_message example_packet; Cb_message example_second])
     /\ in_puff (lin r2) = None /\ input r2 = Some (mk_input_buffer idle_input_state []).
Proof.
  assert (H1 : only_queue two_queued) by (vm_compute; split_and!; reflexivity).
  assert (H2 : queue_ok two_queued) by (split; vm_compute; reflexivity).
  assert (H3 : out_queue two_queued <> []) by (vm_compute; discriminate).
  assert (H4 : Forall (fun n => packet_ok (link_msg n)) (out_queue two_queued)).
  { apply List.Forall_forall. intros n Hn. vm_compute in Hn.
    destruct Hn as [<- | [<- | []]]; (split; [reflexivity | vm_compute; discriminate]). }
  split_and!; try assumption; try reflexivity.
  exact (queue_delivered two_queued example_receiver H1 H2 H3 H4 eq_refl eq_refl eq_refl eq_refl eq_refl).
Defined.

(** ** Text frames and the coalescing slots *)

Definition text_frame (op : Z) (t : text) : bytes := example_frame op (gale_pack_text_len t).

(** The state after the header of a text frame: [ist_text]. *)
Definition text_wait (len : Z) : input_state := mk_input_state Ifn_text Ifn_text_ready len.

(** The header of a frame of gimme, publish, watch, forget or complete:
    [ist_text] points [in_text] at the slot and waits for the text. *)
Lemma text_header_step l op o s t rest :
  decode_opcode op = Some o -> text_slot_of (Some o) = Some s -> cid_slot_of (Some o) = None ->
  0 <= op < 2 ^ 32 -> Z.of_nat (2 * length t) <= SIZE_LIMIT ->
  input_step l (mk_input_buffer idle_input_state (text_frame op t ++ rest))
  = Some (Done (set_in_text s (set_in_length (Z.of_nat (2 * length t)) (set_in_opcode op l)),
                mk_input_buffer (text_wait (Z.of_nat (2 * length t))) (gale_pack_text_len t ++ rest))).
Proof.
  intros Ho Hs Hc Hop Hlen. unfold text_frame.
  rewrite <- length_pack_text_len in Hlen |- *.
  rewrite input_step_header by (unfold SIZE_LIMIT in *; lia).
  rewrite ifn_opcode_header by (unfold SIZE_LIMIT in *; lia). cbv zeta. rsimpl.
  rewrite Z.gtb_ltb, (proj2 (Z.ltb_ge _ _)) by lia. rewrite Ho.
  destruct o; simpl in Hs, Hc; simplify_eq; unfold ist_text; rsimpl; by rewrite Ho.
Qed.

(** The text itself, once its slot is ready: stored, and back to [Idle]. *)
Lemma text_body_step l s t rest :
  in_length l = Z.of_nat (2 * length t) -> in_text l = s -> valid_text t = true ->
  ifn_text_ready l = true ->
  input_step l (mk_input_buffer (text_wait (Z.of_nat (2 * length t))) (gale_pack_text_len t ++ rest))
  = Some (Done (set_text_slot s t (set_in_length 0 l), mk_input_buffer idle_input_state rest)).
Proof.
  intros Hl Ht Hv Hr. rewrite input_step_take; [| exact Hr | cbn; rewrite length_pack_text_len; lia].
  cbn [fst snd run_ifn inp_next text_wait]. unfold ifn_text. cbv zeta.
  rewrite Hl, length_pack_text_len, Z.eqb_refl, c_assert_true, Z.sub_diag.
  rewrite Nat.mul_comm, Nat.div_mul by lia.
  rewrite <- (app_nil_r (gale_pack_text_len t)), gale_unpack_pack_text_len by done.
  unfold ist_idle. rewrite set_text_slot_in_length. cbn [in_length in_text set_in_length]. by rewrite Ht.
Qed.

(** A whole text frame whose slot is ready. *)
Lemma text_frame_star l op o s t rest :
  decode_opcode op = Some o -> text_slot_of (Some o) = Some s -> cid_slot_of (Some o) = None ->
  0 <= op < 2 ^ 32 ->
  valid_text t = true -> Z.of_nat (2 * length t) <= SIZE_LIMIT ->
  ifn_text_ready (set_in_text s (set_in_length (Z.of_nat (2 * length t)) (set_in_opcode op l))) = true ->
  in_star (l, mk_input_buffer idle_input_state (text_frame op t ++ rest))
          (set_text_slot s t (set_in_length 0 (set_in_text s
             (set_in_length (Z.of_nat (2 * length t)) (set_in_opcode op l)))),
           mk_input_buffer idle_input_state rest).
Proof.
  intros Ho Hs Hc Hop Hv Hlen Hr.
  eapply in_star_step; [constructor; by apply (text_header_step _ _ o)|].
  apply in_star_one. by apply text_body_step.
Qed.

(** A text frame waits at its body while the slot it goes to is full. *)
Lemma text_wait_blocked l n bs :
  ifn_text_ready l = false -> input_step l (mk_input_buffer (text_wait n) bs) = None.
Proof. intros H. unfold input_step. cbn [ib_state text_wait inp_ready run_ready]. by rewrite H. Qed.

(** [on_read] of bytes on an idle receiver runs the input loop on them. *)
Lemma on_read_data r bs l' ib' :
  input r = Some (mk_input_buffer idle_input_state []) ->
  run_input (lin r) (mk_input_buffer idle_input_state bs) = Done (l', ib') ->
  on_read r (Rd_data bs)
  = Done (activate (set_input (Some ib') (set_lin l' (set_input (Some (mk_input_buffer idle_input_state [])) r))),
          Cb_continue).
Proof. intros Hi Hr. unfold on_read. rewrite Hi. cbn -[run_input]. by rewrite Hr. Qed.

(** A drain of a full slot runs the input loop on what is buffered. *)
Lemma get_text_more get set l ib l' ib' :
  get (lin l) <> [] -> input l = Some ib -> run_input (set [] (lin l)) ib = Done (l', ib') ->
  get_text get set l = Done (set_input (Some ib') (set_lin l' (upd_lin (set []) l)), Some (get (lin l))).
Proof.
  intros Hne Hi Hr. unfold get_text.
  destruct (length (get (lin l)) =? 0)%nat eqn:E; [by apply Nat.eqb_eq, nil_length_inv in E|].
  unfold input_buffer_more, upd_lin. cbn [input set_lin lin]. rewrite Hi, Hr. reflexivity.
Qed.

(** C8: the published value coalesces: two publish frames read before
    the application drains the slot leave only the second value; the
    drain [lrx_publish] returns it once, and a second drain finds
    nothing. *)
Theorem publish_coalesces r a b :
  input r = Some (mk_input_buffer idle_input_state []) -> in_length (lin r) = 0 -> in_msg (lin r) = None ->
  valid_text a = true -> valid_text b = true ->
  Z.of_nat (2 * length a) <= SIZE_LIMIT -> Z.of_nat (2 * length b) <= SIZE_LIMIT -> b <> [] ->
  exists r1 r2,
    on_read r (Rd_data (text_frame opcode_publish a ++ text_frame opcode_publish b)) = Done (r1, Cb_continue)
    /\ lrx_publish r1 = Done (r2, Some b) /\ lrx_publish r2 = Done (r2, None).
Proof.
  intros Hi Hl Hm Ha Hb Hla Hlb Hne.
  set (l1 := set_text_slot Slot_publish a (set_in_length 0 (set_in_text Slot_publish
               (set_in_length (Z.of_nat (2 * length a)) (set_in_opcode opcode_publish (lin r)))))).
  set (l2 := set_text_slot Slot_publish b (set_in_length 0 (set_in_text Slot_publish
               (set_in_length (Z.of_nat (2 * length b)) (set_in_opcode opcode_publish l1))))).
  assert (Hrun : run_input (lin r) (mk_input_buffer idle_input_state
                   (text_frame opcode_publish a ++ text_frame opcode_publish b))
                 = Done (l2, mk_input_buffer idle_input_state [])).
  { apply run_input_star; [split; [lia | by split_and!] | | reflexivity].
    eapply in_star_trans.
    - apply (text_frame_star _ _ Op_publish Slot_publish); try done; unfold opcode_publish; lia.
    - rewrite <- (app_nil_r (text_frame opcode_publish b)).
      apply (text_frame_star _ _ Op_publish Slot_publish); try done; unfold opcode_publish; lia. }
  rewrite (on_read_data _ _ _ _ Hi Hrun). eexists _, _. split; [reflexivity|]. unfold lrx_publish.
  rewrite get_text_idle; rewrite ?input_activate, ?lin_activate; cbn -[activate]; done.
Qed.

Lemma publish_coalesces_witness :
  input example_receiver = Some (mk_input_buffer idle_input_state []) /\ in_length (lin example_receiver) = 0
  /\ in_msg (lin example_receiver) = None /\ valid_text [104] = true /\ valid_text [105; 106] = true
  /\ Z.of_nat (2 * length [104]) <= SIZE_LIMIT /\ Z.of_nat (2 * length [105; 106]) <= SIZE_LIMIT
  /\ [105; 106] <> []
  /\ exists r1 r2,
    on_read example_receiver (Rd_data (text_frame opcode_publish [104] ++ text_frame opcode_publish [105; 106]))
      = Done (r1, Cb_continue)
    /\ lrx_publish r1 = Done (r2, Some [105; 106]) /\ lrx_publish r2 = Done (r2, None).
Proof.
  assert (H6 : Z.of_nat (2 * length [104]) <= SIZE_LIMIT) by (unfold SIZE_LIMIT; simpl; lia).
  assert (H7 : Z.of_nat (2 * length [105; 106]) <= SIZE_LIMIT) by (unfold SIZE_LIMIT; simpl; lia).
  assert (H8 : [105; 106] <> []) by discriminate.
  split_and!; try reflexivity; try assumption.
  exact (publish_coalesces example_receiver [104] [105; 106] eq_refl eq_refl eq_refl eq_refl eq_refl H6 H7 H8).
Defined.

(** ** Assert notices across the link *)

(** What the receiver makes of the category of an assert notice: the
    two 16-bit halves of the byte length [gale_pack_text] puts in front,
    then the characters. *)
Definition assert_category_received (cat : text) : text :=
  [gale_text_len_size cat / 2 ^ 16; gale_text_len_size cat mod 2 ^ 16] ++ cat.

Lemma pack_text_received cat :
  24 + 2 * Z.of_nat (length cat) <= SIZE_LIMIT ->
  gale_pack_text cat = gale_pack_text_len (assert_category_received cat).
Proof.
  intros Hs.
  unfold gale_pack_text, assert_category_received. rewrite gale_pack_u32_as_text.
  unfold gale_pack_text_len. rewrite map_app, concat_app. f_equal.
  unfold gale_text_len_size, gale_wch_size, SIZE_LIMIT in *.
  rewrite Z.shiftr_div_pow2 by lia. rewrite (Z.mod_small (_ / _)); [done|].
  split; [apply Z.div_pos; lia|]. apply Z.div_lt_upper_bound; lia.
Qed.

Lemma valid_received cat :
  valid_text cat = true -> 24 + 2 * Z.of_nat (length cat) <= SIZE_LIMIT ->
  valid_text (assert_category_received cat) = true.
Proof.
  intros Hv Hs.
  unfold assert_category_received, valid_text in *. cbn [forallb app]. rewrite Hv.
  unfold gale_text_len_size, gale_wch_size, SIZE_LIMIT in *.
  assert (0 <= Z.of_nat (length cat) * 2 / 2 ^ 16 < 2 ^ 16).
  { split; [apply Z.div_pos; lia|]. apply Z.div_lt_upper_bound; lia. }
  pose proof (Z.mod_pos_bound (Z.of_nat (length cat) * 2) (2 ^ 16) ltac:(lia)).
  zbool_lia. reflexivity.
Qed.

Lemma length_received cat : length (assert_category_received cat) = (2 + length cat)%nat.
Proof. reflexivity. Qed.

(** The receiving side: the frame of an assert notice keyed by
    [combine(cat,cid)] is decoded by [ifn_opcode], [ifn_cid] and
    [ifn_text] into the id and [assert_category_received cat]. *)
Lemma assert_decoded : forall cat cid l rest, length cid = 20%nat -> valid_text cat = true ->
  24 + 2 * Z.of_nat (length cat) <= SIZE_LIMIT -> in_length l = 0 -> in_msg l = None -> in_assert l = null_pair ->
  exists l', in_star (l, mk_input_buffer idle_input_state (example_frame opcode_assert (cid ++ gale_pack_text cat) ++ rest))
    (l', mk_input_buffer idle_input_state rest) /\ in_assert l' = mk_cid_pair cid (assert_category_received cat).
Proof.
  intros cat cid l rest Hc Hv Hs Hl Hm Ha.
  assert (Hk : length (cid ++ gale_pack_text cat) = (24 + 2 * length cat)%nat)
    by (rewrite length_app, length_pack_text; lia).
  eexists. split.
  { eapply in_star_step.
    { constructor. rewrite input_step_header by (unfold opcode_assert, SIZE_LIMIT in *; lia).
      rewrite ifn_opcode_header by (unfold opcode_assert, SIZE_LIMIT in *; lia). cbv zeta. rsimpl.
      rewrite Z.gtb_ltb, (proj2 (Z.ltb_ge _ _)) by (rewrite Hk; unfold SIZE_LIMIT in *; lia).
      unfold ist_cid. rsimpl. rewrite (proj2 (Z.ltb_ge _ _)) by (rewrite Hk; unfold CID_LENGTH; lia). rsimpl.
      reflexivity. }
    eapply in_star_step.
    { constructor. rewrite <- app_assoc.
      rewrite input_step_take; [| unfold run_ready, ifn_cid_ready; rsimpl; by rewrite Ha | rsimpl; by rewrite Hc].
      cbn [run_ifn inp_next]. unfold ifn_cid. rewrite Hc. rsimpl. reflexivity. }
    eapply in_star_one.
    rewrite input_step_take; [| unfold run_ready, ifn_text_ready; rsimpl; by rewrite Ha
                              | rsimpl; rewrite Hk, length_pack_text; lia].
    cbn [run_ifn inp_next fst snd]. unfold ifn_text.
    cbn [in_length set_in_text set_in_assert set_in_length set_in_cid set_in_opcode in_text].
    rewrite Hk, length_pack_text, (proj2 (Z.eqb_eq _ _)) by lia. cbn [c_assert].
    rewrite (pack_text_received cat Hs).
    replace ((4 + 2 * length cat) / 2)%nat with (length (assert_category_received cat))
      by (rewrite length_received; replace (4 + 2 * length cat)%nat with ((2 + length cat) * 2)%nat by lia;
          rewrite Nat.div_mul; lia).
    rewrite <- (app_nil_r (gale_pack_text_len _)), gale_unpack_pack_text_len by (by apply valid_received).
    rsimpl. rewrite ist_idle_ok by (rsimpl; lia).
    reflexivity. }
  rsimpl. done.
Qed.

(** The sending side: with only this assert notice pending,
    [ofn_idle] writes its header, [ofn_cid] the whole key and [ofn_data]
    nothing. *)
Lemma assert_sent st lo key :
  out_msg lo = None -> out_text lo = [] -> out_watch lo = [] -> out_fetch lo = [] ->
  out_publish lo = [] -> out_supply lo = [] -> out_assert lo = [(key, St_yes)] ->
  exists lo1 st1 st2,
    ofn_idle st lo = Done (header opcode_assert (Z.of_nat (length key)), lo1, st1)
    /\ ofn_cid st1 lo1 = Done (key, lo1, st2) /\ ofn_data st2 lo1 = Done ([], lo1, ost_idle).
Proof.
  intros Hm Ht Hw Hf Hp Hs Ha. eexists _, _, _. split.
  { unfold ofn_idle. rewrite Hm, Ht, Hw, Hf, Hp, Hs, Ha. cbn. rewrite Nat.add_0_r. reflexivity. }
  split; reflexivity.
Qed.

(** C20: the category of an assert notice does not survive the trip.
    [ltx_assert] keys the notice by [combine(cat,cid)], which packs the
    category with [gale_pack_text] (a 32-bit byte length first); the
    sender's [ofn_idle], [ofn_cid] and [ofn_data] write that key as the
    frame body, and the receiver's [ifn_cid] and [ifn_text] read the 20
    bytes of the id and then everything after it as characters.  For
    every id of 20 bytes and every category, the receiver's [in_assert]
    holds the right id and the category with the two halves of its
    length prefix in front. *)
Theorem assert_category_mangled st lo l cat cid rest :
  length cid = 20%nat -> valid_text cat = true -> 24 + 2 * Z.of_nat (length cat) <= SIZE_LIMIT ->
  out_msg lo = None -> out_text lo = [] -> out_watch lo = [] -> out_fetch lo = [] ->
  out_publish lo = [] -> out_supply lo = [] -> out_assert lo = [(cid ++ gale_pack_text cat, St_yes)] ->
  in_length l = 0 -> in_msg l = None -> in_assert l = null_pair ->
  combine cat cid = Done (cid ++ gale_pack_text cat)
  /\ (exists lo1 st1 st2,
        ofn_idle st lo = Done (header opcode_assert (Z.of_nat (length (cid ++ gale_pack_text cat))), lo1, st1)
        /\ ofn_cid st1 lo1 = Done (cid ++ gale_pack_text cat, lo1, st2)
        /\ ofn_data st2 lo1 = Done ([], lo1, ost_idle))
  /\ exists l', in_star (l, mk_input_buffer idle_input_state
                            (header opcode_assert (Z.of_nat (length (cid ++ gale_pack_text cat)))
                             ++ (cid ++ gale_pack_text cat) ++ [] ++ rest))
                        (l', mk_input_buffer idle_input_state rest)
     /\ in_assert l' = mk_cid_pair cid (assert_category_received cat)
     /\ assert_category_received cat <> cat.
Proof.
  intros Hc Hv Hs Hm Ht Hw Hf Hp Hsu Ha Hl Hlm Hia. split_and!.
  - unfold combine, c_assert. rewrite length_app, length_pack_text, Hc.
    unfold gale_text_size, gale_text_len_size, gale_u32_size, gale_wch_size, gale_pack_copy.
    by rewrite (proj2 (Z.eqb_eq _ _)) by lia.
  - by apply assert_sent.
  - destruct (assert_decoded cat cid l rest Hc Hv Hs Hl Hlm Hia) as (l' & Hstar & Hl').
    exists l'. split_and!; [|exact Hl'|].
    + unfold header. rewrite app_nil_l, <- app_assoc. exact Hstar.
    + intros E. apply (f_equal length) in E. rewrite length_received in E. lia.
Qed.

(** An output half with one assert notice of category ["a"] pending. *)
Definition example_assert_out : link_out :=
  set_out_assert [(example_cid ++ gale_pack_text [97], St_yes)] new_link_out.

Lemma assert_category_mangled_witness :
  length example_cid = 20%nat /\ valid_text [97] = true /\ 24 + 2 * Z.of_nat (length [97]) <= SIZE_LIMIT
  /\ out_msg example_assert_out = None /\ out_text example_assert_out = [] /\ out_watch example_assert_out = []
  /\ out_fetch example_assert_out = [] /\ out_publish example_assert_out = []
  /\ out_supply example_assert_out = []
  /\ out_assert example_assert_out = [(example_cid ++ gale_pack_text [97], St_yes)]
  /\ in_length new_link_in = 0 /\ in_msg new_link_in = None /\ in_assert new_link_in = null_pair
  /\ combine [97] example_cid = Done (example_cid ++ gale_pack_text [97])
  /\ (exists lo1 st1 st2,
        ofn_idle ost_idle example_assert_out
        = Done (header opcode_assert (Z.of_nat (length (example_cid ++ gale_pack_text [97]))), lo1, st1)
        /\ ofn_cid st1 lo1 = Done (example_cid ++ gale_pack_text [97], lo1, st2)
        /\ ofn_data st2 lo1 = Done ([], lo1, ost_idle))
  /\ exists l', in_star (new_link_in, mk_input_buffer idle_input_state
                            (header opcode_assert (Z.of_nat (length (example_cid ++ gale_pack_text [97])))
                             ++ (example_cid ++ gale_pack_text [97]) ++ [] ++ []))
                        (l', mk_input_buffer idle_input_state [])
     /\ in_assert l' = mk_cid_pair example_cid (assert_category_received [97])
     /\ assert_category_received [97] <> [97].
Proof.
  assert (H1 : length example_cid = 20%nat) by reflexivity.
  assert (H2 : valid_text [97] = true) by reflexivity.
  assert (H3 : 24 + 2 * Z.of_nat (length [97]) <= SIZE_LIMIT) by (unfold SIZE_LIMIT; simpl; lia).
  do 3 (split; [assumption|]). do 10 (split; [reflexivity|]).
  exact (assert_category_mangled ost_idle example_assert_out new_link_in [97] example_cid []
           H1 H2 H3 eq_refl eq_refl eq_refl eq_refl eq_refl eq_refl eq_refl eq_refl eq_refl eq_refl).
Defined.

(** ** Exactly-once texts through the API *)

Lemma text_wait_wf l (t : text) :
  in_msg l = None -> in_length l = Z.of_nat (2 * length t) -> Z.of_nat (2 * length t) <= SIZE_LIMIT ->
  text_slot_of (decode_opcode (in_opcode l)) = Some (in_text l) ->
  input_wf l (text_wait (Z.of_nat (2 * length t))).
Proof. intros Hm Hl Hs Ht. unfold SIZE_LIMIT in Hs. split; [lia|]. cbn. by split_and!. Qed.


(** Watch texts are delivered exactly once and in order: two watch
    frames read in one [on_read] leave the first in [in_watch] and the
    second waiting at its body; [lrx_watch] returns the first and lets
    the machine decode the second, the next [lrx_watch] returns the
    second, and a third finds nothing. *)
Theorem watch_drained_in_order r a b :
  input r = Some (mk_input_buffer idle_input_state []) -> in_length (lin r) = 0 -> in_msg (lin r) = None ->
  in_watch (lin r) = [] -> valid_text a = true -> valid_text b = true ->
  Z.of_nat (2 * length a) <= SIZE_LIMIT -> Z.of_nat (2 * length b) <= SIZE_LIMIT -> a <> [] -> b <> [] ->
  exists r1 r2 r3,
    on_read r (Rd_data (text_frame opcode_watch a ++ text_frame opcode_watch b)) = Done (r1, Cb_continue)
    /\ lrx_watch r1 = Done (r2, Some a) /\ lrx_watch r2 = Done (r3, Some b) /\ lrx_watch r3 = Done (r3, None).
Proof.
  intros Hi Hl Hm Hw Ha Hb Hla Hlb Hna Hnb.
  assert (Hop : 0 <= opcode_watch < 2 ^ 32) by (unfold opcode_watch; lia).
  set (l1 := set_text_slot Slot_watch a (set_in_length 0 (set_in_text Slot_watch
               (set_in_length (Z.of_nat (2 * length a)) (set_in_opcode opcode_watch (lin r)))))).
  set (l2 := set_in_text Slot_watch (set_in_length (Z.of_nat (2 * length b)) (set_in_opcode opcode_watch l1))).
  assert (Hw2 : in_watch l2 = a) by reflexivity.
  assert (Hrun : run_input (lin r) (mk_input_buffer idle_input_state
                   (text_frame opcode_watch a ++ text_frame opcode_watch b))
                 = Done (l2, mk_input_buffer (text_wait (Z.of_nat (2 * length b))) (gale_pack_text_len b ++ []))).
  { apply run_input_star; [split; [lia | by split_and!] | |].
    - eapply in_star_trans; [apply (text_frame_star _ _ Op_watch Slot_watch); try done;
        unfold ifn_text_ready; cbn; by rewrite Hw|].
      apply in_star_one. rewrite <- (app_nil_r (text_frame opcode_watch b)).
      by apply (text_header_step _ _ Op_watch).
    - apply text_wait_blocked. unfold ifn_text_ready. cbn [l2 in_opcode set_in_text set_in_length set_in_opcode].
      cbn [decode_opcode opcode_watch]. change (get_text_slot (in_text l2) l2) with (in_watch l2). rewrite Hw2.
      by apply Nat.eqb_neq; intros ?%nil_length_inv. }
  set (l3 := set_text_slot Slot_watch b (set_in_length 0 (set_in_watch [] l2))).
  assert (Hrun2 : run_input (set_in_watch [] l2) (mk_input_buffer (text_wait (Z.of_nat (2 * length b)))
                                                    (gale_pack_text_len b ++ []))
                  = Done (l3, mk_input_buffer idle_input_state [])).
  { apply run_input_star; [apply text_wait_wf; try done; by cbn | | apply input_step_idle_nil].
    apply in_star_one. apply text_body_step; try done. }
  rewrite (on_read_data _ _ _ _ Hi Hrun). eexists _, _, _. split; [reflexivity|].
  unfold lrx_watch. erewrite get_text_more;
    [| rewrite lin_activate; cbn [lin set_input set_lin]; by rewrite Hw2
     | by rewrite input_activate
     | rewrite lin_activate; exact Hrun2].
  rewrite lin_activate. cbn [lin set_lin set_input]. rewrite Hw2. split; [reflexivity|].
  rewrite get_text_idle by done. split; [reflexivity|]. by rewrite get_text_empty.
Qed.

Lemma watch_drained_in_order_witness :
  input example_receiver = Some (mk_input_buffer idle_input_state []) /\ in_length (lin example_receiver) = 0
  /\ in_msg (lin example_receiver) = None /\ in_watch (lin example_receiver) = []
  /\ valid_text [104] = true /\ valid_text [105; 106] = true
  /\ Z.of_nat (2 * length [104]) <= SIZE_LIMIT /\ Z.of_nat (2 * length [105; 106]) <= SIZE_LIMIT
  /\ [104] <> [] /\ [105; 106] <> []
  /\ exists r1 r2 r3,
    on_read example_receiver (Rd_data (text_frame opcode_watch [104] ++ text_frame opcode_watch [105; 106]))
      = Done (r1, Cb_continue)
    /\ lrx_watch r1 = Done (r2, Some [104]) /\ lrx_watch r2 = Done (r3, Some [105; 106])
    /\ lrx_watch r3 = Done (r3, None).
Proof.
  assert (H6 : Z.of_nat (2 * length [104]) <= SIZE_LIMIT) by (unfold SIZE_LIMIT; simpl; lia).
  assert (H7 : Z.of_nat (2 * length [105; 106]) <= SIZE_LIMIT) by (unfold SIZE_LIMIT; simpl; lia).
  assert (H8 : [104] <> []) by discriminate.
  assert (H9 : [105; 106] <> []) by discriminate.
  split_and!; try reflexivity; try assumption.
  exact (watch_drained_in_order example_receiver [104] [105; 106] eq_refl eq_refl eq_refl eq_refl eq_refl eq_refl
           H6 H7 H8 H9).
Defined.
