(* ===== verification/Attach.v ===== *)
(** * Attach: the server's link to a peer server, [src/server/attach.c]

    A [struct attach] owns one [gale_link] (made by [new_link]) that the
    connection manager ([gale_make_server], not in this repository)
    attaches to a socket whenever it connects, and that the routing
    code ([new_connect]) fills with messages.  [attach.c] adds the
    callbacks: on every connection it records the peer's name,
    re-sends its subscription with [link_subscribe] and queues a will
    notice on its error queue; the queue hands the notice back as a
    message that [on_will_message] packs and registers with
    [link_will]; [on_empty_attach] registers an [on_empty] handler with
    the link and remembers the function it calls.

    The link is one object shared by the attach, the server and the
    routing code: the model keeps it once, in [att_link], and every
    actor's action is an event on it ([att_step]).  The collaborators
    outside the repository ([gale_connect_text],
    [gale_text_from_number], the error queue's message for a notice,
    [gale_pack_message]) are the [Context] of the section.  [att->func]
    and [att->data] are kept as whether [func] is [NULL]; [gale_create]
    returns zeroed memory, so a new attach has none. *)

From S2P Require Import Prelude Wire GaleMap GaleTime LinkState Input Output Session.

Local Open Scope gale_scope.

Definition quote_char : Z := 34.
Definition newline_char : Z := 10.

(** What [gale_alert] is asked to print. *)
Inductive alert :=
| Alert_notice (t : text)
| Alert_warning (t : text).

Record attach := mk_attach {
  att_link : gale_link;
  att_name : text;
  att_will : list text;   (* notices queued on [att->will], oldest first *)
  att_in_subs : text;
  att_out_subs : text;
  att_func : bool         (* [NULL != att->func] *)
}.

Definition set_att_link (v : gale_link) (a : attach) : attach :=
  mk_attach v (att_name a) (att_will a) (att_in_subs a) (att_out_subs a) (att_func a).
Definition set_att_name (v : text) (a : attach) : attach :=
  mk_attach (att_link a) v (att_will a) (att_in_subs a) (att_out_subs a) (att_func a).
Definition set_att_will (v : list text) (a : attach) : attach :=
  mk_attach (att_link a) (att_name a) v (att_in_subs a) (att_out_subs a) (att_func a).
Definition set_att_func (v : bool) (a : attach) : attach :=
  mk_attach (att_link a) (att_name a) (att_will a) (att_in_subs a) (att_out_subs a) v.

Section Attach.
Context (gale_connect_text : text -> Z -> text)
        (gale_text_from_number : Z -> Z -> Z -> text)
        {gale_message : Type}
        (notice_message : text -> gale_message)
        (gale_pack_message : gale_message -> gale_packet).

(** [attach_report]: the link's address goes through [(unsigned int)]. *)
Definition attach_report (link_addr : Z) (a : attach) : text :=
  G_ "[" ++ gale_text_from_number (u32 link_addr) 16 8 ++ G_ "] attach: name=" ++ att_name a
  ++ G_ ", pull [" ++ att_in_subs a ++ G_ "], push [" ++ att_out_subs a ++ G_ "]" ++ [newline_char].

Definition on_will_packet (pkt : gale_packet) (a : attach) : attach :=
  set_att_link (link_will (att_link a) pkt) a.

Definition on_will_message (msg : gale_message) (a : attach) : attach :=
  on_will_packet (gale_pack_message msg) a.

(** The notice [on_connect] queues as the link's future will. *)
Definition will_notice (name : text) (addr : Z) : text :=
  G_ "galed will: disconnected from " ++ gale_connect_text name addr ++ [newline_char].

Definition on_connect (name : text) (addr : Z) (a : attach) : attach * alert :=
  let al := Alert_notice (G_ "connected to " ++ gale_connect_text name addr) in
  let a := set_att_name name a in
  let a := set_att_link (link_subscribe (att_link a) (att_in_subs a)) a in
  let a := set_att_will (att_will a ++ [will_notice name addr]) a in
  (a, al).

Definition on_disconnect (a : attach) : attach * alert :=
  (a, Alert_warning (G_ "disconnected from " ++ [quote_char] ++ att_name a ++ [quote_char])).

(** [on_empty]: [return att->func(att,att->data);], a call through a
    [NULL] pointer when no function was given. *)
Definition on_empty_null : string := "on_empty: att->func(att,att->data) with att->func NULL".

Definition on_empty_call (a : attach) : outcome attach :=
  if att_func a then Done a else Abort on_empty_null.

Definition new_attach (server : text) (in_subs out_subs : text) : attach :=
  mk_attach new_link server [] in_subs out_subs false.

Definition on_empty_attach (f : bool) (a : attach) : attach :=
  let a := set_att_link (link_on_empty (att_link a) f) a in
  set_att_func f a.

(** What happens to an attach: its own callbacks, and what the server,
    the routing code and the reactor do to the shared link. *)
Inductive att_event :=
| Ev_connect (name : text) (addr : Z)          (* the server calls [on_connect] *)
| Ev_disconnect                                (* the server calls [on_disconnect] *)
| Ev_will                                      (* the will queue hands over its oldest notice *)
| Ev_empty_attach (f : bool)                   (* [on_empty_attach(att,f,d)] *)
| Ev_set_fd (fd : Z)                           (* the server's [link_set_fd] *)
| Ev_on_error (f : bool)                       (* the server's [link_on_error] *)
| Ev_put (clk : gale_time) (tv : timeval) (m : gale_packet)  (* the routing code's [link_put] *)
| Ev_process                                   (* the reactor runs [on_process] *)
| Ev_read (ev : read_event)                    (* ... [on_read] *)
| Ev_write (ev : write_event).                 (* ... [on_write] *)

(** A callback of the link whose [on_empty] handler is [attach.c]'s
    [on_empty] calls it when it returns [Cb_empty]. *)
Definition link_callback (a : attach) (r : outcome (gale_link * callback)) : outcome attach :=
  r ← r;
  let '(l, cb) := (r : gale_link * callback) in
  let a := set_att_link l a in
  if cb is Cb_empty then on_empty_call a else Done a.

Definition att_step (a : attach) (ev : att_event) : outcome attach :=
  match ev with
  | Ev_connect name addr => Done (on_connect name addr a).1
  | Ev_disconnect => Done (on_disconnect a).1
  | Ev_will =>
      match att_will a with
      | [] => Done a
      | t :: rest => Done (on_will_message (notice_message t) (set_att_will rest a))
      end
  | Ev_empty_attach f => Done (on_empty_attach f a)
  | Ev_set_fd fd => Done (set_att_link (link_set_fd (att_link a) fd) a)
  | Ev_on_error f => Done (set_att_link (link_on_error (att_link a) f) a)
  | Ev_put clk tv m => Done (set_att_link (link_put clk tv (att_link a) m).1 a)
  | Ev_process => link_callback a (on_process (att_link a))
  | Ev_read ev => link_callback a (on_read (att_link a) ev)
  | Ev_write ev =>
      link_callback a (r ← on_write (att_link a) ev; let '(l, _, cb) := (r : gale_link * bytes * callback) in
                       Done (l, cb))
  end.

Fixpoint att_run (a : attach) (evs : list att_event) : outcome attach :=
  match evs with
  | [] => Done a
  | ev :: evs => a' ← att_step a ev; att_run a' evs
  end.

End Attach.

(** ** The link's callbacks and its handlers *)

(** A callback result calls a handler only if it is registered. *)
Definition cb_registered (h : link_handlers) (cb : callback) : bool :=
  match cb with
  | Cb_continue => true
  | Cb_message _ => on_message h
  | Cb_will _ => on_will h
  | Cb_subscribe _ => on_subscribe h
  | Cb_empty => on_empty h
  | Cb_error _ => on_error h
  end.

Lemma input_buffer_more_handlers l l' : input_buffer_more l = Done l' -> handlers l' = handlers l.
Proof.
  unfold input_buffer_more. destruct (input l); [|by intros [= <-]].
  destruct (run_input _ _); cbn; by intros; simplify_eq/=.
Qed.

Lemma input_buffer_read_handlers l ev l' b :
  input_buffer_read l ev = Done (l', b) -> handlers l' = handlers l.
Proof.
  unfold input_buffer_read. repeat case_match; intros; simplify_eq/=; try done.
  destruct (input_buffer_more _) eqn:E; simplify_eq/=. by apply input_buffer_more_handlers in E.
Qed.

Lemma output_buffer_write_handlers l ev l' bs b :
  output_buffer_write l ev = Done (l', bs, b) -> handlers l' = handlers l.
Proof.
  unfold output_buffer_write. repeat case_match; intros; simplify_eq/=; try done.
  destruct (output_fill _ _ _) as [[? ?]|] eqn:E; by simplify_eq/=.
Qed.

(** [on_process], [on_read] and [on_write] leave the handlers alone and
    call only registered ones (every [NULL != l->on_...] test). *)
Lemma on_process_handlers l l' cb :
  on_process l = Done (l', cb) -> handlers l' = handlers l /\ cb_registered (handlers l) cb = true.
Proof.
  unfold on_process. intros E. repeat (case_match; simplify_eq/=; autorewrite with gale_rw; try done).
  { destruct (input_buffer_more _) eqn:Em; simplify_eq/=. autorewrite with gale_rw.
    apply input_buffer_more_handlers in Em. by rewrite Em. }
  all: bool_to_prop; split; [reflexivity | done].
Qed.

Lemma on_read_handlers l ev l' cb :
  on_read l ev = Done (l', cb) -> handlers l' = handlers l /\ cb_registered (handlers l) cb = true.
Proof.
  unfold on_read. intros E. case_match; [by simplify_eq/=|].
  destruct (input_buffer_read _ _) as [[l1 f]|] eqn:Er; cbn in E; [|discriminate].
  apply input_buffer_read_handlers in Er. cbn in Er.
  repeat (case_match; simplify_eq/=; autorewrite with gale_rw; try done); by rewrite <- Er.
Qed.

Lemma on_write_handlers l ev l' bs cb :
  on_write l ev = Done (l', bs, cb) -> handlers l' = handlers l /\ cb_registered (handlers l) cb = true.
Proof.
  unfold on_write. intros E. case_match.
  - repeat (case_match; simplify_eq/=; try done); bool_to_prop; split; done.
  - destruct (output_buffer_write _ _) as [[[l1 bs1] f]|] eqn:Ew; cbn in E; [|discriminate].
    apply output_buffer_write_handlers in Ew. cbn in Ew.
    repeat (case_match; simplify_eq/=; try done); bool_to_prop; split; by rewrite <- ?Ew.
Qed.

(** The other operations on the shared link keep its handlers, or
    change only the one they register. *)
Lemma link_set_fd_handlers l fd' : handlers (link_set_fd l fd') = handlers l.
Proof. unfold link_set_fd. rewrite handlers_activate. cbn. rewrite handlers_deactivate. by repeat case_match. Qed.

Lemma link_put_handlers clk tv l m : handlers (link_put clk tv l m).1 = handlers l.
Proof. unfold link_put. destruct (gale_time_now clk tv). cbn. by autorewrite with gale_rw. Qed.

Lemma link_on_error_on_empty l f : on_empty (handlers (link_on_error l f)) = on_empty (handlers l).
Proof. unfold link_on_error. by autorewrite with gale_rw. Qed.

Lemma link_on_empty_on_empty l f : on_empty (handlers (link_on_empty l f)) = f.
Proof. unfold link_on_empty. by autorewrite with gale_rw. Qed.

Lemma link_subscribe_handlers l t : handlers (link_subscribe l t) = handlers l.
Proof. unfold link_subscribe. by autorewrite with gale_rw. Qed.

Lemma link_will_handlers l m : handlers (link_will l m) = handlers l.
Proof. unfold link_will. by autorewrite with gale_rw. Qed.

Lemma fd_upd_lout f l : fd (upd_lout f l) = fd l.
Proof. reflexivity. Qed.

Lemma lout_link_subscribe l t : lout (link_subscribe l t) = set_out_gimme t (lout l).
Proof. unfold link_subscribe. by autorewrite with gale_rw. Qed.

Lemma lout_link_will l m : lout (link_will l m) = set_out_will (Some m) (lout l).
Proof. unfold link_will. by autorewrite with gale_rw. Qed.

Lemma fd_link_subscribe l t : fd (link_subscribe l t) = fd l.
Proof. unfold link_subscribe. by autorewrite with gale_rw. Qed.

#[export] Hint Rewrite link_set_fd_handlers link_put_handlers link_on_error_on_empty
  link_on_empty_on_empty link_subscribe_handlers link_will_handlers fd_upd_lout
  lout_link_subscribe lout_link_will fd_link_subscribe : gale_rw.

(** Project the fields of an attach after its operations, leaving the
    text literals folded. *)
Ltac att_simpl :=
  unfold on_connect, on_disconnect, on_will_message, on_will_packet, on_empty_attach in *;
  cbn [fst snd att_link att_name att_will att_in_subs att_out_subs att_func
       set_att_link set_att_name set_att_will set_att_func] in *.

(** ** The attach invariant *)

(** The link's own callback fails at [s] on event [ev]. *)
Definition link_aborts (l : gale_link) (ev : att_event) (s : string) : Prop :=
  match ev with
  | Ev_process => on_process l = Abort s
  | Ev_read e => on_read l e = Abort s
  | Ev_write e => on_write l e = Abort s
  | _ => False
  end.

(** The link calls [attach.c]'s [on_empty] exactly when [att->func] is
    set: both are written together by [on_empty_attach]. *)
Definition attach_wf (a : attach) : Prop := on_empty (handlers (att_link a)) = att_func a.

Section Steps.
Context (gale_connect_text : text -> Z -> text) {gale_message : Type}
        (notice_message : text -> gale_message) (gale_pack_message : gale_message -> gale_packet).

(** A link callback that keeps the handlers and calls only registered
    ones adds no failure of its own to an attach that is well formed. *)
Lemma link_callback_wf a r a' :
  attach_wf a ->
  (forall l' cb, r = Done (l', cb) -> handlers l' = handlers (att_link a)
                 /\ cb_registered (handlers (att_link a)) cb = true) ->
  link_callback a r = Done a' -> attach_wf a'.
Proof.
  unfold link_callback, attach_wf. intros Hwf Hr E.
  destruct r as [[l cb]|]; cbn in E; [|discriminate].
  destruct (Hr l cb eq_refl) as [Hh _]. unfold on_empty_call in E.
  destruct cb; simplify_eq/=; try (by rewrite Hh).
  cbn in E. destruct (att_func a) eqn:Ef; simplify_eq/=. by rewrite Hh, Ef.
Qed.

Lemma link_callback_abort a r s :
  attach_wf a ->
  (forall l' cb, r = Done (l', cb) -> handlers l' = handlers (att_link a)
                 /\ cb_registered (handlers (att_link a)) cb = true) ->
  link_callback a r = Abort s -> r = Abort s.
Proof.
  unfold link_callback, attach_wf. intros Hwf Hr E.
  destruct r as [[l cb]|]; cbn in E; [|congruence].
  destruct (Hr l cb eq_refl) as [_ Hc]. unfold on_empty_call in E.
  destruct cb; simplify_eq/=. cbn in Hc. by rewrite <- Hwf, Hc in E.
Qed.

Local Abbreviation step := (att_step gale_connect_text notice_message gale_pack_message).
Local Abbreviation run := (att_run gale_connect_text notice_message gale_pack_message).

Lemma on_write_callback l ev l' cb :
  (r ← on_write l ev; let '(l, _, cb) := (r : gale_link * bytes * callback) in Done (l, cb)) = Done (l', cb) ->
  handlers l' = handlers l /\ cb_registered (handlers l) cb = true.
Proof.
  destruct (on_write l ev) as [[[l1 bs] cb1]|] eqn:E; cbn; intros; simplify_eq/=.
  by apply on_write_handlers in E.
Qed.

Lemma att_step_wf a ev a' : attach_wf a -> step a ev = Done a' -> attach_wf a'.
Proof.
  intros Hwf E. destruct ev; cbn [att_step] in E.
  8-10: eapply link_callback_wf; [exact Hwf| |exact E]; intros l' cb Hr;
    eauto using on_process_handlers, on_read_handlers, on_write_callback.
  all: unfold attach_wf in *; repeat case_match; simplify_eq; att_simpl; by autorewrite with gale_rw.
Qed.

Lemma att_step_abort a ev s : attach_wf a -> step a ev = Abort s -> link_aborts (att_link a) ev s.
Proof.
  intros Hwf E. destruct ev; cbn [att_step] in E; repeat case_match; simplify_eq; cbn [link_aborts].
  1,2: apply link_callback_abort in E;
    [exact E | exact Hwf | intros l' cb Hr; eauto using on_process_handlers, on_read_handlers].
  apply link_callback_abort in E; [| exact Hwf | intros l' cb Hr; eauto using on_write_callback].
  destruct (on_write _ _) as [[[? ?] ?]|] eqn:Ew; cbn in *; congruence.
Qed.

Lemma att_run_wf a evs a' : attach_wf a -> run a evs = Done a' -> attach_wf a'.
Proof.
  revert a. induction evs as [|ev evs IH]; intros a Hwf E; cbn in E; [by simplify_eq|].
  destruct (step a ev) eqn:Es; cbn in E; [|done]. eauto using att_step_wf.
Qed.

End Steps.

(** ** What the attach layer guarantees *)

Section Claims.
Context (gale_connect_text : text -> Z -> text) {gale_message : Type}
        (notice_message : text -> gale_message) (gale_pack_message : gale_message -> gale_packet).

Local Abbreviation step := (att_step gale_connect_text notice_message gale_pack_message).
Local Abbreviation run := (att_run gale_connect_text notice_message gale_pack_message).

(** C33: in every attach that [new_attach] and a sequence of events
    make, the link's [on_empty] handler is registered exactly when
    [att->func] is set. *)
Theorem attach_empty_handler_agrees server in_subs out_subs evs a :
  run (new_attach server in_subs out_subs) evs = Done a -> on_empty (handlers (att_link a)) = att_func a.
Proof. intros E. by eapply att_run_wf; [|exact E]. Qed.

(** C34: the attach layer adds no failure of its own: in every attach
    that [new_attach] and a sequence of events make, an event fails only
    when the link's own callback fails, at the same [assert]; in
    particular [on_empty] never calls [att->func] when it is [NULL]. *)
Theorem attach_no_null_call server in_subs out_subs evs a ev s :
  run (new_attach server in_subs out_subs) evs = Done a -> step a ev = Abort s ->
  link_aborts (att_link a) ev s.
Proof.
  intros E Es. eapply att_step_abort; [|exact Es]. by eapply att_run_wf; [|exact E].
Qed.

(** C35: when the server connects an attached link, [on_connect]
    records the peer's name and re-sends the subscription, and the will
    notice it queues comes back through [on_will_message] as the link's
    will; the link is registered for reading and writing. *)
Theorem connect_registers_will a name addr a' :
  fd (att_link a) <> -1 -> att_will a = [] ->
  run a [Ev_connect name addr; Ev_will] = Done a' ->
  att_name a' = name /\ out_gimme (lout (att_link a')) = att_in_subs a
  /\ out_will (lout (att_link a')) = Some (gale_pack_message (notice_message (will_notice gale_connect_text name addr)))
  /\ att_will a' = [] /\ reactor (att_link a') = mk_regs true true true.
Proof.
  intros Hfd Hw E. cbn [att_run att_step] in E. rewrite bind_done in E. att_simpl. rewrite Hw in E.
  cbn [app] in E. rewrite bind_done in E. simplify_eq. att_simpl.
  rewrite !lout_link_will, !lout_link_subscribe.
  split_and!; try done. unfold link_will. apply reactor_activate_attached.
  by rewrite fd_upd_lout, fd_link_subscribe.
Qed.

End Claims.

(** [attach_report] prints the link's address through
    [(unsigned int)]: on a 64-bit target, links whose addresses differ
    by a multiple of 2^32 are reported under the same number. *)
Theorem attach_report_truncates (text_from_number : Z -> Z -> Z -> text) addr k a :
  attach_report text_from_number (addr + k * 2 ^ 32) a = attach_report text_from_number addr a.
Proof. unfold attach_report, u32. by rewrite Z_mod_plus_full. Qed.

(** ** Witnesses *)

(** Stand-ins for the collaborators: the connection text is the name,
    a notice is its own message, and a message packs to its text. *)
Definition ex_connect_text (name : text) (_ : Z) : text := name.
Definition ex_notice (t : text) : text := t.
Definition ex_pack (t : text) : gale_packet := mk_packet t [].

Definition ex_attach : attach := new_attach (G_ "hub") (G_ "in") (G_ "out").

Definition ex_events : list att_event :=
  [Ev_set_fd 3; Ev_empty_attach true; Ev_connect (G_ "peer") 0; Ev_will; Ev_process].

Lemma attach_empty_handler_agrees_witness :
  exists a, att_run ex_connect_text ex_notice ex_pack ex_attach ex_events = Done a
  /\ on_empty (handlers (att_link a)) = att_func a.
Proof.
  destruct (att_run ex_connect_text ex_notice ex_pack ex_attach ex_events) as [a|s] eqn:E;
    [|vm_compute in E; discriminate].
  exists a. split; [reflexivity|]. exact (attach_empty_handler_agrees _ _ _ _ _ _ _ _ E).
Defined.

(** The peer's version, then a fetch frame with four bytes after the id. *)
Definition ex_overlong_fetch : bytes :=
  gale_pack_u32 1 ++ example_frame opcode_fetch (repeat Byte.x00 20 ++ [Byte.x01; Byte.x02; Byte.x03; Byte.x04]).

Lemma attach_no_null_call_witness :
  exists a, att_run ex_connect_text ex_notice ex_pack ex_attach [Ev_set_fd 3] = Done a
  /\ att_step ex_connect_text ex_notice ex_pack a (Ev_read (Rd_data ex_overlong_fetch))
     = Abort "ist_idle: 0 == in_length"
  /\ link_aborts (att_link a) (Ev_read (Rd_data ex_overlong_fetch)) "ist_idle: 0 == in_length".
Proof.
  destruct (att_run ex_connect_text ex_notice ex_pack ex_attach [Ev_set_fd 3]) as [a|s] eqn:E;
    [|vm_compute in E; discriminate].
  assert (Es : att_step ex_connect_text ex_notice ex_pack a (Ev_read (Rd_data ex_overlong_fetch))
               = Abort "ist_idle: 0 == in_length").
  { vm_compute in E. injection E as <-. vm_compute. reflexivity. }
  exists a. split_and!; [reflexivity | exact Es |].
  exact (attach_no_null_call _ _ _ _ _ _ _ _ _ _ E Es).
Defined.

Definition ex_attached : attach := set_att_link (link_set_fd new_link 3) ex_attach.

Lemma connect_registers_will_witness :
  fd (att_link ex_attached) <> -1 /\ att_will ex_attached = [] /\
  exists a', att_run ex_connect_text ex_notice ex_pack ex_attached [Ev_connect (G_ "peer") 7; Ev_will] = Done a'
  /\ att_name a' = G_ "peer" /\ out_gimme (lout (att_link a')) = G_ "in"
  /\ out_will (lout (att_link a')) = Some (ex_pack (ex_notice (will_notice ex_connect_text (G_ "peer") 7)))
  /\ att_will a' = [] /\ reactor (att_link a') = mk_regs true true true.
Proof.
  assert (Hfd : fd (att_link ex_attached) <> -1) by (vm_compute; discriminate).
  assert (Hw : att_will ex_attached = []) by reflexivity.
  split_and!; [exact Hfd | exact Hw |].
  destruct (att_run ex_connect_text ex_notice ex_pack ex_attached [Ev_connect (G_ "peer") 7; Ev_will])
    as [a'|s] eqn:E; [|vm_compute in E; discriminate].
  exists a'. split; [reflexivity|].
  exact (connect_registers_will ex_connect_text ex_notice ex_pack ex_attached (G_ "peer") 7 a' Hfd Hw E).
Defined.
