(* ===== verification/Server.v ===== *)
(** * Server: what an attach holds of the rest of the server

    [new_attach] in [src/server/attach.c] does more than fill
    [struct attach]: it opens a router connection ([new_connect], and
    [connect_filter] on it when a filter is given), a connection
    manager ([gale_make_server]), and registers [attach_report] with
    the global report registry ([gale_report_add]); [close_attach]
    takes the three back ([gale_report_remove], [gale_close],
    [close_connect]).  The router, the connection manager and the
    registry are libgale and server code outside this repository:
    whether the first two are open is an [attach_res], and the
    registry is the typeclass [ReportRegistry], the contract [attach.c]
    relies on (a registration is listed until it is removed), with the
    list instance [list_registry].  A registration is named by the
    address of the attach it reports, the data pointer of
    [gale_report_add]; the function is always [attach_report]. *)

From S2P Require Import Prelude Wire LinkState Attach.

(** ** The report registry *)

Class ReportRegistry (R : Type) := {
  report_add : Z -> R -> R;
  report_remove : Z -> R -> R;
  report_listed : Z -> R -> bool;
  report_listed_add a b r : report_listed b (report_add a r) = bool_decide (a = b) || report_listed b r;
  report_listed_remove a b r : report_listed b (report_remove a r) = bool_decide (a <> b) && report_listed b r;
  report_remove_add a r : report_listed a r = false -> report_remove a (report_add a r) = r
}.

(** The registry as the list of registered addresses, newest first. *)
Definition list_report_remove (a : Z) (r : list Z) : list Z := filter (fun b => a <> b) r.

Lemma list_listed_add (a b : Z) (r : list Z) : bool_decide (b ∈ a :: r) = bool_decide (a = b) || bool_decide (b ∈ r).
Proof. apply eq_bool_prop_intro. rewrite orb_True, !bool_decide_spec, elem_of_cons. intuition congruence. Qed.

Lemma list_listed_remove (a b : Z) (r : list Z) :
  bool_decide (b ∈ list_report_remove a r) = bool_decide (a <> b) && bool_decide (b ∈ r).
Proof.
  apply eq_bool_prop_intro. rewrite andb_True, !bool_decide_spec.
  unfold list_report_remove. rewrite list_elem_of_filter. tauto.
Qed.

Lemma list_remove_add (a : Z) (r : list Z) : bool_decide (a ∈ r) = false -> list_report_remove a (a :: r) = r.
Proof.
  intros Hr. apply bool_decide_eq_false in Hr. unfold list_report_remove.
  rewrite filter_cons_False by naive_solver.
  induction r as [|b r IH]; [done|]. apply not_elem_of_cons in Hr as [Hb Hr].
  rewrite filter_cons_True by done. by rewrite IH.
Qed.

#[export] Instance list_registry : ReportRegistry (list Z) := {
  report_add a r := a :: r;
  report_remove := list_report_remove;
  report_listed a r := bool_decide (a ∈ r);
  report_listed_add := list_listed_add;
  report_listed_remove := list_listed_remove;
  report_remove_add := list_remove_add
}.

(** ** Opening and closing an attach *)

(** The objects [struct attach] points to besides the link. *)
Record attach_res := mk_attach_res {
  res_server : bool;    (* [att->server] runs: [gale_make_server] ... [gale_close] *)
  res_connect : bool;   (* [att->connect] is open: [new_connect] ... [close_connect] *)
  res_filter : bool     (* [connect_filter] was called on [att->connect] *)
}.

Section Server.
Context `{ReportRegistry R}.

(** [new_attach(source,server,func,data,in,out)] for an attach at
    address [addr]: the struct, the objects it opens, the registry. *)
Definition new_attach_full (addr : Z) (server : text) (func : bool) (in_subs out_subs : text)
    (r : R) : attach * attach_res * R :=
  let a := new_attach server in_subs out_subs in
  let r := report_add addr r in
  (a, mk_attach_res true true func, r).

(** [close_attach(att)]. *)
Definition close_attach (addr : Z) (res : attach_res) (r : R) : attach_res * R :=
  let r := report_remove addr r in
  let res := mk_attach_res false (res_connect res) (res_filter res) in
  let res := mk_attach_res (res_server res) false (res_filter res) in
  (res, r).

End Server.

(** What a server does with its attaches, in order. *)
Inductive server_op :=
| Op_new (addr : Z) (server : text) (func : bool) (in_subs out_subs : text)
| Op_close (addr : Z) (res : attach_res).

Section Serve.
Context `{ReportRegistry R}.

Definition server_op_step (r : R) (op : server_op) : R :=
  match op with
  | Op_new addr server func in_subs out_subs => (new_attach_full addr server func in_subs out_subs r).2
  | Op_close addr res => (close_attach addr res r).2
  end.

Definition serve (r : R) (ops : list server_op) : R := fold_left server_op_step ops r.

(** The attach an operation is about. *)
Definition op_addr (op : server_op) : Z :=
  match op with Op_new addr _ _ _ _ | Op_close addr _ => addr end.

(** Whether [b] is open after [ops], when one of them is about it. *)
Fixpoint last_open (b : Z) (ops : list server_op) : option bool :=
  match ops with
  | [] => None
  | op :: ops =>
      match last_open b ops with
      | Some o => Some o
      | None => if bool_decide (op_addr op = b) then Some (if op is Op_new _ _ _ _ _ then true else false)
                else None
      end
  end.

End Serve.

(** ** One attach's registrations *)

Section Lifecycle.
Context `{ReportRegistry R}.

Lemma listed_new_attach addr server func in_subs out_subs r b :
  report_listed b (new_attach_full addr server func in_subs out_subs r).2
  = bool_decide (addr = b) || report_listed b r.
Proof. apply report_listed_add. Qed.

Lemma listed_close_attach addr res r b :
  report_listed b (close_attach addr res r).2 = bool_decide (addr <> b) && report_listed b r.
Proof. apply report_listed_remove. Qed.

Lemma listed_step r op b :
  report_listed b (server_op_step r op)
  = if bool_decide (op_addr op = b) then (if op is Op_new _ _ _ _ _ then true else false)
    else report_listed b r.
Proof.
  destruct op; cbn [server_op_step op_addr];
    [rewrite listed_new_attach | rewrite listed_close_attach];
    repeat case_bool_decide; cbn; congruence.
Qed.

(** C39: [close_attach] takes back what [new_attach] set up: an attach
    at an address the registry does not list has its report listed, its
    connection manager running and its router connection open, with a
    filter when one was given; closing it stops both and leaves the
    registry as it was before [new_attach]. *)
Theorem close_attach_undoes addr server func in_subs out_subs r :
  report_listed addr r = false ->
  let '(a, res, r1) := new_attach_full addr server func in_subs out_subs r in
  report_listed addr r1 = true /\ res = mk_attach_res true true func
  /\ close_attach addr res r1 = (mk_attach_res false false func, r).
Proof.
  intros Hr. cbn. split_and!; [|done|].
  - by rewrite report_listed_add, bool_decide_true.
  - unfold close_attach. by rewrite report_remove_add.
Qed.

Lemma last_open_snoc b ops op :
  last_open b (ops ++ [op]) =
  if bool_decide (op_addr op = b) then Some (if op is Op_new _ _ _ _ _ then true else false)
  else last_open b ops.
Proof.
  induction ops as [|op' ops IH]; cbn [app last_open]; [by case_bool_decide|].
  rewrite IH. by case_bool_decide.
Qed.

(** Whatever other attaches the server opens and closes, the
    report of the attach at [b] is listed exactly when the last
    operation about [b] opened it, and as before when none is about it. *)
Theorem report_listed_serve r ops b :
  report_listed b (serve r ops) =
  match last_open b ops with Some o => o | None => report_listed b r end.
Proof.
  unfold serve. induction ops as [|op ops IH] using rev_ind; [done|].
  rewrite fold_left_app, last_open_snoc. cbn [fold_left].
  rewrite listed_step, IH. by case_bool_decide.
Qed.

End Lifecycle.

(** ** Witnesses *)

Definition ex_registry : list Z := [5].

Lemma close_attach_undoes_witness :
  report_listed 7 ex_registry = false /\
  let '(a, res, r1) := new_attach_full 7 (G_ "hub") true (G_ "in") (G_ "out") ex_registry in
  report_listed 7 r1 = true /\ res = mk_attach_res true true true
  /\ close_attach 7 res r1 = (mk_attach_res false false true, ex_registry).
Proof.
  assert (Hr : report_listed 7 ex_registry = false) by reflexivity.
  split; [exact Hr | exact (close_attach_undoes 7 (G_ "hub") true (G_ "in") (G_ "out") ex_registry Hr)].
Defined.
