(* ===== verification/Api.v ===== *)
(** * Api: a link driven through its whole interface

    An application holds a [gale_link] made by [new_link] and calls, in
    any order, the functions [core_link.c] exports ([link_put],
    [link_queue_drop], [link_set_fd], [link_shutdown],
    [link_subscribe], [link_will], the [link_on_*] registrations, the
    [ltx_*] mutators and the [lrx_*] drains), while the reactor runs the
    callbacks [on_process], [on_read] and [on_write].  [api_call] names
    one such call, [api_step] performs it, and [api_reach] is the set of
    links a program can build.  The clock [last] of [gale_time_now] is
    the caller's, given with each [link_put].

    [link_wf] is the invariant the output machine needs (the pending maps
    hold what the mutators put there, and the output buffer's state
    agrees with [out_msg] and [out_text]).  Every call preserves it as
    long as the content ids given to [ltx_fetch], [ltx_miss] and
    [ltx_supply] are [CID_LENGTH] bytes long, so [on_write] never fails
    an [assert] on a link a program builds that way. *)

From S2P Require Import Prelude Wire GaleMap GaleTime LinkState Input Output Session.

Local Open Scope gale_scope.

Inductive api_call :=
| Call_put (clk : gale_time) (tv : timeval) (m : gale_packet)
| Call_drop
| Call_set_fd (fd : Z)
| Call_shutdown
| Call_subscribe (t : text)
| Call_will (m : gale_packet)
| Call_on_error (b : bool)
| Call_on_empty (b : bool)
| Call_on_message (b : bool)
| Call_on_will (b : bool)
| Call_on_subscribe (b : bool)
| Call_publish (t : text)
| Call_watch (t : text)
| Call_forget (t : text)
| Call_complete (t : text)
| Call_assert (cat : text) (cid : bytes)
| Call_retract (cat : text) (cid : bytes)
| Call_fetch (cid : bytes)
| Call_miss (cid : bytes)
| Call_supply (cid data : bytes)
| Call_lrx_publish | Call_lrx_watch | Call_lrx_forget | Call_lrx_complete
| Call_lrx_assert | Call_lrx_retract | Call_lrx_fetch | Call_lrx_miss | Call_lrx_supply
| Call_process
| Call_read (ev : read_event)
| Call_write (ev : write_event).

(** The link after a call; what the call returns to its caller is
    dropped. *)
Definition api_step (l : gale_link) (c : api_call) : outcome gale_link :=
  match c with
  | Call_put clk tv m => Done (link_put clk tv l m).1
  | Call_drop => Done (link_queue_drop l)
  | Call_set_fd fd => Done (link_set_fd l fd)
  | Call_shutdown => Done (link_shutdown l)
  | Call_subscribe t => Done (link_subscribe l t)
  | Call_will m => Done (link_will l m)
  | Call_on_error b => Done (link_on_error l b)
  | Call_on_empty b => Done (link_on_empty l b)
  | Call_on_message b => Done (link_on_message l b)
  | Call_on_will b => Done (link_on_will l b)
  | Call_on_subscribe b => Done (link_on_subscribe l b)
  | Call_publish t => ltx_publish l t
  | Call_watch t => ltx_watch l t
  | Call_forget t => ltx_forget l t
  | Call_complete t => ltx_complete l t
  | Call_assert cat cid => ltx_assert l cat cid
  | Call_retract cat cid => ltx_retract l cat cid
  | Call_fetch cid => ltx_fetch l cid
  | Call_miss cid => ltx_miss l cid
  | Call_supply cid data => ltx_supply l cid data
  | Call_lrx_publish => r ← lrx_publish l; Done r.1
  | Call_lrx_watch => r ← lrx_watch l; Done r.1
  | Call_lrx_forget => r ← lrx_forget l; Done r.1
  | Call_lrx_complete => r ← lrx_complete l; Done r.1
  | Call_lrx_assert => r ← lrx_assert l; Done r.1.1
  | Call_lrx_retract => r ← lrx_retract l; Done r.1.1
  | Call_lrx_fetch => r ← lrx_fetch l; Done r.1
  | Call_lrx_miss => r ← lrx_miss l; Done r.1
  | Call_lrx_supply => r ← lrx_supply l; Done r.1.1
  | Call_process => r ← on_process l; Done r.1
  | Call_read ev => r ← on_read l ev; Done r.1
  | Call_write ev => r ← on_write l ev; Done r.1.1
  end.

(** The content ids a call hands to the fetch sub-protocol have
    [CID_LENGTH] bytes. *)
Definition cid_ok (c : api_call) : bool :=
  match c with
  | Call_fetch cid | Call_miss cid | Call_supply cid _ => (length cid =? 20)%nat
  | _ => true
  end.

(** The links a program builds from [new_link]. *)
Inductive api_reach : gale_link -> Prop :=
| reach_new : api_reach new_link
| reach_step l c l' : api_reach l -> cid_ok c = true -> api_step l c = Done l' -> api_reach l'.

(** What the output machine needs of a link: a fresh output buffer
    starts in [ost_version], which wants no message or text in flight. *)
Definition link_wf (l : gale_link) : Prop :=
  maps_wf (lout l) /\
  match output l with
  | None => out_msg (lout l) = None /\ out_text (lout l) = []
  | Some ob => output_wf (lout l) (ob_state ob)
  end.

(** The five pending maps. *)
Definition out_maps (lo : link_out) :=
  (out_watch lo, out_complete lo, out_assert lo, out_fetch lo, out_supply lo).

(** ** Frame lemmas *)

Lemma maps_wf_out_maps lo lo' : out_maps lo' = out_maps lo -> maps_wf lo -> maps_wf lo'.
Proof. unfold out_maps, maps_wf. intros [= -> -> -> -> ->]. done. Qed.

Lemma output_wf_maps lo lo' st :
  maps_wf lo' -> out_msg lo' = out_msg lo -> out_text lo' = out_text lo -> output_wf lo st -> output_wf lo' st.
Proof. unfold output_wf. intros Hm -> -> [_ Hs]. by split. Qed.

(** A call that changes neither the output buffer nor what is in flight
    keeps the invariant if the maps it leaves are well formed. *)
Lemma link_wf_maps l l' :
  output l' = output l -> out_msg (lout l') = out_msg (lout l) -> out_text (lout l') = out_text (lout l) ->
  maps_wf (lout l') -> link_wf l -> link_wf l'.
Proof.
  unfold link_wf. intros Ho Hm Ht Hw' [Hw Hs]. split; [done|]. rewrite Ho, Hm, Ht.
  destruct (output l); [|done]. by eapply output_wf_maps.
Qed.

Lemma link_wf_frame l l' :
  output l' = output l -> out_msg (lout l') = out_msg (lout l) -> out_text (lout l') = out_text (lout l) ->
  out_maps (lout l') = out_maps (lout l) -> link_wf l -> link_wf l'.
Proof.
  intros Ho Hm Ht Hmaps Hwf. apply (link_wf_maps l); try done.
  eapply maps_wf_out_maps; [exact Hmaps | apply Hwf].
Qed.

(** The input side leaves the output half and the output buffer alone. *)
Lemma input_buffer_more_out l l' : input_buffer_more l = Done l' -> lout l' = lout l /\ output l' = output l.
Proof.
  unfold input_buffer_more. destruct (input l); [|by intros [= <-]].
  destruct (run_input _ _); cbn; by intros; simplify_eq/=.
Qed.

Lemma get_text_out get set l l' r :
  get_text get set l = Done (l', r) -> lout l' = lout l /\ output l' = output l.
Proof.
  unfold get_text. case_match; [by intros [= <- _]|].
  destruct (input_buffer_more _) eqn:E; cbn; intros; simplify_eq/=. by apply input_buffer_more_out in E.
Qed.

Lemma get_data_out get set l l' r :
  get_data get set l = Done (l', r) -> lout l' = lout l /\ output l' = output l.
Proof.
  unfold get_data. case_match; [by intros [= <- _]|].
  destruct (input_buffer_more _) eqn:E; cbn; intros; simplify_eq/=. by apply input_buffer_more_out in E.
Qed.

(** The output loop keeps the machine well formed, whatever the fuel. *)
Lemma output_fill_wf fuel lo ob :
  output_wf lo (ob_state ob) ->
  exists lo' ob', output_fill fuel lo ob = Done (lo', ob') /\ output_wf lo' (ob_state ob').
Proof.
  revert lo ob. induction fuel as [|fuel IH]; intros lo ob Hwf; cbn; [eauto|].
  destruct (output_step lo ob) as [r|] eqn:E; [|eauto].
  destruct (output_step_wf _ _ _ Hwf E) as (lo1 & ob1 & -> & Hwf1). by apply IH.
Qed.

(** ** The output side *)

(** The output buffer [on_write] works with is well formed. *)
Lemma link_wf_output l :
  link_wf l -> output_wf (lout l) (ob_state (match output l with Some ob => ob | None => create_output_buffer end)).
Proof. intros [Hw Ho]. destruct (output l); [done|]. destruct Ho as [Hm Ht]. by split. Qed.

Lemma link_wf_set_output l ob :
  output_wf (lout l) (ob_state ob) -> link_wf (set_output (Some ob) l).
Proof. intros Hwf. split; [apply Hwf | done]. Qed.

(** [on_write] never fails on a well-formed link. *)
Lemma on_write_done l ev : link_wf l -> exists r, on_write l ev = Done r.
Proof.
  intros Hwf. pose proof (link_wf_output l Hwf) as Hob.
  remember (match output l with Some ob => ob | None => create_output_buffer end) as ob eqn:Eob.
  unfold on_write. rewrite <- Eob. cbv zeta.
  destruct (negb _) eqn:Er; [repeat case_match; eauto|].
  unfold output_buffer_write. cbn [output set_output lout set_lout]. destruct ev as [steps n|e]; [|cbn; eauto].
  destruct (output_fill_wf steps (lout l) _ Hob) as (lo' & ob' & -> & _). cbn. eauto.
Qed.

Lemma on_write_wf l ev l' bs cb : link_wf l -> on_write l ev = Done (l', bs, cb) -> link_wf l'.
Proof.
  intros Hwf. pose proof (link_wf_output l Hwf) as Hob.
  remember (match output l with Some ob => ob | None => create_output_buffer end) as ob eqn:Eob.
  unfold on_write. rewrite <- Eob. cbv zeta.
  destruct (negb _) eqn:Er.
  - repeat case_match; intros; simplify_eq; (split; cbn;
      [exact (proj1 Hob) | eapply output_wf_maps; [exact (proj1 Hob) | done | done | exact Hob]]).
  - unfold output_buffer_write. cbn [output set_output lout set_lout]. destruct ev as [steps n|e].
    + destruct (output_fill_wf steps (lout l) _ Hob) as (lo' & ob' & -> & Hwf'). cbn.
      intros; simplify_eq. apply link_wf_set_output. exact Hwf'.
    + cbn. intros; simplify_eq. by apply link_wf_set_output.
Qed.

(** ** The mutators *)

Ltac maps_add_tac :=
  unfold maps_wf; intros; destruct_and!; cbn; split_and!; try done;
  first [by apply gale_map_add_sorted | apply gale_map_add_Forall; [done | intros ? [= <-]; cbn; try split; done]].

Lemma maps_wf_watch lo k v :
  yes_or_no (k, v) -> maps_wf lo -> maps_wf (set_out_watch (gale_map_add (out_watch lo) k (Some v)) lo).
Proof. maps_add_tac. Qed.

Lemma maps_wf_complete lo k :
  maps_wf lo -> maps_wf (set_out_complete (gale_map_add (out_complete lo) k (Some St_yes)) lo).
Proof. maps_add_tac. Qed.

Lemma maps_wf_assert lo k v :
  yes_or_no (k, v) -> maps_wf lo -> maps_wf (set_out_assert (gale_map_add (out_assert lo) k (Some v)) lo).
Proof. maps_add_tac. Qed.

Lemma maps_wf_fetch lo k :
  length k = 20%nat -> maps_wf lo -> maps_wf (set_out_fetch (gale_map_add (out_fetch lo) k (Some St_yes)) lo).
Proof. maps_add_tac. Qed.

Lemma maps_wf_supply lo k v :
  v <> St_yes -> length k = 20%nat -> maps_wf lo -> maps_wf (set_out_supply (gale_map_add (out_supply lo) k (Some v)) lo).
Proof. maps_add_tac. Qed.

Lemma version_gate_Done name l k l' : version_gate name l k = Done l' -> k = Done l'.
Proof. unfold version_gate, c_assert. by case_match. Qed.

(** A mutator changes one map through [map_put]. *)
Lemma map_put_wf get set k v l :
  maps_wf (set (gale_map_add (get (lout l)) k (Some v)) (lout l)) ->
  out_msg (set (gale_map_add (get (lout l)) k (Some v)) (lout l)) = out_msg (lout l) ->
  out_text (set (gale_map_add (get (lout l)) k (Some v)) (lout l)) = out_text (lout l) ->
  link_wf l -> link_wf (map_put get set k v l).
Proof. intros Hw Hm Ht. by apply link_wf_maps. Qed.

(** ** Calls that leave the output side alone *)

(** Two links agree on everything the invariant reads. *)
Definition same_out (l l' : gale_link) : Prop :=
  output l' = output l /\ out_maps (lout l') = out_maps (lout l)
  /\ out_msg (lout l') = out_msg (lout l) /\ out_text (lout l') = out_text (lout l).

Lemma same_out_wf l l' : same_out l l' -> link_wf l -> link_wf l'.
Proof. intros (Ho & Hm & Hmsg & Ht). by apply link_wf_frame. Qed.

Lemma same_out_eq l l' : lout l' = lout l -> output l' = output l -> same_out l l'.
Proof. intros Hl Ho. unfold same_out. by rewrite Hl, Ho. Qed.

Lemma on_process_out l l' cb : on_process l = Done (l', cb) -> same_out l l'.
Proof.
  unfold on_process. intros E. apply same_out_eq;
    repeat (case_match; simplify_eq/=; autorewrite with gale_rw; try done).
  all: destruct (input_buffer_more _) eqn:Em; simplify_eq/=; autorewrite with gale_rw;
       apply input_buffer_more_out in Em as [H1 H2]; by rewrite ?H1, ?H2.
Qed.

Lemma input_buffer_read_out l ev l' b : input_buffer_read l ev = Done (l', b) -> lout l' = lout l /\ output l' = output l.
Proof.
  unfold input_buffer_read. repeat case_match; intros; simplify_eq/=; try done.
  destruct (input_buffer_more _) eqn:E; simplify_eq/=. by apply input_buffer_more_out in E.
Qed.

Lemma on_read_out l ev l' cb : on_read l ev = Done (l', cb) -> same_out l l'.
Proof.
  unfold on_read. intros E. case_match; [simplify_eq/=; by split_and!|].
  destruct (input_buffer_read _ _) as [[l1 f]|] eqn:Er; cbn in E; [|discriminate].
  apply input_buffer_read_out in Er as [Hl Ho]. cbn in Hl, Ho.
  repeat case_match; simplify_eq/=; unfold same_out; autorewrite with gale_rw; cbn; rewrite ?Hl, ?Ho; by split_and!.
Qed.

Ltac same_out_tac :=
  unfold same_out, link_shutdown, link_subscribe, link_will, link_on_error, link_on_empty, link_on_message,
    link_on_will, link_on_subscribe;
  cbn [fst snd]; autorewrite with gale_rw; cbn; autorewrite with gale_rw; by split_and!.

Lemma link_put_out clk tv l m : same_out l (link_put clk tv l m).1.
Proof. unfold link_put. destruct (gale_time_now clk tv). same_out_tac. Qed.

Lemma link_queue_drop_out l : same_out l (link_queue_drop l).
Proof. unfold link_queue_drop, dequeue. repeat case_match; same_out_tac. Qed.

Lemma link_set_fd_wf l fd' : link_wf l -> link_wf (link_set_fd l fd').
Proof.
  intros Hwf. unfold link_set_fd. destruct (fd l =? -1) eqn:Efd; cbn [negb].
  - apply (same_out_wf l); [same_out_tac | done].
  - destruct Hwf as [Hw _]. unfold link_wf. rewrite output_activate, lout_activate.
    cbn [output lout set_fd]. rewrite output_deactivate, lout_deactivate.
    destruct (negb _) eqn:Et; cbn; (split; [apply (maps_wf_out_maps (lout l)); done|]); [done|].
    split; [done|]. bool_to_prop. by apply nil_length_inv.
Qed.

Lemma get_text_same get set l l' r : get_text get set l = Done (l', r) -> same_out l l'.
Proof. intros E. apply get_text_out in E as [H1 H2]. by apply same_out_eq. Qed.

Lemma get_data_same get set l l' r : get_data get set l = Done (l', r) -> same_out l l'.
Proof. intros E. apply get_data_out in E as [H1 H2]. by apply same_out_eq. Qed.

Lemma same_out_upd_lin f l l' : same_out (upd_lin f l) l' -> same_out l l'.
Proof. done. Qed.

(** Every call keeps the invariant, the fetch sub-protocol's content ids
    being [CID_LENGTH] bytes long. *)
Lemma api_step_wf l c l' : link_wf l -> cid_ok c = true -> api_step l c = Done l' -> link_wf l'.
Proof.
  intros Hwf Hc E. destruct c; cbn [api_step cid_ok] in E, Hc.
  all: try (injection E as <-; first [by apply link_set_fd_wf
          | apply (same_out_wf l); [|done]; first [apply link_put_out | apply link_queue_drop_out | same_out_tac]]).
  all: try (apply version_gate_Done in E; try rewrite combine_ok in E; cbn in E; injection E as <-;
            first [apply (same_out_wf l); [same_out_tac | done]
                  | apply map_put_wf; [| done | done | done];
                    bool_to_prop; first [apply maps_wf_watch | apply maps_wf_complete | apply maps_wf_assert
                                        | apply maps_wf_fetch | apply maps_wf_supply]; try apply Hwf;
                    try done; by (left + right)]).
  all: try (destruct (on_process l) as [[l1 cb]|] eqn:Ep; cbn in E; simplify_eq;
            apply (same_out_wf l); [by eapply on_process_out | done]).
  all: try (destruct (on_read l ev) as [[l1 cb]|] eqn:Ep; cbn in E; simplify_eq;
            apply (same_out_wf l); [by eapply on_read_out | done]).
  all: try (destruct (on_write l ev) as [[[l1 bs] cb]|] eqn:Ep; cbn in E; simplify_eq; by eapply on_write_wf).
  all: match goal with E : ?m ≫= _ = Done _ |- _ => destruct m as [r|] eqn:Ep; cbn in E; simplify_eq end;
       apply (same_out_wf l); [|done].
  1-4, 7-8: unfold lrx_publish, lrx_watch, lrx_forget, lrx_complete, lrx_fetch, lrx_miss in Ep;
    destruct r; first [by eapply get_text_same | by eapply get_data_same].
  all: destruct r as [[l1 cid] o]; cbn; revert Ep; unfold lrx_assert, lrx_retract, lrx_supply;
       first [destruct (get_text _ _ _) as [[? ?]|] eqn:Eg | destruct (get_data _ _ _) as [[? ?]|] eqn:Eg];
       cbn; intros; simplify_eq; apply (same_out_upd_lin _ _ _ (get_text_same _ _ _ _ _ Eg))
         || apply (same_out_upd_lin _ _ _ (get_data_same _ _ _ _ _ Eg)).
Qed.

Lemma link_wf_new : link_wf new_link.
Proof. split; [apply maps_wf_new | done]. Qed.

Lemma api_reach_wf l : api_reach l -> link_wf l.
Proof. induction 1; [apply link_wf_new | by eapply api_step_wf]. Qed.

(** ** The output side never fails *)

(** C36: on every link a program builds from [new_link] with any
    sequence of API calls and reactor callbacks, passing
    [CID_LENGTH]-byte content ids to [ltx_fetch], [ltx_miss] and
    [ltx_supply], [on_write] never fails an [assert] of the output
    machine, whatever the descriptor does. *)
Theorem api_write_never_aborts l ev : api_reach l -> exists r, on_write l ev = Done r.
Proof. intros Hr. apply on_write_done, api_reach_wf, Hr. Qed.

Definition example_api_link : gale_link :=
  (link_put gale_time_last0 (mk_timeval 1 0) (link_set_fd new_link 3) example_packet).1.

Lemma api_write_never_aborts_witness :
  api_reach example_api_link /\ exists r, on_write example_api_link (Wr_ok 5 100) = Done r.
Proof.
  assert (Hr : api_reach example_api_link).
  { eapply (reach_step _ (Call_put gale_time_last0 (mk_timeval 1 0) example_packet));
      [eapply (reach_step _ (Call_set_fd 3)); [apply reach_new | reflexivity | reflexivity]
      | reflexivity | reflexivity]. }
  split; [exact Hr|]. exact (api_write_never_aborts example_api_link (Wr_ok 5 100) Hr).
Defined.
